(** * Deferred fsync coordinator (src/backend/storage/sync/sync.c) and the
    bgwriter statistics sender (src/backend/utils/activity/pgstat_global.c)

    A shallow embedding of the checkpointer-side sync request machinery:
    the pending-ops table, the pending-unlinks list, the in-flight and
    retry queues, the two cycle counters, and the functions that act on
    them.  C functions become computations in a state-and-exception monad
    over the process-wide variables of sync.c.  What lies outside the two
    source files (the handlers, the streaming writer, the clock, the
    inter-process request queue) is an environment [Env] that every
    definition and theorem is parametric in. *)

From Stdlib Require Import ZArith String.
From stdpp Require Import base tactics option list strings gmap.

Open Scope Z_scope.

(* ===================================================================== *)
(** ** Data model *)
(* ===================================================================== *)

(** The values of the SyncRequestHandler enum, as indexed by [syncsw]. *)
Inductive SyncRequestHandler :=
| SYNC_HANDLER_MD
| SYNC_HANDLER_CLOG
| SYNC_HANDLER_COMMIT_TS
| SYNC_HANDLER_MULTIXACT_OFFSET
| SYNC_HANDLER_MULTIXACT_MEMBER.

(** The request types RememberSyncRequest distinguishes. *)
Inductive SyncRequestType :=
| SYNC_REQUEST
| SYNC_UNLINK_REQUEST
| SYNC_FORGET_REQUEST
| SYNC_FILTER_REQUEST.

(** Modelled from the spec: FileTag is declared in sync.h, which is not
    part of the sources at hand.  It is a fixed-size value made of the
    handler discriminant and handler-specific numbers (fork, tablespace /
    database / relation, segment); two tags are the same hash key exactly
    when all their fields agree. *)
Record FileTag := {
  handler : SyncRequestHandler;
  forknum : Z;
  rnode : Z * Z * Z;
  segno : Z
}.

#[global] Instance SyncRequestHandler_eq_dec : EqDecision SyncRequestHandler.
Proof. solve_decision. Defined.

#[global] Instance SyncRequestType_eq_dec : EqDecision SyncRequestType.
Proof. solve_decision. Defined.

Definition handler_index (h : SyncRequestHandler) : nat :=
  match h with
  | SYNC_HANDLER_MD => 0
  | SYNC_HANDLER_CLOG => 1
  | SYNC_HANDLER_COMMIT_TS => 2
  | SYNC_HANDLER_MULTIXACT_OFFSET => 3
  | SYNC_HANDLER_MULTIXACT_MEMBER => 4
  end%nat.

Definition handler_of_index (n : nat) : option SyncRequestHandler :=
  match n with
  | 0 => Some SYNC_HANDLER_MD
  | 1 => Some SYNC_HANDLER_CLOG
  | 2 => Some SYNC_HANDLER_COMMIT_TS
  | 3 => Some SYNC_HANDLER_MULTIXACT_OFFSET
  | 4 => Some SYNC_HANDLER_MULTIXACT_MEMBER
  | _ => None
  end%nat.

#[global] Instance SyncRequestHandler_countable : Countable SyncRequestHandler.
Proof. apply (inj_countable handler_index handler_of_index). by intros []. Defined.

#[global] Instance FileTag_eq_dec : EqDecision FileTag.
Proof. solve_decision. Defined.

#[global] Instance FileTag_countable : Countable FileTag.
Proof.
  apply (inj_countable'
           (λ t, (handler t, forknum t, rnode t, segno t))
           (λ p, match p with (h, f, r, s) => Build_FileTag h f r s end)).
  by intros [].
Defined.

(** typedef uint16 CycleCtr: a cycle counter is kept as an integer in
    [0, 65536); [CycleCtr_cast] is the conversion (CycleCtr) x. *)
Definition CycleCtr_cast (x : Z) : Z := x mod 65536.

(** uint64 arithmetic of the timing statistics. *)
Definition uint64_cast (x : Z) : Z := x mod 18446744073709551616.

(** int arithmetic of the counters kept in an int (processed,
    absorb_counter): 32 bits, two's complement, wrapping round as the
    server is built (-fwrapv). *)
Definition int_cast (x : Z) : Z := (x + 2147483648) mod 4294967296 - 2147483648.

(** PendingFsyncEntry.  The hash key [tag] is the key of the map that
    holds the entry; the record keeps the other two fields. *)
Record PendingFsyncEntry := {
  cycle_ctr : Z;      (* sync_cycle_ctr of oldest request *)
  canceled : bool     (* canceled is true if we canceled "recently" *)
}.

Record PendingUnlinkEntry := {
  u_tag : FileTag;    (* identifies handler and file *)
  u_cycle_ctr : Z     (* checkpoint_cycle_ctr when request was made *)
}.

(** Modelled from the spec: InflightSyncEntry is declared in sync.h.  The
    fields sync.c reads or writes are kept.  [hash_entry] points to the
    owning PendingFsyncEntry; dynahash entries do not move, so the pointer
    is the key under which that entry is stored. *)
Record InflightSyncEntry := {
  tag : FileTag;
  hash_entry : FileTag;
  retry_count : Z;
  start_time : Z
}.

#[global] Instance PendingFsyncEntry_eq_dec : EqDecision PendingFsyncEntry.
Proof. solve_decision. Defined.

#[global] Instance PendingUnlinkEntry_eq_dec : EqDecision PendingUnlinkEntry.
Proof. solve_decision. Defined.

#[global] Instance InflightSyncEntry_eq_dec : EqDecision InflightSyncEntry.
Proof. solve_decision. Defined.

(** Intervals for calling AbsorbSyncRequests *)
Definition FSYNCS_PER_ABSORB : Z := 10.
Definition UNLINKS_PER_ABSORB : Z := 10.

(** The functions the [syncsw] table points to.  They live in md.c, clog.c
    and so on; here they are names, and [Env] says what calling them
    does. *)
Inductive SyncFn :=
| mdsyncfiletag
| clogsyncfiletag
| committssyncfiletag
| multixactoffsetssyncfiletag
| multixactmemberssyncfiletag.

Inductive UnlinkFn := mdunlinkfiletag.

Inductive MatchFn := mdfiletagmatches.

#[global] Instance SyncFn_eq_dec : EqDecision SyncFn.
Proof. solve_decision. Defined.

#[global] Instance UnlinkFn_eq_dec : EqDecision UnlinkFn.
Proof. solve_decision. Defined.

#[global] Instance MatchFn_eq_dec : EqDecision MatchFn.
Proof. solve_decision. Defined.

(** struct SyncOps; a function pointer left out of the initializer is
    NULL, here [None]. *)
Record SyncOps := {
  sync_syncfiletag : SyncFn;
  sync_unlinkfiletag : option UnlinkFn;
  sync_filetagmatches : option MatchFn
}.

Definition syncsw (h : SyncRequestHandler) : SyncOps :=
  match h with
  | SYNC_HANDLER_MD =>
      {| sync_syncfiletag := mdsyncfiletag;
         sync_unlinkfiletag := Some mdunlinkfiletag;
         sync_filetagmatches := Some mdfiletagmatches |}
  | SYNC_HANDLER_CLOG =>
      {| sync_syncfiletag := clogsyncfiletag;
         sync_unlinkfiletag := None; sync_filetagmatches := None |}
  | SYNC_HANDLER_COMMIT_TS =>
      {| sync_syncfiletag := committssyncfiletag;
         sync_unlinkfiletag := None; sync_filetagmatches := None |}
  | SYNC_HANDLER_MULTIXACT_OFFSET =>
      {| sync_syncfiletag := multixactoffsetssyncfiletag;
         sync_unlinkfiletag := None; sync_filetagmatches := None |}
  | SYNC_HANDLER_MULTIXACT_MEMBER =>
      {| sync_syncfiletag := multixactmemberssyncfiletag;
         sync_unlinkfiletag := None; sync_filetagmatches := None |}
  end.

(** Message severities used by sync.c, in increasing order. *)
Inductive ErrLevel := DEBUG1 | WARNING | ERROR | PANIC.

#[global] Instance ErrLevel_eq_dec : EqDecision ErrLevel.
Proof. solve_decision. Defined.

(** ereport/elog at ERROR or above does not return to its caller. *)
Definition is_fatal (lvl : ErrLevel) : bool :=
  match lvl with
  | ERROR | PANIC => true
  | DEBUG1 | WARNING => false
  end.

(** What the outside world can observe of a run, in order. *)
Inductive Event :=
| EvAbsorb                                     (* AbsorbSyncRequests() was entered *)
| EvSync (f : SyncFn) (e : InflightSyncEntry)  (* a handler's sync function was called *)
| EvUnlink (f : UnlinkFn) (t : FileTag)        (* a handler's unlink function was called *)
| EvLog (lvl : ErrLevel) (msg : string) (t : option FileTag). (* a message below ERROR *)

#[global] Instance Event_eq_dec : EqDecision Event.
Proof. solve_decision. Defined.

(** Ways a computation stops without returning. *)
Inductive Exn :=
| Ereport (lvl : ErrLevel) (msg : string)  (* ereport/elog at ERROR or PANIC *)
| AssertFailure (cond : string)            (* a failed Assert() *)
| NullDeref (what : string)                (* call or read through a NULL or stale pointer *)
| OutOfFuel.                               (* artefact of the model's loop bounds *)

#[global] Instance Exn_eq_dec : EqDecision Exn.
Proof. solve_decision. Defined.

(** struct SyncState *)
Record SyncState := {
  sync_in_progress : bool;
  absorb_counter : Z;
  pgsw : option Z;          (* the streaming writer and its window, or NULL *)
  processed : Z;
  longest : Z;
  total_elapsed : Z
}.

(** The three fields of CheckpointStats that sync.c writes. *)
Record CheckpointStatsData := {
  ckpt_sync_rels : Z;
  ckpt_longest_sync : Z;
  ckpt_agg_sync_time : Z
}.

(** How often each part of the environment has been consulted. *)
Record Ticks := {
  t_absorb : nat;
  t_sync : nat;
  t_done : nat;
  t_clock : nat;
  t_unlink : nat
}.

(** The file-level variables of sync.c, the part of CheckpointStats it
    fills in, the observable trace and the environment's tick counts. *)
Record State := {
  pendingOps : option (gmap FileTag PendingFsyncEntry);
  pendingUnlinks : list PendingUnlinkEntry;
  inflightSyncs : list InflightSyncEntry;
  retrySyncs : list InflightSyncEntry;
  sync_cycle_ctr : Z;
  checkpoint_cycle_ctr : Z;
  sync_state_global : SyncState;
  CheckpointStats : CheckpointStatsData;
  ticks : Ticks;
  trace : list Event
}.

(** Everything sync.c calls but does not define.

    - [absorb_feed n]: the requests the n-th AbsorbSyncRequests() finds in
      the inter-process queue, in queue order.
    - [drain_at k]: the in-flight requests, by position in the in-flight
      queue, whose completion the streaming writer delivers while the
      k-th handler sync call is running.
    - [io_result n]: success flag and errno of the n-th completion.
    - [clock n]: microseconds read by the n-th INSTR_TIME_SET_CURRENT.
    - [run_unlinkfiletag f n t]: return value and errno of the n-th
      unlink call.
    - [run_filetagmatches]: the handlers' match predicates.
    - [FILE_POSSIBLY_DELETED]: the platform macro of that name.
    - [ENOENT]: the errno value.
    - [enableFsync], [log_checkpoints], [data_sync_retry]: settings. *)
Record Env := {
  absorb_feed : nat → list (FileTag * SyncRequestType);
  drain_at : nat → list nat;
  io_result : nat → bool * Z;
  clock : nat → Z;
  run_unlinkfiletag : UnlinkFn → nat → FileTag → Z * Z;
  run_filetagmatches : MatchFn → FileTag → FileTag → bool;
  FILE_POSSIBLY_DELETED : Z → bool;
  ENOENT : Z;
  enableFsync : bool;
  log_checkpoints : bool;
  data_sync_retry : bool
}.

(* ===================================================================== *)
(** ** The state-and-exception monad *)
(* ===================================================================== *)

Inductive Outcome (A : Type) :=
| Ret (a : A)
| Throw (e : Exn).
Arguments Ret {A} a.
Arguments Throw {A} e.

Definition M (A : Type) : Type := State → Outcome A * State.

Definition ret {A} (a : A) : M A := λ st, (Ret a, st).

Definition bind {A B} (m : M A) (k : A → M B) : M B :=
  λ st, match m st with
        | (Ret a, st') => k a st'
        | (Throw e, st') => (Throw e, st')
        end.

Definition throw {A} (e : Exn) : M A := λ st, (Throw e, st).

Definition gets {A} (f : State → A) : M A := λ st, (Ret (f st), st).

Definition modify (f : State → State) : M unit := λ st, (Ret tt, f st).

Notation "x ← m ; k" := (bind m (λ x, k))
  (at level 20, m at level 100, k at level 200, only parsing, right associativity).
Notation "m ;; k" := (bind m (λ _, k))
  (at level 100, k at level 200, right associativity).

(** foreach / for loops over a list computed beforehand *)
Fixpoint forM_ {A} (l : list A) (body : A → M unit) : M unit :=
  match l with
  | [] => ret tt
  | x :: l' => body x ;; forM_ l' body
  end.

(** if (c) m; *)
Definition when (c : bool) (m : M unit) : M unit := if c then m else ret tt.

(** Assert(c) in an assert-enabled build *)
Definition Assert (c : bool) (cond : string) : M unit :=
  if c then ret tt else throw (AssertFailure cond).

(* ===================================================================== *)
(** ** Field updates *)
(* ===================================================================== *)

Definition set_pendingOps (v : option (gmap FileTag PendingFsyncEntry)) (st : State) : State :=
  {| pendingOps := v; pendingUnlinks := pendingUnlinks st;
     inflightSyncs := inflightSyncs st; retrySyncs := retrySyncs st;
     sync_cycle_ctr := sync_cycle_ctr st; checkpoint_cycle_ctr := checkpoint_cycle_ctr st;
     sync_state_global := sync_state_global st; CheckpointStats := CheckpointStats st;
     ticks := ticks st; trace := trace st |}.

Definition set_pendingUnlinks (v : list PendingUnlinkEntry) (st : State) : State :=
  {| pendingOps := pendingOps st; pendingUnlinks := v;
     inflightSyncs := inflightSyncs st; retrySyncs := retrySyncs st;
     sync_cycle_ctr := sync_cycle_ctr st; checkpoint_cycle_ctr := checkpoint_cycle_ctr st;
     sync_state_global := sync_state_global st; CheckpointStats := CheckpointStats st;
     ticks := ticks st; trace := trace st |}.

Definition set_inflightSyncs (v : list InflightSyncEntry) (st : State) : State :=
  {| pendingOps := pendingOps st; pendingUnlinks := pendingUnlinks st;
     inflightSyncs := v; retrySyncs := retrySyncs st;
     sync_cycle_ctr := sync_cycle_ctr st; checkpoint_cycle_ctr := checkpoint_cycle_ctr st;
     sync_state_global := sync_state_global st; CheckpointStats := CheckpointStats st;
     ticks := ticks st; trace := trace st |}.

Definition set_retrySyncs (v : list InflightSyncEntry) (st : State) : State :=
  {| pendingOps := pendingOps st; pendingUnlinks := pendingUnlinks st;
     inflightSyncs := inflightSyncs st; retrySyncs := v;
     sync_cycle_ctr := sync_cycle_ctr st; checkpoint_cycle_ctr := checkpoint_cycle_ctr st;
     sync_state_global := sync_state_global st; CheckpointStats := CheckpointStats st;
     ticks := ticks st; trace := trace st |}.

Definition set_sync_cycle_ctr (v : Z) (st : State) : State :=
  {| pendingOps := pendingOps st; pendingUnlinks := pendingUnlinks st;
     inflightSyncs := inflightSyncs st; retrySyncs := retrySyncs st;
     sync_cycle_ctr := v; checkpoint_cycle_ctr := checkpoint_cycle_ctr st;
     sync_state_global := sync_state_global st; CheckpointStats := CheckpointStats st;
     ticks := ticks st; trace := trace st |}.

Definition set_checkpoint_cycle_ctr (v : Z) (st : State) : State :=
  {| pendingOps := pendingOps st; pendingUnlinks := pendingUnlinks st;
     inflightSyncs := inflightSyncs st; retrySyncs := retrySyncs st;
     sync_cycle_ctr := sync_cycle_ctr st; checkpoint_cycle_ctr := v;
     sync_state_global := sync_state_global st; CheckpointStats := CheckpointStats st;
     ticks := ticks st; trace := trace st |}.

Definition set_sync_state_global (v : SyncState) (st : State) : State :=
  {| pendingOps := pendingOps st; pendingUnlinks := pendingUnlinks st;
     inflightSyncs := inflightSyncs st; retrySyncs := retrySyncs st;
     sync_cycle_ctr := sync_cycle_ctr st; checkpoint_cycle_ctr := checkpoint_cycle_ctr st;
     sync_state_global := v; CheckpointStats := CheckpointStats st;
     ticks := ticks st; trace := trace st |}.

Definition set_CheckpointStats (v : CheckpointStatsData) (st : State) : State :=
  {| pendingOps := pendingOps st; pendingUnlinks := pendingUnlinks st;
     inflightSyncs := inflightSyncs st; retrySyncs := retrySyncs st;
     sync_cycle_ctr := sync_cycle_ctr st; checkpoint_cycle_ctr := checkpoint_cycle_ctr st;
     sync_state_global := sync_state_global st; CheckpointStats := v;
     ticks := ticks st; trace := trace st |}.

Definition set_ticks (v : Ticks) (st : State) : State :=
  {| pendingOps := pendingOps st; pendingUnlinks := pendingUnlinks st;
     inflightSyncs := inflightSyncs st; retrySyncs := retrySyncs st;
     sync_cycle_ctr := sync_cycle_ctr st; checkpoint_cycle_ctr := checkpoint_cycle_ctr st;
     sync_state_global := sync_state_global st; CheckpointStats := CheckpointStats st;
     ticks := v; trace := trace st |}.

Definition set_trace (v : list Event) (st : State) : State :=
  {| pendingOps := pendingOps st; pendingUnlinks := pendingUnlinks st;
     inflightSyncs := inflightSyncs st; retrySyncs := retrySyncs st;
     sync_cycle_ctr := sync_cycle_ctr st; checkpoint_cycle_ctr := checkpoint_cycle_ctr st;
     sync_state_global := sync_state_global st; CheckpointStats := CheckpointStats st;
     ticks := ticks st; trace := v |}.

Definition set_sync_in_progress (v : bool) (s : SyncState) : SyncState :=
  {| sync_in_progress := v; absorb_counter := absorb_counter s; pgsw := pgsw s;
     processed := processed s; longest := longest s; total_elapsed := total_elapsed s |}.

Definition set_absorb_counter (v : Z) (s : SyncState) : SyncState :=
  {| sync_in_progress := sync_in_progress s; absorb_counter := v; pgsw := pgsw s;
     processed := processed s; longest := longest s; total_elapsed := total_elapsed s |}.

Definition set_pgsw (v : option Z) (s : SyncState) : SyncState :=
  {| sync_in_progress := sync_in_progress s; absorb_counter := absorb_counter s; pgsw := v;
     processed := processed s; longest := longest s; total_elapsed := total_elapsed s |}.

Definition set_processed (v : Z) (s : SyncState) : SyncState :=
  {| sync_in_progress := sync_in_progress s; absorb_counter := absorb_counter s; pgsw := pgsw s;
     processed := v; longest := longest s; total_elapsed := total_elapsed s |}.

Definition set_longest (v : Z) (s : SyncState) : SyncState :=
  {| sync_in_progress := sync_in_progress s; absorb_counter := absorb_counter s; pgsw := pgsw s;
     processed := processed s; longest := v; total_elapsed := total_elapsed s |}.

Definition set_total_elapsed (v : Z) (s : SyncState) : SyncState :=
  {| sync_in_progress := sync_in_progress s; absorb_counter := absorb_counter s; pgsw := pgsw s;
     processed := processed s; longest := longest s; total_elapsed := v |}.

(** sync_state->field = f(sync_state->field ...) *)
Definition modify_sync_state (f : SyncState → SyncState) : M unit :=
  modify (λ st, set_sync_state_global (f (sync_state_global st)) st).

(** Append one event to the trace. *)
Definition emit (e : Event) : M unit :=
  modify (λ st, set_trace (trace st ++ [e]) st).

Definition bump_absorb (t : Ticks) : Ticks :=
  {| t_absorb := S (t_absorb t); t_sync := t_sync t; t_done := t_done t;
     t_clock := t_clock t; t_unlink := t_unlink t |}.

Definition bump_sync (t : Ticks) : Ticks :=
  {| t_absorb := t_absorb t; t_sync := S (t_sync t); t_done := t_done t;
     t_clock := t_clock t; t_unlink := t_unlink t |}.

Definition bump_done (t : Ticks) : Ticks :=
  {| t_absorb := t_absorb t; t_sync := t_sync t; t_done := S (t_done t);
     t_clock := t_clock t; t_unlink := t_unlink t |}.

Definition bump_clock (t : Ticks) : Ticks :=
  {| t_absorb := t_absorb t; t_sync := t_sync t; t_done := t_done t;
     t_clock := S (t_clock t); t_unlink := t_unlink t |}.

Definition bump_unlink (t : Ticks) : Ticks :=
  {| t_absorb := t_absorb t; t_sync := t_sync t; t_done := t_done t;
     t_clock := t_clock t; t_unlink := S (t_unlink t) |}.

(** Read a tick count and advance it. *)
Definition tick (read : Ticks → nat) (bump : Ticks → Ticks) : M nat :=
  λ st, (Ret (read (ticks st)), set_ticks (bump (ticks st)) st).

Definition set_cycle_ctr (v : Z) (e : PendingFsyncEntry) : PendingFsyncEntry :=
  {| cycle_ctr := v; canceled := canceled e |}.

Definition set_canceled (v : bool) (e : PendingFsyncEntry) : PendingFsyncEntry :=
  {| cycle_ctr := cycle_ctr e; canceled := v |}.

Definition set_retry_count (v : Z) (e : InflightSyncEntry) : InflightSyncEntry :=
  {| tag := tag e; hash_entry := hash_entry e; retry_count := v; start_time := start_time e |}.

Definition set_start_time (v : Z) (e : InflightSyncEntry) : InflightSyncEntry :=
  {| tag := tag e; hash_entry := hash_entry e; retry_count := retry_count e; start_time := v |}.

(** The state of a process before InitSync ran: every static initializer
    of sync.c. *)
Definition initial_state : State :=
  {| pendingOps := None; pendingUnlinks := [];
     inflightSyncs := []; retrySyncs := [];
     sync_cycle_ctr := 0; checkpoint_cycle_ctr := 0;
     sync_state_global :=
       {| sync_in_progress := false; absorb_counter := 0; pgsw := None;
          processed := 0; longest := 0; total_elapsed := 0 |};
     CheckpointStats :=
       {| ckpt_sync_rels := 0; ckpt_longest_sync := 0; ckpt_agg_sync_time := 0 |};
     ticks := {| t_absorb := 0; t_sync := 0; t_done := 0; t_clock := 0; t_unlink := 0 |};
     trace := [] |}.

(* ===================================================================== *)
(** ** The functions of sync.c *)
(* ===================================================================== *)

Section Model.

Variable env : Env.

(** ereport(lvl, ...) and elog(lvl, ...): at ERROR and above control
    leaves the caller, below it the message is logged. *)
Definition ereport (lvl : ErrLevel) (msg : string) (t : option FileTag) : M unit :=
  if is_fatal lvl then throw (Ereport lvl msg) else emit (EvLog lvl msg t).

Definition elog (lvl : ErrLevel) (msg : string) : M unit := ereport lvl msg None.

(** Modelled from the spec: data_sync_elevel is defined in fd.c.  The
    severity of a failed data sync is the one asked for, promoted to PANIC
    unless retrying a failed sync is allowed. *)
Definition data_sync_elevel (elevel : ErrLevel) : ErrLevel :=
  if data_sync_retry env then elevel else PANIC.

(** INSTR_TIME_SET_CURRENT followed by INSTR_TIME_GET_MICROSEC *)
Definition INSTR_TIME_SET_CURRENT : M Z :=
  n ← tick t_clock bump_clock; ret (clock env n).

(** *** The pending-ops hash table *)

(** Use of the pendingOps pointer; it is NULL until InitSync creates the
    table. *)
Definition the_pendingOps : M (gmap FileTag PendingFsyncEntry) :=
  po ← gets pendingOps;
  match po with
  | Some tbl => ret tbl
  | None => throw (NullDeref "pendingOps")
  end.

(** hash_search(pendingOps, key, HASH_FIND, NULL) *)
Definition hash_search_FIND (key : FileTag) : M (option PendingFsyncEntry) :=
  tbl ← the_pendingOps; ret (tbl !! key).

(** hash_search(pendingOps, key, HASH_REMOVE, NULL) != NULL *)
Definition hash_search_REMOVE (key : FileTag) : M bool :=
  tbl ← the_pendingOps;
  match tbl !! key with
  | Some _ => modify (set_pendingOps (Some (delete key tbl)));; ret true
  | None => ret false
  end.

(** A store through a pointer to the entry kept under [key]. *)
Definition store_entry (key : FileTag) (e : PendingFsyncEntry) : M unit :=
  tbl ← the_pendingOps; modify (set_pendingOps (Some (<[key := e]> tbl))).

(** A read through a pointer to the entry kept under [key]; the pointer is
    stale when the entry has been removed. *)
Definition deref_entry (key : FileTag) : M PendingFsyncEntry :=
  tbl ← the_pendingOps;
  match tbl !! key with
  | Some e => ret e
  | None => throw (NullDeref "hash_entry")
  end.

(** hash_seq_init followed by a while loop over hash_seq_search.  The scan
    goes through the keys present when it starts, in the table's order,
    and hands the body each entry as it is when reached; an entry removed
    before the scan reaches it is not returned.  Entries inserted while
    the scan runs are not visited (dynahash leaves that open). *)
Definition hash_seq_scan (body : FileTag → PendingFsyncEntry → M unit) : M unit :=
  tbl ← the_pendingOps;
  forM_ (map_to_list tbl).*1
    (λ key, cur_tbl ← the_pendingOps;
            match cur_tbl !! key with
            | Some entry => body key entry
            | None => ret tt
            end).

(** *** RememberSyncRequest *)

(** syncsw[ftag->handler].sync_filetagmatches(ftag, candidate) *)
Definition call_filetagmatches (ftag candidate : FileTag) : M bool :=
  match sync_filetagmatches (syncsw (handler ftag)) with
  | Some f => ret (run_filetagmatches env f ftag candidate)
  | None => throw (NullDeref "sync_filetagmatches")
  end.

(** entry->tag.handler == ftag->handler && sync_filetagmatches(ftag, &entry->tag) *)
Definition filter_matches (ftag candidate : FileTag) : M bool :=
  if decide (handler candidate = handler ftag)
  then call_filetagmatches ftag candidate
  else ret false.

(** The foreach loop over pendingUnlinks with foreach_delete_current:
    the list without its matching entries. *)
Fixpoint forget_matching_unlinks (ftag : FileTag) (l : list PendingUnlinkEntry)
  : M (list PendingUnlinkEntry) :=
  match l with
  | [] => ret []
  | entry :: rest =>
      b ← filter_matches ftag (u_tag entry);
      rest' ← forget_matching_unlinks ftag rest;
      ret (if b then rest' else entry :: rest')
  end.

Definition RememberSyncRequest (ftag : FileTag) (type : SyncRequestType) : M unit :=
  po ← gets pendingOps;
  Assert (bool_decide (is_Some po)) "pendingOps";;
  match type with
  | SYNC_FORGET_REQUEST =>
      (* Cancel previously entered request *)
      found ← hash_search_FIND ftag;
      match found with
      | Some entry => store_entry ftag (set_canceled true entry)
      | None => ret tt
      end
  | SYNC_FILTER_REQUEST =>
      (* Cancel matching fsync requests *)
      hash_seq_scan (λ key entry,
        b ← filter_matches ftag key;
        when b (store_entry key (set_canceled true entry)));;
      (* Remove matching unlink requests *)
      l ← gets pendingUnlinks;
      l' ← forget_matching_unlinks ftag l;
      modify (set_pendingUnlinks l')
  | SYNC_UNLINK_REQUEST =>
      (* Unlink request: put it in the linked list *)
      cur ← gets checkpoint_cycle_ctr;
      modify (λ st, set_pendingUnlinks
                      (pendingUnlinks st ++ [{| u_tag := ftag; u_cycle_ctr := cur |}]) st)
  | SYNC_REQUEST =>
      (* Normal case: enter a request to fsync this segment *)
      found ← hash_search_FIND ftag;
      cur ← gets sync_cycle_ctr;
      match found with
      | Some entry =>
          (* found: initialize only if it was previously canceled *)
          when (canceled entry) (store_entry ftag {| cycle_ctr := cur; canceled := false |})
      | None =>
          (* HASH_ENTER made a new entry *)
          store_entry ftag {| cycle_ctr := cur; canceled := false |}
      end
  end.

(** Modelled from the spec: AbsorbSyncRequests is defined in
    checkpointer.c.  It drains the inter-process queue, invoking
    RememberSyncRequest for each item. *)
Definition AbsorbSyncRequests : M unit :=
  n ← tick t_absorb bump_absorb;
  emit EvAbsorb;;
  forM_ (absorb_feed env n) (λ r, RememberSyncRequest r.1 r.2).

(** *** Pre- and post-checkpoint work *)

Definition SyncPreCheckpoint : M unit :=
  modify (λ st, set_checkpoint_cycle_ctr (CycleCtr_cast (checkpoint_cycle_ctr st + 1)) st).

(** syncsw[tag.handler].sync_unlinkfiletag(&tag, path): the return value
    and the errno it leaves. *)
Definition call_unlinkfiletag (t : FileTag) : M (Z * Z) :=
  match sync_unlinkfiletag (syncsw (handler t)) with
  | Some f =>
      n ← tick t_unlink bump_unlink;
      emit (EvUnlink f t);;
      ret (run_unlinkfiletag env f n t)
  | None => throw (NullDeref "sync_unlinkfiletag")
  end.

(** The while loop of SyncPostCheckpoint.  [fuel] bounds the number of
    unlinks; [absorb_counter] is the local variable of that name. *)
Fixpoint SyncPostCheckpoint_loop (fuel : nat) (absorb_counter : Z) : M unit :=
  l ← gets pendingUnlinks;
  match l with
  | [] => ret tt
  | entry :: _ =>
      cur ← gets checkpoint_cycle_ctr;
      (* New entries are appended to the end, so if the entry is new
         we've reached the end of old entries. *)
      if u_cycle_ctr entry =? cur then ret tt
      else
        match fuel with
        | O => throw OutOfFuel
        | S fuel' =>
            (* Unlink the file *)
            r ← call_unlinkfiletag (u_tag entry);
            when (r.1 <? 0)
              (when (negb (r.2 =? ENOENT env))
                 (ereport WARNING "could not remove file %s: %m" (Some (u_tag entry))));;
            (* And remove the list entry *)
            modify (λ st, set_pendingUnlinks (tail (pendingUnlinks st)) st);;
            if absorb_counter - 1 <=? 0
            then AbsorbSyncRequests;; SyncPostCheckpoint_loop fuel' UNLINKS_PER_ABSORB
            else SyncPostCheckpoint_loop fuel' (absorb_counter - 1)
        end
  end.

(** The number of list entries the loop can still unlink: those queued
    under another cycle than the current one. *)
Definition old_unlinks (st : State) : list PendingUnlinkEntry :=
  filter (λ e, u_cycle_ctr e ≠ checkpoint_cycle_ctr st) (pendingUnlinks st).

Definition SyncPostCheckpoint : M unit :=
  st ← gets id;
  SyncPostCheckpoint_loop (length (old_unlinks st)) UNLINKS_PER_ABSORB.

(** *** Completions and submissions *)

(** [i] is the position in inflightSyncs of the entry the C function is
    handed a pointer to. *)
Definition SyncRequestCompleted (i : nat) (success : bool) (err : Z) : M unit :=
  q ← gets inflightSyncs;
  match q !! i with
  | None => throw (NullDeref "inflight_entry")
  | Some inflight_entry =>
      modify (set_inflightSyncs (delete i q));;
      if success then
        (* Success; update statistics about sync timing *)
        now ← INSTR_TIME_SET_CURRENT;
        let elapsed := uint64_cast (now - start_time inflight_entry) in
        modify_sync_state (λ s, if longest s <? elapsed then set_longest elapsed s else s);;
        modify_sync_state (λ s, set_total_elapsed (uint64_cast (total_elapsed s + elapsed)) s);;
        modify_sync_state (λ s, set_processed (int_cast (processed s + 1)) s);;
        when (log_checkpoints env)
          (ereport DEBUG1 "checkpoint sync: number=%d file=%s time=%.3f ms"
             (Some (tag inflight_entry)));;
        (* We are done with this entry, remove it. *)
        r ← hash_search_REMOVE (hash_entry inflight_entry);
        when (negb r) (elog ERROR "pendingOps corrupted")
      else
        (if negb (FILE_POSSIBLY_DELETED env err) || (0 <? retry_count inflight_entry)
         then ereport (data_sync_elevel ERROR) "could not fsync file %s: %m"
                (Some (tag inflight_entry))
         else ereport DEBUG1 "could not fsync file %s but retrying: %m"
                (Some (tag inflight_entry)));;
        (* schedule request to be retried; retry_count is at most 0 when
           this is reached, so that the increment stays in range *)
        modify (λ st, set_retrySyncs
                        (retrySyncs st ++
                           [set_retry_count (retry_count inflight_entry + 1) inflight_entry]) st)
  end.

(** Modelled from the spec: the streaming writer delivers a completion by
    calling SyncRequestCompleted with the outcome of the I/O. *)
Definition deliver_completion (i : nat) : M unit :=
  q ← gets inflightSyncs;
  if decide (i < length q)%nat
  then n ← tick t_done bump_done;
       SyncRequestCompleted i (io_result env n).1 (io_result env n).2
  else ret tt.

(** Modelled from the spec: a handler's sync function starts the
    asynchronous flush; while it runs, the streaming writer may deliver
    completions of requests already in flight (this one included). *)
Definition call_sync (f : SyncFn) (inflight_entry : InflightSyncEntry) : M unit :=
  k ← tick t_sync bump_sync;
  emit (EvSync f inflight_entry);;
  forM_ (drain_at env k) deliver_completion.

(** Modelled from the spec: pg_streaming_write_wait_all awaits all
    outstanding submissions, oldest first. *)
Definition pg_streaming_write_wait_all : M unit :=
  q ← gets inflightSyncs;
  forM_ q (λ _, deliver_completion 0).

(** The C function pushes the entry and then stamps it through the
    pointer; nothing runs between the two, so the entry is stamped first
    here. *)
Definition call_syncfiletag (inflight_entry : InflightSyncEntry) : M unit :=
  now ← INSTR_TIME_SET_CURRENT;
  let inflight_entry := set_start_time now inflight_entry in
  modify (λ st, set_inflightSyncs (inflightSyncs st ++ [inflight_entry]) st);;
  call_sync (sync_syncfiletag (syncsw (handler (tag inflight_entry)))) inflight_entry.

(** *** The retry bank *)

(** The while loop of RetrySyncRequests.  [fuel] bounds the number of
    entries popped. *)
Fixpoint RetrySyncRequests_loop (fuel : nat) : M unit :=
  q ← gets retrySyncs;
  match q with
  | [] => ret tt
  | inflight_entry :: rest =>
      match fuel with
      | O => throw OutOfFuel
      | S fuel' =>
          (* dlist_pop_head_node *)
          modify (set_retrySyncs rest);;
          entry ← deref_entry (hash_entry inflight_entry);
          if canceled entry then
            r ← hash_search_REMOVE (hash_entry inflight_entry);
            when (negb r) (elog ERROR "pendingOps corrupted");;
            RetrySyncRequests_loop fuel'
          else
            Assert (retry_count inflight_entry <=? 5) "inflight_entry->retry_count <= 5";;
            call_syncfiletag inflight_entry;;
            RetrySyncRequests_loop fuel'
      end
  end.

(** How often a request can still come back to the retry queue: once if
    it has not failed yet, never after that. *)
Definition retries_left (e : InflightSyncEntry) : nat :=
  Z.to_nat (Z.max 0 (1 - retry_count e)).

(** A bound on the number of entries the while loop pops: each entry of
    the retry queue once, and once more for each time a request can come
    back to it. *)
Definition retry_fuel (st : State) : nat :=
  (sum_list_with (λ e, S (2 * retries_left e)) (retrySyncs st)
   + sum_list_with (λ e, 2 * retries_left e) (inflightSyncs st))%nat.

Definition RetrySyncRequests : M unit :=
  q ← gets retrySyncs;
  match q with
  | [] => ret tt
  | _ :: _ =>
      (* Absorb incoming requests and check to see if a cancel arrived
         for this relation fork. *)
      AbsorbSyncRequests;;
      modify_sync_state (set_absorb_counter FSYNCS_PER_ABSORB);;
      st ← gets id;
      RetrySyncRequests_loop (retry_fuel st)
  end.

(** *** ProcessSyncRequests *)

(** if (--sync_state->absorb_counter <= 0) { AbsorbSyncRequests(); reset } *)
Definition interleave_absorb : M unit :=
  modify_sync_state (λ s, set_absorb_counter (int_cast (absorb_counter s - 1)) s);;
  c ← gets (λ st, absorb_counter (sync_state_global st));
  when (c <=? 0)
    (AbsorbSyncRequests;;
     modify_sync_state (set_absorb_counter FSYNCS_PER_ABSORB)).

(** The InflightSyncEntry allocated for the entry stored under [key], as
    initialized before call_syncfiletag stamps it. *)
Definition new_inflight_entry (key : FileTag) : InflightSyncEntry :=
  {| tag := key; hash_entry := key; retry_count := 0; start_time := 0 |}.

(** The body of the main loop over the hashtable, for the entry stored
    under [key]; [entry] is what the scan found there. *)
Definition ProcessSyncRequests_entry (key : FileTag) (entry : PendingFsyncEntry) : M unit :=
  cur ← gets sync_cycle_ctr;
  (* If the entry is new then don't process it this time *)
  if cycle_ctr entry =? cur then ret tt
  else
    (* Else assert we haven't missed it *)
    Assert (CycleCtr_cast (cycle_ctr entry + 1) =? cur)
      "(CycleCtr) (entry->cycle_ctr + 1) == sync_cycle_ctr";;
    interleave_absorb;;
    (* entry->canceled is read after the absorb *)
    entry' ← deref_entry key;
    if negb (enableFsync env) || canceled entry' then
      (* We are done with this entry, remove it *)
      r ← hash_search_REMOVE key;
      when (negb r) (elog ERROR "pendingOps corrupted")
    else
      call_syncfiletag (new_inflight_entry key).

(** The main loop over the hashtable. *)
Definition ProcessSyncRequests_scan : M unit :=
  modify_sync_state (set_absorb_counter FSYNCS_PER_ABSORB);;
  hash_seq_scan ProcessSyncRequests_entry.

(** for (int failures = 0; failures < 5; failures++) RetrySyncRequests *)
Definition ProcessSyncRequests_retries : M unit :=
  forM_ (seq 0 5) (λ _, RetrySyncRequests).

(** The end of ProcessSyncRequests, from the two emptiness checks on. *)
Definition ProcessSyncRequests_finish : M unit :=
  inflight ← gets inflightSyncs;
  when (negb (bool_decide (inflight = []))) (elog PANIC "inflight sync requests corrupted");;
  retry ← gets retrySyncs;
  when (negb (bool_decide (retry = []))) (elog PANIC "inflight sync requests corrupted");;
  (* pg_streaming_write_free *)
  modify_sync_state (set_pgsw None);;
  (* Return sync performance metrics for report at checkpoint end *)
  modify (λ st, set_CheckpointStats
                  {| ckpt_sync_rels := processed (sync_state_global st);
                     ckpt_longest_sync := longest (sync_state_global st);
                     ckpt_agg_sync_time := total_elapsed (sync_state_global st) |} st);;
  (* Flag successful completion of ProcessSyncRequests *)
  modify_sync_state (set_sync_in_progress false).

(** The beginning of ProcessSyncRequests, up to setting the in-progress
    flag. *)
Definition ProcessSyncRequests_start : M unit :=
  po ← gets pendingOps;
  when (negb (bool_decide (is_Some po))) (elog ERROR "cannot sync without a pendingOps table");;
  AbsorbSyncRequests;;
  in_progress ← gets (λ st, sync_in_progress (sync_state_global st));
  when in_progress
    (elog PANIC "not implemented right now";;
     (* prior try failed, so update any stale cycle_ctr values *)
     hash_seq_scan (λ key entry,
       cur ← gets sync_cycle_ctr; store_entry key (set_cycle_ctr cur entry)));;
  modify_sync_state (set_processed 0);;
  modify_sync_state (set_longest 0);;
  modify_sync_state (set_total_elapsed 0);;
  modify_sync_state (λ s, match pgsw s with None => set_pgsw (Some 128) s | Some _ => s end);;
  (* Advance counter so that new hashtable entries are distinguishable *)
  modify (λ st, set_sync_cycle_ctr (CycleCtr_cast (sync_cycle_ctr st + 1)) st);;
  (* Set flag to detect failure if we don't reach the end of the loop *)
  modify_sync_state (set_sync_in_progress true).

Definition ProcessSyncRequests : M unit :=
  ProcessSyncRequests_start;;
  (* Now scan the hashtable for fsync requests to process *)
  ProcessSyncRequests_scan;;
  pg_streaming_write_wait_all;;
  ProcessSyncRequests_retries;;
  ProcessSyncRequests_finish.

(** InitSync; [owner] is (!IsUnderPostmaster || AmCheckpointerProcess()). *)
Definition InitSync (owner : bool) : M unit :=
  when owner
    (modify (set_pendingOps (Some ∅));;
     modify (set_pendingUnlinks [])).

End Model.


(* ===================================================================== *)
(** ** pgstat_send_bgwriter (pgstat_global.c) *)
(* ===================================================================== *)

(** Modelled from the spec: the message structures are declared in
    pgstat.h.  A bgwriter message is a header followed by counters; the
    structure has no other content, so memcmp against a zeroed structure
    succeeds exactly when the header fields and all counters are zero. *)
Record PgStat_MsgHdr := {
  m_type : Z;
  m_size : Z
}.

Record PgStat_MsgBgWriter := {
  m_hdr : PgStat_MsgHdr;
  m_counters : list Z
}.

#[global] Instance PgStat_MsgHdr_eq_dec : EqDecision PgStat_MsgHdr.
Proof. solve_decision. Defined.

#[global] Instance PgStat_MsgBgWriter_eq_dec : EqDecision PgStat_MsgBgWriter.
Proof. solve_decision. Defined.

(** The part of the statistics subsystem pgstat_send_bgwriter touches:
    the pending message buffer, the messages handed to pgstat_send so far,
    and whether the subsystem is initialized and not shut down. *)
Record PgStatState := {
  PendingBgWriterStats : PgStat_MsgBgWriter;
  pgstat_sent : list PgStat_MsgBgWriter;
  pgstat_is_up : bool
}.

(** static const PgStat_MsgBgWriter all_zeroes, for a structure with [n]
    counters; also what MemSet(&msg, 0, sizeof(msg)) leaves. *)
Definition all_zeroes (n : nat) : PgStat_MsgBgWriter :=
  {| m_hdr := {| m_type := 0; m_size := 0 |}; m_counters := replicate n 0 |}.

(** Modelled from the spec: pgstat_setheader (pgstat.c) stores the message
    type in the header. *)
Definition pgstat_setheader (mtype : Z) (msg : PgStat_MsgBgWriter) : PgStat_MsgBgWriter :=
  {| m_hdr := {| m_type := mtype; m_size := m_size (m_hdr msg) |};
     m_counters := m_counters msg |}.

Section PgStat.

(** The value of the enum constant PGSTAT_MTYPE_BGWRITER. *)
Variable PGSTAT_MTYPE_BGWRITER : Z.

(** [None] is a failed pgstat_assert_is_up(). *)
Definition pgstat_send_bgwriter (s : PgStatState) : option PgStatState :=
  let n := length (m_counters (PendingBgWriterStats s)) in
  if pgstat_is_up s then
    (* memcmp(&PendingBgWriterStats, &all_zeroes, sizeof(PgStat_MsgBgWriter)) == 0 *)
    if bool_decide (PendingBgWriterStats s = all_zeroes n) then Some s
    else
      (* Prepare and send the message *)
      let msg := pgstat_setheader PGSTAT_MTYPE_BGWRITER (PendingBgWriterStats s) in
      (* Clear out the statistics buffer, so it can be re-used. *)
      Some {| PendingBgWriterStats := all_zeroes n;
              pgstat_sent := pgstat_sent s ++ [msg];
              pgstat_is_up := pgstat_is_up s |}
  else None.

End PgStat.

(* ===================================================================== *)
(** ** Sample environments, tags and states *)
(* ===================================================================== *)

(** A quiet environment: nothing arrives through the queue, completions
    are only delivered by the final wait, every I/O and unlink succeeds. *)
Definition quiet_env : Env :=
  {| absorb_feed := λ _, [];
     drain_at := λ _, [];
     io_result := λ _, (true, 0);
     clock := λ n, Z.of_nat n;
     run_unlinkfiletag := λ _ _ _, (0, 0);
     run_filetagmatches := λ _ p c, bool_decide (rnode p = rnode c);
     FILE_POSSIBLY_DELETED := λ e, e =? 2;
     ENOENT := 2;
     enableFsync := true;
     log_checkpoints := false;
     data_sync_retry := false |}.

(** An environment in which every flush fails with the possibly-deleted
    errno 2, and the second absorb (the first one of the retry phase, when
    a pass starts with one request) brings a SYNC_FILTER_REQUEST for the
    relation of [ftag]. *)
Definition file_gone_env (ftag : FileTag) : Env :=
  {| absorb_feed := λ n, if (n =? 1)%nat then [(ftag, SYNC_FILTER_REQUEST)] else [];
     drain_at := λ _, [];
     io_result := λ _, (false, 2);
     clock := λ n, Z.of_nat n;
     run_unlinkfiletag := λ _ _ _, (0, 0);
     run_filetagmatches := λ _ p c, bool_decide (rnode p = rnode c);
     FILE_POSSIBLY_DELETED := λ e, e =? 2;
     ENOENT := 2;
     enableFsync := true;
     log_checkpoints := false;
     data_sync_retry := false |}.

(** An environment in which every unlink fails: the first with ENOENT
    (errno 2), the later ones with EACCES (errno 13). *)
Definition failing_unlink_env : Env :=
  {| absorb_feed := λ _, [];
     drain_at := λ _, [];
     io_result := λ _, (true, 0);
     clock := λ n, Z.of_nat n;
     run_unlinkfiletag := λ _ n _, if (n =? 0)%nat then (-1, 2) else (-1, 13);
     run_filetagmatches := λ _ p c, bool_decide (rnode p = rnode c);
     FILE_POSSIBLY_DELETED := λ e, e =? 2;
     ENOENT := 2;
     enableFsync := true;
     log_checkpoints := false;
     data_sync_retry := false |}.

Definition T1 : FileTag :=
  {| handler := SYNC_HANDLER_MD; forknum := 0; rnode := (1663, 5, 16384); segno := 0 |}.

Definition T2 : FileTag :=
  {| handler := SYNC_HANDLER_MD; forknum := 0; rnode := (1663, 5, 16385); segno := 0 |}.

(** The state right after InitSync in the checkpointer. *)
Definition ready_state : State := set_pendingOps (Some ∅) initial_state.

(** A state with one pending fsync request for [T1]. *)
Definition one_request_state : State :=
  set_pendingOps (Some {[ T1 := {| cycle_ctr := 0; canceled := false |} ]}) initial_state.

Definition T3 : FileTag :=
  {| handler := SYNC_HANDLER_CLOG; forknum := 0; rnode := (0, 0, 0); segno := 7 |}.

(** A state with pending fsync requests for [T1], [T2] and [T3] and
    pending unlinks of [T1] and [T2]. *)
Definition busy_state : State :=
  set_pendingUnlinks
    [ {| u_tag := T1; u_cycle_ctr := 0 |}; {| u_tag := T2; u_cycle_ctr := 0 |} ]
    (set_pendingOps
       (Some (<[ T1 := {| cycle_ctr := 0; canceled := false |} ]>
                (<[ T2 := {| cycle_ctr := 0; canceled := false |} ]>
                   {[ T3 := {| cycle_ctr := 0; canceled := false |} ]})))
       initial_state).

(** [busy_state] after the SyncPreCheckpoint of the next checkpoint: both
    pending unlinks are old. *)
Definition unlink_state : State := set_checkpoint_cycle_ctr 1 busy_state.

(** A state left behind by a pass that did not complete: the in-progress
    flag is set and the entry for [T1] is two cycles old. *)
Definition stale_state : State :=
  set_sync_state_global
    (set_sync_in_progress true (sync_state_global initial_state))
    (set_sync_cycle_ctr 5
       (set_pendingOps (Some {[ T1 := {| cycle_ctr := 3; canceled := false |} ]})
          initial_state)).


(** A state in the retry phase of a pass: the flush for [T1] failed once
    and waits on the retry queue; one absorb has been made so far. *)
Definition retry_state : State :=
  set_ticks {| t_absorb := 1; t_sync := 1; t_done := 1; t_clock := 1; t_unlink := 0 |}
    (set_retrySyncs [set_retry_count 1 (new_inflight_entry T1)]
       (set_sync_state_global
          (set_sync_in_progress true (sync_state_global initial_state))
          (set_sync_cycle_ctr 1 one_request_state))).

(** A state in the middle of a pass: the request for [T1] is in flight. *)
Definition inflight_state : State :=
  set_inflightSyncs [new_inflight_entry T1]
    (set_sync_state_global
       (set_sync_in_progress true (sync_state_global initial_state))
       (set_sync_cycle_ctr 1 one_request_state)).

(* ===================================================================== *)
(** ** Predicates used in the statements *)
(* ===================================================================== *)

(** The entry a new fsync request gets: stamped with the current
    sync_cycle_ctr, not canceled. *)
Definition fresh_entry (st : State) : PendingFsyncEntry :=
  {| cycle_ctr := sync_cycle_ctr st; canceled := false |}.

(** The pending-ops table, empty while it does not exist. *)
Definition table_of (st : State) : gmap FileTag PendingFsyncEntry :=
  default ∅ (pendingOps st).

(** The handler sync calls recorded in a trace, in order. *)
Definition sync_events (tr : list Event) : list (SyncFn * InflightSyncEntry) :=
  omap (λ ev, match ev with EvSync f e => Some (f, e) | _ => None end) tr.

(** The handler unlink calls recorded in a trace, in order. *)
Definition unlink_events (tr : list Event) : list FileTag :=
  omap (λ ev, match ev with EvUnlink _ t => Some t | _ => None end) tr.

(** The messages recorded in a trace, in order. *)
Definition log_events (tr : list Event) : list (ErrLevel * string * option FileTag) :=
  omap (λ ev, match ev with EvLog l m t => Some (l, m, t) | _ => None end) tr.

(** The number of AbsorbSyncRequests calls recorded in a trace. *)
Definition absorb_events (tr : list Event) : nat :=
  length (omap (λ ev, match ev with EvAbsorb => Some tt | _ => None end) tr).

(** Hoare triples with a postcondition for a normal return and one for
    an exception. *)
Definition triple {A} (P : State → Prop) (m : M A)
    (Q : A → State → Prop) (E : Exn → State → Prop) : Prop :=
  ∀ st, P st →
    match m st with
    | (Ret a, st') => Q a st'
    | (Throw e, st') => E e st'
    end.

(** Every entry of the table carries the current sync cycle or the one
    before it. *)
Definition cycles_ok (st : State) : Prop :=
  ∀ k e, table_of st !! k = Some e →
    cycle_ctr e = sync_cycle_ctr st ∨ CycleCtr_cast (cycle_ctr e + 1) = sync_cycle_ctr st.

(** Every entry of the table carries the current sync cycle. *)
Definition all_current (st : State) : Prop :=
  ∀ k e, table_of st !! k = Some e → cycle_ctr e = sync_cycle_ctr st.

(** Every request in flight or waiting for a retry has failed at most
    once. *)
Definition retry_counts_ok (st : State) : Prop :=
  ∀ e, e ∈ inflightSyncs st ++ retrySyncs st → 0 ≤ retry_count e ≤ 1.

(** During a pass: every entry of an older cycle is still to be visited
    (its key is in [todo]) or owned by a request in flight or waiting for
    a retry. *)
Definition covered (todo : list FileTag) (st : State) : Prop :=
  ∀ k e, table_of st !! k = Some e → cycle_ctr e ≠ sync_cycle_ctr st →
    k ∈ todo ∨ k ∈ hash_entry <$> inflightSyncs st ∨ k ∈ hash_entry <$> retrySyncs st.

(** Outside a pass the table holds current entries only and both queues
    are empty. *)
Definition quiescent (st : State) : Prop :=
  sync_in_progress (sync_state_global st) = false →
  all_current st ∧ inflightSyncs st = [] ∧ retrySyncs st = [].

(** The invariant of the coordinator's state. *)
Definition sync_inv (st : State) : Prop :=
  cycles_ok st ∧ retry_counts_ok st ∧ quiescent st.

(** What absorbing requests can do to a state: the queues, counters and
    statistics stay (the absorb countdown apart); table entries are never removed, and an entry is new
    to the current cycle or keeps its cycle; no handler is called. *)
Record absorbed (st st' : State) : Prop := {
  absorbed_table_kept : is_Some (pendingOps st) → is_Some (pendingOps st');
  absorbed_inflight : inflightSyncs st' = inflightSyncs st;
  absorbed_retry : retrySyncs st' = retrySyncs st;
  absorbed_sync_cycle : sync_cycle_ctr st' = sync_cycle_ctr st;
  absorbed_checkpoint_cycle : checkpoint_cycle_ctr st' = checkpoint_cycle_ctr st;
  absorbed_in_progress :
    sync_in_progress (sync_state_global st') = sync_in_progress (sync_state_global st);
  absorbed_pgsw : pgsw (sync_state_global st') = pgsw (sync_state_global st);
  absorbed_processed : processed (sync_state_global st') = processed (sync_state_global st);
  absorbed_longest : longest (sync_state_global st') = longest (sync_state_global st);
  absorbed_total_elapsed :
    total_elapsed (sync_state_global st') = total_elapsed (sync_state_global st);
  absorbed_stats : CheckpointStats st' = CheckpointStats st;
  absorbed_entries : ∀ k e', table_of st' !! k = Some e' →
      cycle_ctr e' = sync_cycle_ctr st
      ∨ ∃ e, table_of st !! k = Some e ∧ cycle_ctr e' = cycle_ctr e;
  absorbed_dom : ∀ k, is_Some (table_of st !! k) → is_Some (table_of st' !! k);
  absorbed_unlinks : ∃ kept news,
      pendingUnlinks st' = kept ++ news ∧ sublist kept (pendingUnlinks st)
      ∧ Forall (λ e, u_cycle_ctr e = checkpoint_cycle_ctr st) news;
  absorbed_syncs : sync_events (trace st') = sync_events (trace st);
  absorbed_unlink_events : unlink_events (trace st') = unlink_events (trace st);
  absorbed_logs : log_events (trace st') = log_events (trace st);
  absorbed_t_sync : t_sync (ticks st') = t_sync (ticks st);
  absorbed_t_done : t_done (ticks st') = t_done (ticks st);
  absorbed_t_clock : t_clock (ticks st') = t_clock (ticks st);
  absorbed_t_unlink : t_unlink (ticks st') = t_unlink (ticks st)
}.

(** No pattern cancel arrives through the request queue. *)
Definition no_filter_requests (env : Env) : Prop :=
  ∀ n r, r ∈ absorb_feed env n → r.2 ≠ SYNC_FILTER_REQUEST.

(** What any step of a pass can do to a state: the counters, the
    in-progress flag and the exported statistics stay, the table stays in
    existence, an entry is new to the current cycle or keeps its cycle,
    and no unlink is called. *)
Record progressed (st st' : State) : Prop := {
  progressed_table_kept : is_Some (pendingOps st) → is_Some (pendingOps st');
  progressed_sync_cycle : sync_cycle_ctr st' = sync_cycle_ctr st;
  progressed_checkpoint_cycle : checkpoint_cycle_ctr st' = checkpoint_cycle_ctr st;
  progressed_in_progress :
    sync_in_progress (sync_state_global st') = sync_in_progress (sync_state_global st);
  progressed_stats : CheckpointStats st' = CheckpointStats st;
  progressed_entries : ∀ k e', table_of st' !! k = Some e' →
      cycle_ctr e' = sync_cycle_ctr st
      ∨ ∃ e, table_of st !! k = Some e ∧ cycle_ctr e' = cycle_ctr e;
  progressed_unlink_events : unlink_events (trace st') = unlink_events (trace st)
}.

(** What delivering completions can do to a state: table entries are
    only removed, requests leave the in-flight queue for good or for the
    retry queue, no handler is called and nothing is absorbed. *)
Record completed (st st' : State) : Prop := {
  completed_table_kept : is_Some (pendingOps st) → is_Some (pendingOps st');
  completed_sync_cycle : sync_cycle_ctr st' = sync_cycle_ctr st;
  completed_checkpoint_cycle : checkpoint_cycle_ctr st' = checkpoint_cycle_ctr st;
  completed_in_progress :
    sync_in_progress (sync_state_global st') = sync_in_progress (sync_state_global st);
  completed_absorb_counter :
    absorb_counter (sync_state_global st') = absorb_counter (sync_state_global st);
  completed_stats : CheckpointStats st' = CheckpointStats st;
  completed_unlinks : pendingUnlinks st' = pendingUnlinks st;
  completed_entries : ∀ k e', table_of st' !! k = Some e' → table_of st !! k = Some e';
  completed_fuel : (retry_fuel st' ≤ retry_fuel st)%nat;
  completed_syncs : sync_events (trace st') = sync_events (trace st);
  completed_unlink_events : unlink_events (trace st') = unlink_events (trace st);
  completed_absorbs : absorb_events (trace st') = absorb_events (trace st);
  completed_t_absorb : t_absorb (ticks st') = t_absorb (ticks st);
  completed_t_sync : t_sync (ticks st') = t_sync (ticks st)
}.

(** Exceptions that are not a failed assertion and not an artefact of a
    loop bound of the model: ereport at ERROR or PANIC, or a NULL or stale
    pointer. *)
Definition benign (e : Exn) : Prop :=
  match e with
  | Ereport _ _ | NullDeref _ => True
  | AssertFailure _ | OutOfFuel => False
  end.

(** The statistics fields after a successful completion that took
    [elapsed] microseconds. *)
Definition count_completion (elapsed : Z) (s : SyncState) : SyncState :=
  set_processed (int_cast (processed s + 1))
    (set_total_elapsed (uint64_cast (total_elapsed s + elapsed))
       (if longest s <? elapsed then set_longest elapsed s else s)).

(** A step that neither consults the environment nor is observed. *)
Definition silent (st st' : State) : Prop :=
  trace st' = trace st ∧ ticks st' = ticks st.

(** A computation that, whatever the state, raises only exceptions in
    [P]. *)
Definition throws_only (P : Exn → Prop) {A} (m : M A) : Prop :=
  ∀ st e, (m st).1 = Throw e → P e.

(** The two facts about the queues that a pass maintains. *)
Definition queues_ok (todo : list FileTag) (st : State) : Prop :=
  retry_counts_ok st ∧ covered todo st.

(** What holds when a step of a pass is left by an exception. *)
Definition queues_exn (e : Exn) (st : State) : Prop :=
  benign e ∧ retry_counts_ok st.

(** The in-flight entry call_syncfiletag makes of [ie]: stamped with the
    current time. *)
Definition stamped (env : Env) (ie : InflightSyncEntry) (st : State) : InflightSyncEntry :=
  set_start_time (clock env (t_clock (ticks st))) ie.

(** The state in which the handler's sync function is entered by
    call_syncfiletag: the entry is stamped and in flight, the call is on
    the trace. *)
Definition submitted (env : Env) (ie : InflightSyncEntry) (st : State) : State :=
  set_trace
    (trace st ++ [EvSync (sync_syncfiletag (syncsw (handler (tag ie)))) (stamped env ie st)])
    (set_ticks (bump_sync (bump_clock (ticks st)))
       (set_inflightSyncs (inflightSyncs st ++ [stamped env ie st]) st)).

(** What holds of the rest of the state all through a pass: the table
    exists, its entries are of the current cycle or the one before, and
    the in-progress flag is set. *)
Definition pass_frame (st : State) : Prop :=
  is_Some (pendingOps st) ∧ cycles_ok st
  ∧ sync_in_progress (sync_state_global st) = true.

Definition pass_inv (todo : list FileTag) (st : State) : Prop :=
  pass_frame st ∧ queues_ok todo st.

Definition pass_exn (e : Exn) (st : State) : Prop :=
  benign e ∧ pass_frame st ∧ retry_counts_ok st.

(** The state ProcessSyncRequests enters its main loop from: statistics
    reset, streaming writer allocated, sync_cycle_ctr advanced, in-progress
    flag set. *)
Definition begin_pass (st : State) : State :=
  let s := sync_state_global st in
  set_sync_state_global
    {| sync_in_progress := true;
       absorb_counter := absorb_counter s;
       pgsw := match pgsw s with None => Some 128 | Some w => Some w end;
       processed := 0; longest := 0; total_elapsed := 0 |}
    (set_sync_cycle_ctr (CycleCtr_cast (sync_cycle_ctr st + 1)) st).

(** The state ProcessSyncRequests returns: streaming writer freed,
    statistics exported, in-progress flag cleared. *)
Definition end_pass (st : State) : State :=
  let s := sync_state_global st in
  set_sync_state_global
    {| sync_in_progress := false;
       absorb_counter := absorb_counter s;
       pgsw := None;
       processed := processed s; longest := longest s; total_elapsed := total_elapsed s |}
    (set_CheckpointStats
       {| ckpt_sync_rels := processed s;
          ckpt_longest_sync := longest s;
          ckpt_agg_sync_time := total_elapsed s |} st).

(** ProcessSyncRequests up to the two emptiness checks. *)
Definition ProcessSyncRequests_until_checks (env : Env) : M unit :=
  ProcessSyncRequests_start env;;
  ProcessSyncRequests_scan env;;
  pg_streaming_write_wait_all env;;
  ProcessSyncRequests_retries env.

(** The handler of tag [t] supplies an unlink function. *)
Definition has_unlink (t : FileTag) : Prop :=
  is_Some (sync_unlinkfiletag (syncsw (handler t))).

(** The warning, if any, that SyncPostCheckpoint logs for the [n]-th
    unlink call when it is made for entry [e]: none when the call
    succeeds or fails with ENOENT. *)
Definition unlink_warning (env : Env) (n : nat) (e : PendingUnlinkEntry)
  : list (ErrLevel * string * option FileTag) :=
  let r := run_unlinkfiletag env mdunlinkfiletag n (u_tag e) in
  if (r.1 <? 0) && negb (r.2 =? ENOENT env)
  then [(WARNING, "could not remove file %s: %m"%string, Some (u_tag e))]
  else [].

(** The warnings logged when the entries of [l] are unlinked in order,
    starting with unlink call number [n]. *)
Fixpoint unlink_warnings (env : Env) (n : nat) (l : list PendingUnlinkEntry)
  : list (ErrLevel * string * option FileTag) :=
  match l with
  | [] => []
  | e :: l' => unlink_warning env n e ++ unlink_warnings env (S n) l'
  end.

(** The state after the unlink call for the head of the pending-unlinks
    list: the call is on the trace, a warning is logged unless the call
    succeeded or failed with ENOENT, and the head is gone. *)
Definition unlinked_head (env : Env) (f : UnlinkFn) (entry : PendingUnlinkEntry)
    (st : State) : State :=
  let r := run_unlinkfiletag env f (t_unlink (ticks st)) (u_tag entry) in
  let called :=
    set_trace (trace st ++ [EvUnlink f (u_tag entry)])
      (set_ticks (bump_unlink (ticks st)) st) in
  let warned :=
    if (r.1 <? 0) && negb (r.2 =? ENOENT env)
    then set_trace
           (trace called ++
              [EvLog WARNING "could not remove file %s: %m" (Some (u_tag entry))])
           called
    else called in
  set_pendingUnlinks (tail (pendingUnlinks st)) warned.

(** What post-checkpoint work can do to a state: as for absorbing
    requests, but unlink calls are made, warnings logged and entries taken
    off the pending-unlinks list. *)
Record housekept (st st' : State) : Prop := {
  housekept_table_kept : is_Some (pendingOps st) → is_Some (pendingOps st');
  housekept_inflight : inflightSyncs st' = inflightSyncs st;
  housekept_retry : retrySyncs st' = retrySyncs st;
  housekept_sync_cycle : sync_cycle_ctr st' = sync_cycle_ctr st;
  housekept_checkpoint_cycle : checkpoint_cycle_ctr st' = checkpoint_cycle_ctr st;
  housekept_in_progress :
    sync_in_progress (sync_state_global st') = sync_in_progress (sync_state_global st);
  housekept_stats : CheckpointStats st' = CheckpointStats st;
  housekept_entries : ∀ k e', table_of st' !! k = Some e' →
      cycle_ctr e' = sync_cycle_ctr st
      ∨ ∃ e, table_of st !! k = Some e ∧ cycle_ctr e' = cycle_ctr e;
  housekept_unlinks : ∃ kept news,
      pendingUnlinks st' = kept ++ news ∧ sublist kept (pendingUnlinks st)
      ∧ Forall (λ e, u_cycle_ctr e = checkpoint_cycle_ctr st) news;
  housekept_syncs : sync_events (trace st') = sync_events (trace st);
  housekept_trace : ∃ tr, trace st' = trace st ++ tr
}.

(** The condition under which a pattern cancel for [ftag] hits the tag
    [candidate], for a handler whose match predicate is [f]. *)
Definition pattern_hits (env : Env) (f : MatchFn) (ftag candidate : FileTag) : bool :=
  bool_decide (handler candidate = handler ftag) && run_filetagmatches env f ftag candidate.

(** What a pattern cancel does to the entry stored under [key]. *)
Definition cancel_if_hit (env : Env) (f : MatchFn) (ftag key : FileTag)
    (e : PendingFsyncEntry) : PendingFsyncEntry :=
  if pattern_hits env f ftag key then set_canceled true e else e.

(** The entry points of sync.c the checkpointer goes through once the
    table exists. *)
Inductive Call :=
| CallRememberSyncRequest (ftag : FileTag) (type : SyncRequestType)
| CallSyncPreCheckpoint
| CallProcessSyncRequests
| CallSyncPostCheckpoint.

Definition run_call (env : Env) (c : Call) : M unit :=
  match c with
  | CallRememberSyncRequest ftag type => RememberSyncRequest env ftag type
  | CallSyncPreCheckpoint => SyncPreCheckpoint
  | CallProcessSyncRequests => ProcessSyncRequests env
  | CallSyncPostCheckpoint => SyncPostCheckpoint env
  end.

(** The states a process can be in: it starts from the static
    initializers, runs InitSync, and then makes calls, each in an
    environment of its own, going on after a call that raised an error. *)
Inductive reachable : State → Prop :=
| reachable_init (owner : bool) : reachable (InitSync owner initial_state).2
| reachable_step (env : Env) (c : Call) (st : State) :
    reachable st → reachable (run_call env c st).2.


(** [p] is the sync call for a new in-flight entry of [key]. *)
Definition submission_of (key : FileTag) (p : SyncFn * InflightSyncEntry) : Prop :=
  ∃ t, p = (sync_syncfiletag (syncsw (handler key)),
            set_start_time t (new_inflight_entry key)).


(** The owner of the request of sync call [p] is in the table of [st]
    and not canceled. *)
Definition owner_not_canceled (st : State) (p : SyncFn * InflightSyncEntry) : Prop :=
  ∃ pe, table_of st !! hash_entry p.2 = Some pe ∧ canceled pe = false.

(** The trace only grows. *)
Definition extends (st st' : State) : Prop := ∃ tr, trace st' = trace st ++ tr.

(* ===================================================================== *)
(** ** RegisterSyncRequest (sync.c) *)
(* ===================================================================== *)

(** A process that registers sync requests: the file-level variables of
    sync.c as that process has them, the requests it has handed to
    ForwardSyncRequest so far, and the arguments of its pg_usleep calls. *)
Record Backend := {
  local : State;
  forwarded : list (FileTag * SyncRequestType);
  slept : list Z
}.

Definition set_local (v : State) (b : Backend) : Backend :=
  {| local := v; forwarded := forwarded b; slept := slept b |}.

Definition add_forwarded (r : FileTag * SyncRequestType) (b : Backend) : Backend :=
  {| local := local b; forwarded := forwarded b ++ [r]; slept := slept b |}.

Definition add_slept (usec : Z) (b : Backend) : Backend :=
  {| local := local b; forwarded := forwarded b; slept := slept b ++ [usec] |}.

Section Register.

Variable env : Env.

(** ForwardSyncRequest is defined in checkpointer.c: [ForwardSyncRequest n
    ftag type] is what the process's n-th call returns, true when the
    request was put on the checkpointer's queue. *)
Variable ForwardSyncRequest : nat → FileTag → SyncRequestType → bool.

(** The for (;;) loop of RegisterSyncRequest.  [fuel] bounds the number of
    sleeps. *)
Fixpoint RegisterSyncRequest_loop (fuel : nat) (ftag : FileTag) (type : SyncRequestType)
    (retryOnError : bool) (b : Backend) : Outcome bool * Backend :=
  (* Notify the checkpointer about it. *)
  let ret := ForwardSyncRequest (length (forwarded b)) ftag type in
  let b1 := add_forwarded (ftag, type) b in
  (* If we are successful in queueing the request, or we failed and were
     instructed not to retry on error, break. *)
  if ret || (negb ret && negb retryOnError) then (Ret ret, b1)
  else
    match fuel with
    | O => (Throw OutOfFuel, b1)
    | S fuel' =>
        RegisterSyncRequest_loop fuel' ftag type retryOnError (add_slept 10000 b1)
    end.

Definition RegisterSyncRequest (fuel : nat) (ftag : FileTag) (type : SyncRequestType)
    (retryOnError : bool) (b : Backend) : Outcome bool * Backend :=
  match pendingOps (local b) with
  | Some _ =>
      (* standalone backend or startup process: fsync state is local *)
      match RememberSyncRequest env ftag type (local b) with
      | (Ret _, st') => (Ret true, set_local st' b)
      | (Throw e, st') => (Throw e, set_local st' b)
      end
  | None => RegisterSyncRequest_loop fuel ftag type retryOnError b
  end.

End Register.

(** The number of failed attempts before ForwardSyncRequest first
    succeeds, looking at calls number [n], [n+1], ... and at most [fuel]
    of them; [None] if none of those succeeds. *)
Fixpoint first_success (fwd : nat → bool) (n fuel : nat) : option nat :=
  if fwd n then Some O
  else match fuel with
       | O => None
       | S fuel' => S <$> first_success fwd (S n) fuel'
       end.

(** A process other than the checkpointer, under the postmaster, right
    after InitSync: it has no pending-ops table. *)
Definition backend_start : Backend :=
  {| local := initial_state; forwarded := []; slept := [] |}.

(** A standalone backend right after InitSync. *)
Definition standalone_start : Backend :=
  {| local := ready_state; forwarded := []; slept := [] |}.

(** A step of a pass that submits nothing and receives no completion:
    both queues, the sync calls on the trace and the pass statistics are
    as before. *)
Definition sync_idle (st st' : State) : Prop :=
  inflightSyncs st' = inflightSyncs st ∧ retrySyncs st' = retrySyncs st
  ∧ sync_events (trace st') = sync_events (trace st)
  ∧ processed (sync_state_global st') = processed (sync_state_global st)
  ∧ longest (sync_state_global st') = longest (sync_state_global st)
  ∧ total_elapsed (sync_state_global st') = total_elapsed (sync_state_global st).

(* ===================================================================== *)
(** ** The other global statistics of pgstat_global.c *)
(* ===================================================================== *)

(** typedef int64 PgStat_Counter.  A counter is kept as an integer in
    [-2^63, 2^63); [PgStat_Counter_cast] is the two's complement
    wrap-around of the arithmetic on it. *)
Definition PgStat_Counter_cast (x : Z) : Z :=
  (x + 9223372036854775808) mod 18446744073709551616 - 9223372036854775808.

(** A checkpointer message, like a bgwriter message, is a header followed
    by counters. *)
Record PgStat_MsgCheckpointer := {
  ckpt_hdr : PgStat_MsgHdr;
  ckpt_counters : list Z
}.

(** The fields of PgStat_MsgSLRU the file names. *)
Record PgStat_MsgSLRU := {
  slru_hdr : PgStat_MsgHdr;
  m_index : Z;
  m_blocks_zeroed : Z;
  m_blocks_hit : Z;
  m_blocks_read : Z;
  m_blocks_written : Z;
  m_blocks_exists : Z;
  m_flush : Z;
  m_truncate : Z
}.

(** The fields of PgStat_MsgWal the file names; [m_wal_other] stands for
    the fields it only zeroes and sends. *)
Record PgStat_MsgWal := {
  wal_hdr : PgStat_MsgHdr;
  m_wal_records : Z;
  m_wal_fpi : Z;
  m_wal_bytes : Z;
  m_wal_buffers_full : Z;
  m_wal_write : Z;
  m_wal_sync : Z;
  m_wal_other : list Z
}.

(** The fields of WalUsage (instrument.h) the file names. *)
Record WalUsage := {
  wal_records : Z;
  wal_fpi : Z;
  wal_bytes : Z
}.

(** Shared_Reset_Target, as far as pgstat_reset_shared_counters uses it. *)
Inductive Shared_Reset_Target := RESET_ARCHIVER | RESET_BGWRITER | RESET_WAL.

(** What is handed to pgstat_send by the functions modelled here.  The
    two reset messages are built in a local variable: of their header only
    the type is set, and it is what [mtype] holds. *)
Inductive StatsMsg :=
| MsgCheckpointer (m : PgStat_MsgCheckpointer)
| MsgSLRU (m : PgStat_MsgSLRU)
| MsgWal (m : PgStat_MsgWal)
| MsgResetsharedcounter (mtype : Z) (m_resettarget : Shared_Reset_Target)
| MsgResetslrucounter (mtype : Z) (index : Z).

#[global] Instance PgStat_MsgCheckpointer_eq_dec : EqDecision PgStat_MsgCheckpointer.
Proof. solve_decision. Defined.

#[global] Instance PgStat_MsgSLRU_eq_dec : EqDecision PgStat_MsgSLRU.
Proof. solve_decision. Defined.

#[global] Instance PgStat_MsgWal_eq_dec : EqDecision PgStat_MsgWal.
Proof. solve_decision. Defined.

#[global] Instance WalUsage_eq_dec : EqDecision WalUsage.
Proof. solve_decision. Defined.

#[global] Instance Shared_Reset_Target_eq_dec : EqDecision Shared_Reset_Target.
Proof. solve_decision. Defined.

#[global] Instance StatsMsg_eq_dec : EqDecision StatsMsg.
Proof. solve_decision. Defined.

(** The variables of pgstat_global.c other than PendingBgWriterStats, and
    what the file reads of its surroundings:
    - [pgStatSock_valid] is pgStatSock != PGINVALID_SOCKET;
    - [stats_up] is the condition pgstat_assert_is_up() asserts;
    - [slru_counting_allowed] is IsUnderPostmaster || !IsPostmasterEnvironment;
    - [pgWalUsage] is the WAL usage counter of the process (instrument.c);
    - [sendTime] is the static variable of pgstat_send_wal;
    - [timestamps_read] counts the GetCurrentTimestamp() calls made;
    - [stats_sent] are the messages handed to pgstat_send, in order. *)
Record StatsState := {
  pgStatSock_valid : bool;
  stats_up : bool;
  slru_counting_allowed : bool;
  PendingCheckpointerStats : PgStat_MsgCheckpointer;
  SLRUStats : list PgStat_MsgSLRU;
  WalStats : PgStat_MsgWal;
  prevWalUsage : WalUsage;
  pgWalUsage : WalUsage;
  sendTime : Z;
  timestamps_read : nat;
  stats_sent : list StatsMsg
}.

Definition set_PendingCheckpointerStats (v : PgStat_MsgCheckpointer) (s : StatsState)
  : StatsState :=
  {| pgStatSock_valid := pgStatSock_valid s; stats_up := stats_up s;
     slru_counting_allowed := slru_counting_allowed s;
     PendingCheckpointerStats := v; SLRUStats := SLRUStats s; WalStats := WalStats s;
     prevWalUsage := prevWalUsage s; pgWalUsage := pgWalUsage s; sendTime := sendTime s;
     timestamps_read := timestamps_read s; stats_sent := stats_sent s |}.

Definition set_SLRUStats (v : list PgStat_MsgSLRU) (s : StatsState) : StatsState :=
  {| pgStatSock_valid := pgStatSock_valid s; stats_up := stats_up s;
     slru_counting_allowed := slru_counting_allowed s;
     PendingCheckpointerStats := PendingCheckpointerStats s; SLRUStats := v;
     WalStats := WalStats s;
     prevWalUsage := prevWalUsage s; pgWalUsage := pgWalUsage s; sendTime := sendTime s;
     timestamps_read := timestamps_read s; stats_sent := stats_sent s |}.

Definition set_WalStats (v : PgStat_MsgWal) (s : StatsState) : StatsState :=
  {| pgStatSock_valid := pgStatSock_valid s; stats_up := stats_up s;
     slru_counting_allowed := slru_counting_allowed s;
     PendingCheckpointerStats := PendingCheckpointerStats s; SLRUStats := SLRUStats s;
     WalStats := v;
     prevWalUsage := prevWalUsage s; pgWalUsage := pgWalUsage s; sendTime := sendTime s;
     timestamps_read := timestamps_read s; stats_sent := stats_sent s |}.

Definition set_prevWalUsage (v : WalUsage) (s : StatsState) : StatsState :=
  {| pgStatSock_valid := pgStatSock_valid s; stats_up := stats_up s;
     slru_counting_allowed := slru_counting_allowed s;
     PendingCheckpointerStats := PendingCheckpointerStats s; SLRUStats := SLRUStats s;
     WalStats := WalStats s;
     prevWalUsage := v; pgWalUsage := pgWalUsage s; sendTime := sendTime s;
     timestamps_read := timestamps_read s; stats_sent := stats_sent s |}.

Definition set_sendTime (v : Z) (s : StatsState) : StatsState :=
  {| pgStatSock_valid := pgStatSock_valid s; stats_up := stats_up s;
     slru_counting_allowed := slru_counting_allowed s;
     PendingCheckpointerStats := PendingCheckpointerStats s; SLRUStats := SLRUStats s;
     WalStats := WalStats s;
     prevWalUsage := prevWalUsage s; pgWalUsage := pgWalUsage s; sendTime := v;
     timestamps_read := timestamps_read s; stats_sent := stats_sent s |}.

Definition bump_timestamps_read (s : StatsState) : StatsState :=
  {| pgStatSock_valid := pgStatSock_valid s; stats_up := stats_up s;
     slru_counting_allowed := slru_counting_allowed s;
     PendingCheckpointerStats := PendingCheckpointerStats s; SLRUStats := SLRUStats s;
     WalStats := WalStats s;
     prevWalUsage := prevWalUsage s; pgWalUsage := pgWalUsage s; sendTime := sendTime s;
     timestamps_read := S (timestamps_read s); stats_sent := stats_sent s |}.

(** pgstat_send(&msg, len): the message is handed to the transport. *)
Definition pgstat_send (msg : StatsMsg) (s : StatsState) : StatsState :=
  {| pgStatSock_valid := pgStatSock_valid s; stats_up := stats_up s;
     slru_counting_allowed := slru_counting_allowed s;
     PendingCheckpointerStats := PendingCheckpointerStats s; SLRUStats := SLRUStats s;
     WalStats := WalStats s;
     prevWalUsage := prevWalUsage s; pgWalUsage := pgWalUsage s; sendTime := sendTime s;
     timestamps_read := timestamps_read s; stats_sent := stats_sent s ++ [msg] |}.

(** pgstat_setheader(&hdr, mtype), on a header. *)
Definition setheader (mtype : Z) (hdr : PgStat_MsgHdr) : PgStat_MsgHdr :=
  {| m_type := mtype; m_size := m_size hdr |}.

Definition zero_hdr : PgStat_MsgHdr := {| m_type := 0; m_size := 0 |}.

(** A zeroed PgStat_MsgCheckpointer with [n] counters. *)
Definition checkpointer_all_zeroes (n : nat) : PgStat_MsgCheckpointer :=
  {| ckpt_hdr := zero_hdr; ckpt_counters := replicate n 0 |}.

(** A zeroed PgStat_MsgSLRU. *)
Definition slru_all_zeroes : PgStat_MsgSLRU :=
  {| slru_hdr := zero_hdr; m_index := 0;
     m_blocks_zeroed := 0; m_blocks_hit := 0; m_blocks_read := 0; m_blocks_written := 0;
     m_blocks_exists := 0; m_flush := 0; m_truncate := 0 |}.

(** A zeroed PgStat_MsgWal whose unnamed part has [n] fields. *)
Definition wal_all_zeroes (n : nat) : PgStat_MsgWal :=
  {| wal_hdr := zero_hdr; m_wal_records := 0; m_wal_fpi := 0; m_wal_bytes := 0;
     m_wal_buffers_full := 0; m_wal_write := 0; m_wal_sync := 0;
     m_wal_other := replicate n 0 |}.

Definition zero_WalUsage : WalUsage := {| wal_records := 0; wal_fpi := 0; wal_bytes := 0 |}.

Definition set_slru_hdr (v : PgStat_MsgHdr) (e : PgStat_MsgSLRU) : PgStat_MsgSLRU :=
  {| slru_hdr := v; m_index := m_index e;
     m_blocks_zeroed := m_blocks_zeroed e; m_blocks_hit := m_blocks_hit e;
     m_blocks_read := m_blocks_read e; m_blocks_written := m_blocks_written e;
     m_blocks_exists := m_blocks_exists e; m_flush := m_flush e;
     m_truncate := m_truncate e |}.

Definition set_m_index (v : Z) (e : PgStat_MsgSLRU) : PgStat_MsgSLRU :=
  {| slru_hdr := slru_hdr e; m_index := v;
     m_blocks_zeroed := m_blocks_zeroed e; m_blocks_hit := m_blocks_hit e;
     m_blocks_read := m_blocks_read e; m_blocks_written := m_blocks_written e;
     m_blocks_exists := m_blocks_exists e; m_flush := m_flush e;
     m_truncate := m_truncate e |}.

Definition set_m_blocks_zeroed (v : Z) (e : PgStat_MsgSLRU) : PgStat_MsgSLRU :=
  {| slru_hdr := slru_hdr e; m_index := m_index e;
     m_blocks_zeroed := v; m_blocks_hit := m_blocks_hit e;
     m_blocks_read := m_blocks_read e; m_blocks_written := m_blocks_written e;
     m_blocks_exists := m_blocks_exists e; m_flush := m_flush e;
     m_truncate := m_truncate e |}.

Definition set_m_blocks_hit (v : Z) (e : PgStat_MsgSLRU) : PgStat_MsgSLRU :=
  {| slru_hdr := slru_hdr e; m_index := m_index e;
     m_blocks_zeroed := m_blocks_zeroed e; m_blocks_hit := v;
     m_blocks_read := m_blocks_read e; m_blocks_written := m_blocks_written e;
     m_blocks_exists := m_blocks_exists e; m_flush := m_flush e;
     m_truncate := m_truncate e |}.

Definition set_m_blocks_read (v : Z) (e : PgStat_MsgSLRU) : PgStat_MsgSLRU :=
  {| slru_hdr := slru_hdr e; m_index := m_index e;
     m_blocks_zeroed := m_blocks_zeroed e; m_blocks_hit := m_blocks_hit e;
     m_blocks_read := v; m_blocks_written := m_blocks_written e;
     m_blocks_exists := m_blocks_exists e; m_flush := m_flush e;
     m_truncate := m_truncate e |}.

Definition set_m_blocks_written (v : Z) (e : PgStat_MsgSLRU) : PgStat_MsgSLRU :=
  {| slru_hdr := slru_hdr e; m_index := m_index e;
     m_blocks_zeroed := m_blocks_zeroed e; m_blocks_hit := m_blocks_hit e;
     m_blocks_read := m_blocks_read e; m_blocks_written := v;
     m_blocks_exists := m_blocks_exists e; m_flush := m_flush e;
     m_truncate := m_truncate e |}.

Definition set_m_blocks_exists (v : Z) (e : PgStat_MsgSLRU) : PgStat_MsgSLRU :=
  {| slru_hdr := slru_hdr e; m_index := m_index e;
     m_blocks_zeroed := m_blocks_zeroed e; m_blocks_hit := m_blocks_hit e;
     m_blocks_read := m_blocks_read e; m_blocks_written := m_blocks_written e;
     m_blocks_exists := v; m_flush := m_flush e;
     m_truncate := m_truncate e |}.

Definition set_m_flush (v : Z) (e : PgStat_MsgSLRU) : PgStat_MsgSLRU :=
  {| slru_hdr := slru_hdr e; m_index := m_index e;
     m_blocks_zeroed := m_blocks_zeroed e; m_blocks_hit := m_blocks_hit e;
     m_blocks_read := m_blocks_read e; m_blocks_written := m_blocks_written e;
     m_blocks_exists := m_blocks_exists e; m_flush := v;
     m_truncate := m_truncate e |}.

Definition set_m_truncate (v : Z) (e : PgStat_MsgSLRU) : PgStat_MsgSLRU :=
  {| slru_hdr := slru_hdr e; m_index := m_index e;
     m_blocks_zeroed := m_blocks_zeroed e; m_blocks_hit := m_blocks_hit e;
     m_blocks_read := m_blocks_read e; m_blocks_written := m_blocks_written e;
     m_blocks_exists := m_blocks_exists e; m_flush := m_flush e;
     m_truncate := v |}.

Section Stats.

(** The message type constants (pgstat.h). *)
Variable PGSTAT_MTYPE_CHECKPOINTER : Z.
Variable PGSTAT_MTYPE_SLRU : Z.
Variable PGSTAT_MTYPE_WAL : Z.
Variable PGSTAT_MTYPE_RESETSHAREDCOUNTER : Z.
Variable PGSTAT_MTYPE_RESETSLRUCOUNTER : Z.

(** slru_names[], declared with the message structures; SLRUStats is
    one-to-one with it.  Its last entry is the one for SLRUs defined
    elsewhere. *)
Variable slru_names : list string.

Definition SLRU_NUM_ELEMENTS : nat := length slru_names.

(** *** pgstat_reset_shared_counters *)

Definition pgstat_reset_shared_counters (target : string) (s : StatsState)
  : Outcome unit * StatsState :=
  if negb (pgStatSock_valid s) then (Ret tt, s)
  else
    let send (t : Shared_Reset_Target) :=
      (Ret tt,
       pgstat_send
         (MsgResetsharedcounter PGSTAT_MTYPE_RESETSHAREDCOUNTER t) s) in
    if String.eqb target "archiver" then send RESET_ARCHIVER
    else if String.eqb target "bgwriter" then send RESET_BGWRITER
    else if String.eqb target "wal" then send RESET_WAL
    else (Throw (Ereport ERROR "unrecognized reset target: %s"), s).

(** *** pgstat_send_checkpointer *)

Definition pgstat_send_checkpointer (s : StatsState) : StatsState :=
  let n := length (ckpt_counters (PendingCheckpointerStats s)) in
  (* memcmp(&PendingCheckpointerStats, &all_zeroes, sizeof(PgStat_MsgCheckpointer)) == 0 *)
  if bool_decide (PendingCheckpointerStats s = checkpointer_all_zeroes n) then s
  else
    (* Prepare and send the message *)
    let msg :=
      {| ckpt_hdr := setheader PGSTAT_MTYPE_CHECKPOINTER (ckpt_hdr (PendingCheckpointerStats s));
         ckpt_counters := ckpt_counters (PendingCheckpointerStats s) |} in
    (* Clear out the statistics buffer, so it can be re-used. *)
    set_PendingCheckpointerStats (checkpointer_all_zeroes n)
      (pgstat_send (MsgCheckpointer msg) s).

(** *** pgstat_send_slru *)

(** The body of the for loop, for index [i]. *)
Definition pgstat_send_slru_entry (s : StatsState) (i : nat) : StatsState :=
  match SLRUStats s !! i with
  | None => s     (* the array has SLRU_NUM_ELEMENTS entries *)
  | Some e =>
      if bool_decide (e = slru_all_zeroes) then s
      else
        (* set the SLRU type before each send *)
        let e1 := set_m_index (Z.of_nat i) e in
        (* Prepare and send the message *)
        let e2 := set_slru_hdr (setheader PGSTAT_MTYPE_SLRU (slru_hdr e1)) e1 in
        (* Clear out the statistics buffer, so it can be re-used. *)
        set_SLRUStats (<[i := slru_all_zeroes]> (SLRUStats s)) (pgstat_send (MsgSLRU e2) s)
  end.

Definition pgstat_send_slru (s : StatsState) : StatsState :=
  foldl pgstat_send_slru_entry s (seq 0 SLRU_NUM_ELEMENTS).

(** *** SLRU names and indexes *)

Definition pgstat_slru_index (name : string) : Z :=
  match list_find (λ n, n = name) slru_names with
  | Some (i, _) => Z.of_nat i
  | None =>
      (* return index of the last entry (which is the "other" one) *)
      Z.of_nat SLRU_NUM_ELEMENTS - 1
  end.

(** [None] is NULL. *)
Definition pgstat_slru_name (slru_idx : Z) : option string :=
  if (slru_idx <? 0) || (Z.of_nat SLRU_NUM_ELEMENTS <=? slru_idx) then None
  else slru_names !! Z.to_nat slru_idx.

(** *** pgstat_reset_slru_counter; [name = None] is a NULL name *)

Definition pgstat_reset_slru_counter (name : option string) (s : StatsState) : StatsState :=
  if negb (pgStatSock_valid s) then s
  else
    let index := match name with Some n => pgstat_slru_index n | None => -1 end in
    pgstat_send (MsgResetslrucounter PGSTAT_MTYPE_RESETSLRUCOUNTER index) s.

(** *** SLRU statistics count accumulation *)

(** slru_entry returns a pointer into SLRUStats; here it returns the
    entry, which the caller stores back at the same index. *)
Definition slru_entry (slru_idx : Z) (s : StatsState) : Outcome PgStat_MsgSLRU :=
  if negb (stats_up s) then Throw (AssertFailure "pgstat_is_up")
  else if negb (slru_counting_allowed s)
  then Throw (AssertFailure "IsUnderPostmaster || !IsPostmasterEnvironment")
  else if negb ((0 <=? slru_idx) && (slru_idx <? Z.of_nat SLRU_NUM_ELEMENTS))
  then Throw (AssertFailure "(slru_idx >= 0) && (slru_idx < SLRU_NUM_ELEMENTS)")
  else match SLRUStats s !! Z.to_nat slru_idx with
       | Some e => Ret e
       | None => Throw (NullDeref "SLRUStats")
       end.

(** slru_entry(slru_idx)->field += 1, with [upd] the update of the field. *)
Definition slru_count (upd : PgStat_MsgSLRU → PgStat_MsgSLRU) (slru_idx : Z) (s : StatsState)
  : Outcome unit * StatsState :=
  match slru_entry slru_idx s with
  | Ret e => (Ret tt, set_SLRUStats (<[Z.to_nat slru_idx := upd e]> (SLRUStats s)) s)
  | Throw x => (Throw x, s)
  end.

Definition pgstat_count_slru_page_zeroed : Z → StatsState → Outcome unit * StatsState :=
  slru_count (λ e, set_m_blocks_zeroed (PgStat_Counter_cast (m_blocks_zeroed e + 1)) e).

Definition pgstat_count_slru_page_hit : Z → StatsState → Outcome unit * StatsState :=
  slru_count (λ e, set_m_blocks_hit (PgStat_Counter_cast (m_blocks_hit e + 1)) e).

Definition pgstat_count_slru_page_exists : Z → StatsState → Outcome unit * StatsState :=
  slru_count (λ e, set_m_blocks_exists (PgStat_Counter_cast (m_blocks_exists e + 1)) e).

Definition pgstat_count_slru_page_read : Z → StatsState → Outcome unit * StatsState :=
  slru_count (λ e, set_m_blocks_read (PgStat_Counter_cast (m_blocks_read e + 1)) e).

Definition pgstat_count_slru_page_written : Z → StatsState → Outcome unit * StatsState :=
  slru_count (λ e, set_m_blocks_written (PgStat_Counter_cast (m_blocks_written e + 1)) e).

Definition pgstat_count_slru_flush : Z → StatsState → Outcome unit * StatsState :=
  slru_count (λ e, set_m_flush (PgStat_Counter_cast (m_flush e + 1)) e).

Definition pgstat_count_slru_truncate : Z → StatsState → Outcome unit * StatsState :=
  slru_count (λ e, set_m_truncate (PgStat_Counter_cast (m_truncate e + 1)) e).

(** *** WAL statistics *)

(** GetCurrentTimestamp (timestamp.c): the value the n-th call returns. *)
Variable GetCurrentTimestamp : nat → Z.

(** TimestampDifferenceExceeds(start, stop, msec) (timestamp.c). *)
Variable TimestampDifferenceExceeds : Z → Z → Z → bool.

Variable PGSTAT_STAT_INTERVAL : Z.

(** WalUsageAccumDiff(dst, add, sub) (instrument.c): the new value of
    [*dst]. *)
Variable WalUsageAccumDiff : WalUsage → WalUsage → WalUsage → WalUsage.

Definition pgstat_wal_initialize (s : StatsState) : StatsState :=
  set_prevWalUsage (pgWalUsage s) s.

(** The state from "Set the counters related to generated WAL data" on. *)
Definition pgstat_send_wal_message (s : StatsState) : StatsState :=
  let s1 :=
    if negb (wal_records (pgWalUsage s) =? wal_records (prevWalUsage s)) then
      (* Calculate how much WAL usage counters were increased *)
      let walusage := WalUsageAccumDiff zero_WalUsage (pgWalUsage s) (prevWalUsage s) in
      let w := WalStats s in
      (* Save the current counters for the subsequent calculation *)
      set_prevWalUsage (pgWalUsage s)
        (set_WalStats
           {| wal_hdr := wal_hdr w;
              m_wal_records := wal_records walusage;
              m_wal_fpi := wal_fpi walusage;
              m_wal_bytes := wal_bytes walusage;
              m_wal_buffers_full := m_wal_buffers_full w;
              m_wal_write := m_wal_write w;
              m_wal_sync := m_wal_sync w;
              m_wal_other := m_wal_other w |} s)
    else s in
  (* Prepare and send the message *)
  let w := WalStats s1 in
  let msg :=
    {| wal_hdr := setheader PGSTAT_MTYPE_WAL (wal_hdr w);
       m_wal_records := m_wal_records w; m_wal_fpi := m_wal_fpi w;
       m_wal_bytes := m_wal_bytes w; m_wal_buffers_full := m_wal_buffers_full w;
       m_wal_write := m_wal_write w; m_wal_sync := m_wal_sync w;
       m_wal_other := m_wal_other w |} in
  (* Clear out the statistics buffer, so it can be re-used. *)
  set_WalStats (wal_all_zeroes (length (m_wal_other w))) (pgstat_send (MsgWal msg) s1).

Definition pgstat_send_wal (force : bool) (s : StatsState) : Outcome unit * StatsState :=
  if (wal_records (pgWalUsage s) =? wal_records (prevWalUsage s))
     && (m_wal_write (WalStats s) =? 0) && (m_wal_sync (WalStats s) =? 0)
  then
    if m_wal_buffers_full (WalStats s) =? 0 then (Ret tt, s)
    else (Throw (AssertFailure "WalStats.m_wal_buffers_full == 0"), s)
  else if force then (Ret tt, pgstat_send_wal_message s)
  else
    let now := GetCurrentTimestamp (timestamps_read s) in
    let s1 := bump_timestamps_read s in
    (* Don't send a message unless it's been at least PGSTAT_STAT_INTERVAL
       msec since we last sent one *)
    if negb (TimestampDifferenceExceeds (sendTime s1) now PGSTAT_STAT_INTERVAL)
    then (Ret tt, s1)
    else (Ret tt, pgstat_send_wal_message (set_sendTime now s1)).

End Stats.

(** The seven counters of an SLRU entry. *)
Inductive slru_counter :=
| blocks_zeroed | blocks_hit | blocks_exists | blocks_read | blocks_written
| flush | truncate.

#[global] Instance slru_counter_eq_dec : EqDecision slru_counter.
Proof. solve_decision. Defined.

Definition counter_value (c : slru_counter) (e : PgStat_MsgSLRU) : Z :=
  match c with
  | blocks_zeroed => m_blocks_zeroed e
  | blocks_hit => m_blocks_hit e
  | blocks_exists => m_blocks_exists e
  | blocks_read => m_blocks_read e
  | blocks_written => m_blocks_written e
  | flush => m_flush e
  | truncate => m_truncate e
  end.

(** The accumulation function of slru.c's calls for counter [c]. *)
Definition pgstat_count_slru (slru_names : list string) (c : slru_counter)
  : Z → StatsState → Outcome unit * StatsState :=
  match c with
  | blocks_zeroed => pgstat_count_slru_page_zeroed slru_names
  | blocks_hit => pgstat_count_slru_page_hit slru_names
  | blocks_exists => pgstat_count_slru_page_exists slru_names
  | blocks_read => pgstat_count_slru_page_read slru_names
  | blocks_written => pgstat_count_slru_page_written slru_names
  | flush => pgstat_count_slru_flush slru_names
  | truncate => pgstat_count_slru_truncate slru_names
  end.

(** The message pgstat_send_slru sends for entry [e] at index [i]. *)
Definition slru_message (mtype : Z) (i : nat) (e : PgStat_MsgSLRU) : StatsMsg :=
  MsgSLRU (set_slru_hdr (setheader mtype (slru_hdr e)) (set_m_index (Z.of_nat i) e)).

(** The messages for the entries that are not all zeroes among [l], whose
    first entry has index [i]. *)
Fixpoint slru_messages (mtype : Z) (i : nat) (l : list PgStat_MsgSLRU) : list StatsMsg :=
  match l with
  | [] => []
  | e :: l' =>
      (if bool_decide (e = slru_all_zeroes) then [] else [slru_message mtype i e])
      ++ slru_messages mtype (S i) l'
  end.

(** The names of the built-in SLRUs, for examples. *)
Definition sample_slru_names : list string :=
  ["CommitTs"; "MultiXactMember"; "MultiXactOffset"; "Notify"; "Serial"; "Subtrans";
   "Xact"; "other"]%string.

(** A process whose statistics variables are as the static initializers
    leave them, with the statistics system up and [n] SLRU entries. *)
Definition stats_start (n : nat) : StatsState :=
  {| pgStatSock_valid := true; stats_up := true; slru_counting_allowed := true;
     PendingCheckpointerStats := checkpointer_all_zeroes 6;
     SLRUStats := replicate n slru_all_zeroes;
     WalStats := wal_all_zeroes 2;
     prevWalUsage := zero_WalUsage; pgWalUsage := zero_WalUsage;
     sendTime := 0; timestamps_read := 0; stats_sent := [] |}.

(* ===================================================================== *)
(** ** Predicates for a pass in which every flush succeeds *)
(* ===================================================================== *)

(** The entry of [k] in [tbl] is there and not canceled. *)
Definition is_live (tbl : gmap FileTag PendingFsyncEntry) (k : FileTag) : bool :=
  match tbl !! k with
  | Some e => negb (canceled e)
  | None => false
  end.

(** The keys of the entries of [tbl] that are not canceled, in the order
    in which a scan of the table visits them. *)
Definition live_keys (tbl : gmap FileTag PendingFsyncEntry) : list FileTag :=
  filter (λ k, is_live tbl k = true) (map_to_list tbl).*1.

(** Two states that agree on what a flush depends on: the table, the two
    queues, sync_cycle_ctr, the sync calls made and the count of
    processed requests. *)
Definition flush_same (st st' : State) : Prop :=
  pendingOps st' = pendingOps st
  ∧ inflightSyncs st' = inflightSyncs st ∧ retrySyncs st' = retrySyncs st
  ∧ sync_cycle_ctr st' = sync_cycle_ctr st
  ∧ sync_events (trace st') = sync_events (trace st)
  ∧ processed (sync_state_global st') = processed (sync_state_global st).

(** The state of a pass over the table [tbl] (whose entries carried cycle
    [c0]) that started after the sync calls [S0] and with the count of
    processed requests at [p0], when the keys [todo]
    are still to be visited by the main loop: the entries of [todo] are
    as in [tbl], every other entry of the table is owned by exactly one
    request in flight, which is for a live key of [tbl], nothing waits
    for a retry, one sync call has been
    made for each live key visited, and each of these requests is in
    flight or has been counted in processed, which went up by one, in int
    arithmetic, for each. *)
Definition flush_inv (tbl : gmap FileTag PendingFsyncEntry) (c0 p0 : Z)
    (S0 : list (SyncFn * InflightSyncEntry)) (todo : list FileTag) (st : State) : Prop :=
  ∃ t dn subs,
    pendingOps st = Some t ∧ retrySyncs st = []
    ∧ NoDup (hash_entry <$> inflightSyncs st)
    ∧ (∀ k, k ∈ hash_entry <$> inflightSyncs st → is_Some (t !! k))
    ∧ (∀ k, is_Some (t !! k) → k ∈ todo ∨ k ∈ hash_entry <$> inflightSyncs st)
    ∧ (∀ k, k ∈ todo → t !! k = tbl !! k ∧ k ∉ hash_entry <$> inflightSyncs st)
    ∧ sync_cycle_ctr st = CycleCtr_cast (c0 + 1)
    ∧ (map_to_list tbl).*1 = dn ++ todo
    ∧ sync_events (trace st) = S0 ++ subs
    ∧ Forall2 submission_of (filter (λ k, is_live tbl k = true) dn) subs
    ∧ (length (inflightSyncs st) ≤ length subs)%nat
    ∧ processed (sync_state_global st)
      = Nat.iter (length subs - length (inflightSyncs st)) (λ p, int_cast (p + 1)) p0
    ∧ (∀ k, k ∈ hash_entry <$> inflightSyncs st → is_live tbl k = true).

(* ===================================================================== *)
(** ** Entries the main loop leaves alone, and further samples *)
(* ===================================================================== *)

(** The entry of [k] is in the table under the current sync_cycle_ctr and
    no request in flight or waiting for a retry points to it. *)
Definition unowned_current (k : FileTag) (st : State) : Prop :=
  (∃ e, table_of st !! k = Some e ∧ cycle_ctr e = sync_cycle_ctr st)
  ∧ (k ∉ hash_entry <$> inflightSyncs st)
  ∧ (k ∉ hash_entry <$> retrySyncs st).

(** A step that leaves such an entry of [k] in place. *)
Definition keeps_current (k : FileTag) (st st' : State) : Prop :=
  unowned_current k st → unowned_current k st'.

(** An environment in which the first AbsorbSyncRequests finds a pattern
    cancel for [ftag] in the queue, and nothing else ever arrives. *)
Definition cancel_env (ftag : FileTag) : Env :=
  {| absorb_feed := λ n, if (n =? 0)%nat then [(ftag, SYNC_FILTER_REQUEST)] else [];
     drain_at := λ _, [];
     io_result := λ _, (true, 0);
     clock := λ n, Z.of_nat n;
     run_unlinkfiletag := λ _ _ _, (0, 0);
     run_filetagmatches := λ _ p c, bool_decide (rnode p = rnode c);
     FILE_POSSIBLY_DELETED := λ e, e =? 2;
     ENOENT := 2;
     enableFsync := true;
     log_checkpoints := false;
     data_sync_retry := false |}.


(** After the next SyncPreCheckpoint, with an unlink of [T1] queued as the
    eleventh entry under cycle 0 as well: all eleven entries are old. *)
Definition crowded_state : State :=
  set_checkpoint_cycle_ctr 1
    (set_pendingUnlinks
       (replicate 10 {| u_tag := T2; u_cycle_ctr := 0 |}
          ++ [ {| u_tag := T1; u_cycle_ctr := 0 |} ])
       ready_state).


(* ===================================================================== *)
(** ** Running the monad *)
(* ===================================================================== *)

Create HintDb monad.

#[global] Hint Unfold hash_search_FIND hash_search_REMOVE store_entry deref_entry
  the_pendingOps INSTR_TIME_SET_CURRENT when Assert modify_sync_state emit elog ereport tick
  bind ret throw gets modify : monad.

Ltac munfold := repeat autounfold with monad in *.

Ltac mrun :=
  munfold;
  repeat first
    [ progress simpl
    | match goal with
      | H : pendingOps _ = _ |- _ => rewrite H
      | H : (_ !! _) = _ |- _ => rewrite H
      | H : canceled _ = _ |- _ => rewrite H
      end ].

Lemma set_pendingOps_same st tbl :
  pendingOps st = Some tbl → set_pendingOps (Some tbl) st = st.
Proof. destruct st; simpl; intros ->; reflexivity. Qed.

Lemma set_pendingOps_twice a b st :
  set_pendingOps a (set_pendingOps b st) = set_pendingOps a st.
Proof. reflexivity. Qed.

Lemma table_of_Some st tbl : pendingOps st = Some tbl → table_of st = tbl.
Proof. unfold table_of. by intros ->. Qed.

Lemma bind_Ret {A B} (m : M A) (k : A → M B) st a st' :
  m st = (Ret a, st') → bind m k st = k a st'.
Proof. unfold bind. by intros ->. Qed.

Lemma bind_Throw {A B} (m : M A) (k : A → M B) st e st' :
  m st = (Throw e, st') → bind m k st = (Throw e, st').
Proof. unfold bind. by intros ->. Qed.

Lemma bind_assoc {A B C} (m : M A) (k : A → M B) (h : B → M C) st :
  bind (bind m k) h st = bind m (λ a, bind (k a) h) st.
Proof. unfold bind. by destruct (m st) as [[a|e] st']. Qed.

(** *** Rules for triples *)

Lemma triple_ret {A} (a : A) (Q : A → State → Prop) E :
  triple (Q a) (ret a) Q E.
Proof. by intros st H. Qed.

Lemma triple_throw {A} e (Q : A → State → Prop) (E : Exn → State → Prop) :
  triple (E e) (throw e) Q E.
Proof. by intros st H. Qed.

Lemma triple_gets {A} (f : State → A) (P : State → Prop) E :
  triple P (gets f) (λ a st, P st ∧ a = f st) E.
Proof. by intros st H. Qed.

Lemma triple_modify (f : State → State) (Q : unit → State → Prop) E :
  triple (λ st, Q tt (f st)) (modify f) Q E.
Proof. by intros st H. Qed.

Lemma triple_bind {A B} (m : M A) (k : A → M B) P Q R E :
  triple P m Q E → (∀ a, triple (Q a) (k a) R E) → triple P (bind m k) R E.
Proof.
  intros Hm Hk st HP. specialize (Hm st HP). unfold bind.
  destruct (m st) as [[a|e] st']; [by apply Hk | done].
Qed.

Lemma triple_conseq {A} (m : M A) (P P' : State → Prop) (Q Q' : A → State → Prop)
    (E E' : Exn → State → Prop) :
  triple P' m Q' E' →
  (∀ st, P st → P' st) → (∀ a st, Q' a st → Q a st) → (∀ e st, E' e st → E e st) →
  triple P m Q E.
Proof.
  intros Hm HP HQ HE st H. specialize (Hm st (HP st H)).
  destruct (m st) as [[a|e] st']; auto.
Qed.

Lemma triple_pre {A} (m : M A) (P P' : State → Prop) Q E :
  triple P' m Q E → (∀ st, P st → P' st) → triple P m Q E.
Proof. intros Hm HP. eapply triple_conseq; eauto. Qed.

Lemma triple_when (c : bool) (m : M unit) P (Q : unit → State → Prop) E :
  (c = true → triple P m Q E) → (c = false → ∀ st, P st → Q tt st) →
  triple P (when c m) Q E.
Proof. destruct c; simpl; intros H1 H2; [by apply H1 | intros st H; by apply H2]. Qed.

(** A loop over a list with an invariant indexed by what is left. *)
Lemma triple_forM {A} (body : A → M unit) (I : list A → State → Prop) E l :
  (∀ x rest, triple (I (x :: rest)) (body x) (λ _, I rest) E) →
  triple (I l) (forM_ l body) (λ _, I []) E.
Proof.
  intros Hbody. induction l as [|x l IH]; simpl.
  - by intros st H.
  - eapply triple_bind; [apply Hbody | intros ?; apply IH].
Qed.

(** A loop over a list with a plain invariant, kept also when the loop
    is left by an exception. *)
Lemma triple_forM_inv {A} (body : A → M unit) (I : State → Prop) l :
  (∀ x, x ∈ l → triple I (body x) (λ _, I) (λ _, I)) →
  triple I (forM_ l body) (λ _, I) (λ _, I).
Proof.
  induction l as [|x l IH]; simpl; intros Hbody.
  - by intros st H.
  - eapply triple_bind; [apply Hbody; left | intros ?; apply IH].
    intros y Hy. apply Hbody. by right.
Qed.

(** *** Events *)

Lemma sync_events_app tr1 tr2 :
  sync_events (tr1 ++ tr2) = sync_events tr1 ++ sync_events tr2.
Proof. apply omap_app. Qed.

Lemma unlink_events_app tr1 tr2 :
  unlink_events (tr1 ++ tr2) = unlink_events tr1 ++ unlink_events tr2.
Proof. apply omap_app. Qed.

Lemma log_events_app tr1 tr2 :
  log_events (tr1 ++ tr2) = log_events tr1 ++ log_events tr2.
Proof. apply omap_app. Qed.

Lemma absorb_events_app tr1 tr2 :
  absorb_events (tr1 ++ tr2) = (absorb_events tr1 + absorb_events tr2)%nat.
Proof. unfold absorb_events. by rewrite omap_app, length_app. Qed.

(* ===================================================================== *)
(** ** Relations kept by every step *)
(* ===================================================================== *)

Section Steps.

Context (R : relation State) `{!PreOrder R}.

Lemma steps_bind {A B} (m : M A) (k : A → M B) st :
  R st (m st).2 →
  (∀ a st', m st = (Ret a, st') → R st' (k a st').2) →
  R st (bind m k st).2.
Proof.
  intros Hm Hk. unfold bind. destruct (m st) as [[a|e] st'] eqn:Hrun; simpl in *.
  - etrans; [exact Hm | by apply Hk].
  - done.
Qed.

Lemma steps_forM {A} (body : A → M unit) l :
  (∀ x st, x ∈ l → R st (body x st).2) → ∀ st, R st (forM_ l body st).2.
Proof.
  induction l as [|x l IH]; simpl; intros Hbody st; [done|].
  apply steps_bind; [apply Hbody; left|].
  intros _ st' _. apply IH. intros y st'' Hy. apply Hbody. by right.
Qed.

Lemma steps_when (c : bool) (m : M unit) st :
  (c = true → R st (m st).2) → R st (when c m st).2.
Proof. destruct c; simpl; intros H; [by apply H | done]. Qed.

Lemma steps_hash_seq_scan body :
  (∀ key entry st, table_of st !! key = Some entry → is_Some (pendingOps st) →
     R st (body key entry st).2) →
  ∀ st, R st (hash_seq_scan body st).2.
Proof.
  intros Hbody st. unfold hash_seq_scan, the_pendingOps.
  apply steps_bind.
  { unfold bind, gets. simpl. destruct (pendingOps st); done. }
  intros tbl st' _. apply steps_forM. intros key st1 _.
  apply steps_bind.
  { unfold bind, gets. simpl. destruct (pendingOps st1); done. }
  intros tbl1 st2 Hrun. unfold bind, gets in Hrun. simpl in Hrun.
  destruct (pendingOps st1) as [t|] eqn:Hp; unfold ret, throw in Hrun; simplify_eq/=.
  destruct (tbl1 !! key) as [entry|] eqn:He; [|done].
  apply Hbody; [by unfold table_of; rewrite Hp | by rewrite Hp].
Qed.

End Steps.

(* ===================================================================== *)
(** ** RememberSyncRequest and AbsorbSyncRequests *)
(* ===================================================================== *)

#[global] Instance absorbed_preorder : PreOrder absorbed.
Proof.
  split.
  - intros st. split; try done.
    + intros k e' He. right. by exists e'.
    + exists (pendingUnlinks st), []. by rewrite app_nil_r.
  - intros st1 st2 st3 H12 H23. destruct H12, H23. split; try congruence; try by auto.
    + intros k e3 He3.
      destruct (absorbed_entries1 k e3 He3) as [Hc | (e2 & He2 & Heq)]; [left; congruence|].
      destruct (absorbed_entries0 k e2 He2) as [Hc | (e1 & He1 & Heq1)]; [left; congruence|].
      right. exists e1. split; [done | congruence].
    + destruct absorbed_unlinks0 as (kept1 & news1 & E1 & S1 & F1).
      destruct absorbed_unlinks1 as (kept2 & news2 & E2 & S2 & F2).
      rewrite E1 in S2. apply sublist_app_r in S2 as (ka & kb & -> & Sa & Sb).
      exists ka, (kb ++ news2). split; [by rewrite E2, <-(assoc_L (++))|].
      split; [by etrans|].
      apply Forall_app. split.
      * rewrite Forall_forall in F1 |- *. intros x Hx. rewrite absorbed_checkpoint_cycle0 in *.
        eapply F1, elem_of_sublist; done.
      * eapply Forall_impl; [exact F2|]. simpl. intros; congruence.
  
Qed.

Lemma absorbed_set_pendingOps st tbl tbl' :
  pendingOps st = Some tbl →
  (∀ k e', tbl' !! k = Some e' →
     cycle_ctr e' = sync_cycle_ctr st ∨ ∃ e, tbl !! k = Some e ∧ cycle_ctr e' = cycle_ctr e) →
  (∀ k, is_Some (tbl !! k) → is_Some (tbl' !! k)) →
  absorbed st (set_pendingOps (Some tbl') st).
Proof.
  intros Htbl Hent Hdom. split; simpl; try done.
  - by unfold table_of; simpl; rewrite Htbl.
  - by unfold table_of; simpl; rewrite Htbl.
  - exists (pendingUnlinks st), []. by rewrite app_nil_r.
Qed.

Lemma absorbed_set_pendingUnlinks st kept news :
  sublist kept (pendingUnlinks st) →
  Forall (λ e, u_cycle_ctr e = checkpoint_cycle_ctr st) news →
  absorbed st (set_pendingUnlinks (kept ++ news) st).
Proof.
  intros Hs Hn. split; simpl; try done.
  - intros k e' He. right. by exists e'.
  - by exists kept, news.
Qed.

Lemma RememberSyncRequest_no_table env ftag type st :
  pendingOps st = None →
  RememberSyncRequest env ftag type st = (Throw (AssertFailure "pendingOps"), st).
Proof. intros H. unfold RememberSyncRequest. by mrun. Qed.

Lemma RememberSyncRequest_forget_run env st tbl ftag :
  pendingOps st = Some tbl →
  RememberSyncRequest env ftag SYNC_FORGET_REQUEST st
  = (Ret tt, set_pendingOps (Some (alter (set_canceled true) ftag tbl)) st).
Proof.
  intros Htbl. unfold RememberSyncRequest.
  destruct (tbl !! ftag) as [e|] eqn:He; mrun.
  - do 3 f_equal. apply map_eq. intros k. rewrite lookup_insert, lookup_alter.
    case_decide; subst; rewrite ?He; done.
  - rewrite alter_id' by done. by rewrite set_pendingOps_same.
Qed.

Lemma RememberSyncRequest_fsync_run env st tbl ftag :
  pendingOps st = Some tbl →
  RememberSyncRequest env ftag SYNC_REQUEST st
  = (Ret tt,
     match tbl !! ftag with
     | Some e =>
         if canceled e then set_pendingOps (Some (<[ftag := fresh_entry st]> tbl)) st else st
     | None => set_pendingOps (Some (<[ftag := fresh_entry st]> tbl)) st
     end).
Proof.
  intros Htbl. unfold RememberSyncRequest.
  destruct (tbl !! ftag) as [e|] eqn:He; mrun; [destruct (canceled e) eqn:Hc|]; mrun; done.
Qed.

Lemma RememberSyncRequest_unlink_run env st ftag :
  is_Some (pendingOps st) →
  RememberSyncRequest env ftag SYNC_UNLINK_REQUEST st
  = (Ret tt,
     set_pendingUnlinks
       (pendingUnlinks st ++ [{| u_tag := ftag; u_cycle_ctr := checkpoint_cycle_ctr st |}]) st).
Proof. intros [tbl Htbl]. unfold RememberSyncRequest. by mrun. Qed.

(** Running the match predicate changes nothing. *)
Lemma filter_matches_state env ftag cand st : (filter_matches env ftag cand st).2 = st.
Proof.
  unfold filter_matches, call_filetagmatches.
  case_decide; [|done]. by destruct (sync_filetagmatches _).
Qed.

Lemma forget_matching_unlinks_spec env ftag l st :
  (forget_matching_unlinks env ftag l st).2 = st
  ∧ ∀ l', (forget_matching_unlinks env ftag l st).1 = Ret l' → sublist l' l.
Proof.
  induction l as [|x l [IH1 IH2]]; simpl.
  - split; [done|]. intros l' [= <-]. constructor.
  - pose proof (filter_matches_state env ftag (u_tag x) st) as Hst.
    destruct (filter_matches env ftag (u_tag x) st) as [[b|e] st1] eqn:Hf;
      simpl in Hst; subst st1.
    2: { rewrite (bind_Throw _ _ _ _ _ Hf). by split. }
    rewrite (bind_Ret _ _ _ _ _ Hf).
    destruct (forget_matching_unlinks env ftag l st) as [[l1|e] st2] eqn:Hl;
      simpl in IH1; subst st2.
    2: { rewrite (bind_Throw _ _ _ _ _ Hl). by split. }
    rewrite (bind_Ret _ _ _ _ _ Hl). simpl. split; [done|]. intros l' [= <-].
    specialize (IH2 _ eq_refl). destruct b; by constructor.
Qed.

Lemma RememberSyncRequest_absorbed env ftag type st :
  absorbed st (RememberSyncRequest env ftag type st).2.
Proof.
  destruct (pendingOps st) as [tbl|] eqn:Htbl;
    [|by rewrite RememberSyncRequest_no_table].
  destruct type.
  - rewrite (RememberSyncRequest_fsync_run _ _ _ _ Htbl). simpl.
    assert (absorbed st (set_pendingOps (Some (<[ftag := fresh_entry st]> tbl)) st)) as Hins.
    { apply (absorbed_set_pendingOps _ tbl); [done | |].
      - intros k e'. rewrite lookup_insert. case_decide; [intros [= <-]; by left|].
        intros He. right. by exists e'.
      - intros k Hk. rewrite lookup_insert. case_decide; [by eexists | done]. }
    destruct (tbl !! ftag) as [e|]; [destruct (canceled e)|]; done.
  - rewrite RememberSyncRequest_unlink_run by by rewrite Htbl. simpl.
    apply absorbed_set_pendingUnlinks; [done|]. by repeat constructor.
  - rewrite (RememberSyncRequest_forget_run _ _ _ _ Htbl). simpl.
    apply (absorbed_set_pendingOps _ tbl); [done | |].
    + intros k e'. rewrite lookup_alter. case_decide; subst.
      * destruct (tbl !! k) as [e|]; [|done]. intros [= <-]. right. by exists e.
      * intros He. right. by exists e'.
    + intros k Hk. rewrite lookup_alter. case_decide; subst; [|done].
      by apply fmap_is_Some.
  - unfold RememberSyncRequest. apply steps_bind; [apply _|done|].
    intros po st1 [= <- <-]. apply steps_bind; [apply _| |].
    { unfold Assert. by case_bool_decide. }
    intros _ st2 _. apply steps_bind; [apply _| |].
    { apply steps_hash_seq_scan; [apply _|]. intros key entry st3 He [t Ht].
      apply steps_bind; [apply _|by rewrite filter_matches_state|].
      intros b st4 Hb. pose proof (filter_matches_state env ftag key st3) as Hst.
      rewrite Hb in Hst. simpl in Hst. subst st4.
      apply steps_when; [apply _|]. intros _. mrun.
      unfold table_of in He. rewrite Ht in He. simpl in He.
      apply (absorbed_set_pendingOps _ t); [done| |].
      - intros k e'. rewrite lookup_insert. case_decide; subst.
        + intros [= <-]. right. by exists entry.
        + intros He'. right. by exists e'.
      - intros k Hk. rewrite lookup_insert. case_decide; [by eexists | done]. }
    intros _ st3 _. apply steps_bind; [apply _|done|].
    intros l st4 [= <- <-]. apply steps_bind; [apply _| |].
    { by rewrite (proj1 (forget_matching_unlinks_spec env ftag _ st3)). }
    intros l' st5 Hl'. pose proof (forget_matching_unlinks_spec env ftag (pendingUnlinks st3) st3) as [H1 H2].
    rewrite Hl' in H1, H2. simpl in *. subst st5. specialize (H2 _ eq_refl).
    unfold modify. simpl. rewrite <-(app_nil_r l').
    by apply absorbed_set_pendingUnlinks.
Qed.

Lemma AbsorbSyncRequests_absorbed env st :
  absorbed (set_trace (trace st ++ [EvAbsorb]) (set_ticks (bump_absorb (ticks st)) st))
           (AbsorbSyncRequests env st).2.
Proof.
  unfold AbsorbSyncRequests. mrun.
  apply (steps_forM absorbed). intros r st' _. apply RememberSyncRequest_absorbed.
Qed.

(* ===================================================================== *)
(** ** Consequences of the step relations *)
(* ===================================================================== *)

#[global] Instance progressed_preorder : PreOrder progressed.
Proof.
  split.
  - intros st. split; try done. intros k e' He. right. by exists e'.
  - intros st1 st2 st3 H12 H23. destruct H12, H23. split; try congruence; try by auto.
    intros k e3 He3.
    destruct (progressed_entries1 k e3 He3) as [Hc | (e2 & He2 & Heq)]; [left; congruence|].
    destruct (progressed_entries0 k e2 He2) as [Hc | (e1 & He1 & Heq1)]; [left; congruence|].
    right. exists e1. split; [done | congruence].
Qed.

#[global] Instance completed_preorder : PreOrder completed.
Proof.
  split.
  - intros st. split; (done || lia).
  - intros st1 st2 st3 H12 H23. destruct H12, H23. split; try congruence; try by auto.
    lia.
Qed.

Lemma absorbed_progressed st st' : absorbed st st' → progressed st st'.
Proof. intros []. split; try done; congruence. Qed.

Lemma completed_progressed st st' : completed st st' → progressed st st'.
Proof.
  intros []. split; try done. intros k e' He. right. exists e'. split; [auto | done].
Qed.

Lemma progressed_cycles_ok st st' : progressed st st' → cycles_ok st → cycles_ok st'.
Proof.
  intros [] Hok k e' He'. rewrite progressed_sync_cycle0.
  destruct (progressed_entries0 k e' He') as [Hc | (e & He & Heq)]; [by left|].
  rewrite Heq. by eapply Hok.
Qed.

Lemma progressed_all_current st st' : progressed st st' → all_current st → all_current st'.
Proof.
  intros [] Hok k e' He'. rewrite progressed_sync_cycle0.
  destruct (progressed_entries0 k e' He') as [Hc | (e & He & Heq)]; [done|].
  rewrite Heq. by eapply Hok.
Qed.

Lemma absorbed_retry_counts_ok st st' : absorbed st st' → retry_counts_ok st → retry_counts_ok st'.
Proof. intros [] Hok e. rewrite absorbed_inflight0, absorbed_retry0. apply Hok. Qed.

Lemma absorbed_covered todo st st' : absorbed st st' → covered todo st → covered todo st'.
Proof.
  intros [] Hc k e' He' Hne. rewrite absorbed_inflight0, absorbed_retry0.
  rewrite absorbed_sync_cycle0 in Hne.
  destruct (absorbed_entries0 k e' He') as [? | (e & He & Heq)]; [done|].
  apply (Hc k e He). congruence.
Qed.

Lemma absorbed_retry_fuel st st' : absorbed st st' → retry_fuel st' = retry_fuel st.
Proof. intros []. unfold retry_fuel. by rewrite absorbed_inflight0, absorbed_retry0. Qed.

Lemma absorbed_sync_inv st st' : absorbed st st' → sync_inv st → sync_inv st'.
Proof.
  intros Ha (Hc & Hr & Hq). split; [|split].
  - eapply progressed_cycles_ok; [by apply absorbed_progressed | done].
  - by eapply absorbed_retry_counts_ok.
  - intros Hp. destruct Ha. rewrite absorbed_in_progress0 in Hp.
    destruct (Hq Hp) as (H1 & H2 & H3). split; [|split; congruence].
    eapply progressed_all_current; [|done]. split; try done; congruence.
Qed.

Lemma AbsorbSyncRequests_absorbed' env st : absorbed st (AbsorbSyncRequests env st).2.
Proof.
  etrans; [|apply AbsorbSyncRequests_absorbed].
  split; simpl; try done.
  - intros k e' He. right. by exists e'.
  - exists (pendingUnlinks st), []. by rewrite app_nil_r.
  - by rewrite sync_events_app, app_nil_r.
  - by rewrite unlink_events_app, app_nil_r.
  - by rewrite log_events_app, app_nil_r.
Qed.

#[global] Instance silent_preorder : PreOrder silent.
Proof.
  split; [by intros st | intros st1 st2 st3 [] []; split; congruence].
Qed.

Lemma RememberSyncRequest_silent env ftag type st :
  silent st (RememberSyncRequest env ftag type st).2.
Proof.
  destruct (pendingOps st) as [tbl|] eqn:Htbl;
    [|by rewrite RememberSyncRequest_no_table].
  destruct type.
  - rewrite (RememberSyncRequest_fsync_run _ _ _ _ Htbl). simpl.
    destruct (tbl !! ftag) as [e|]; [destruct (canceled e)|]; done.
  - by rewrite RememberSyncRequest_unlink_run by by rewrite Htbl.
  - by rewrite (RememberSyncRequest_forget_run _ _ _ _ Htbl).
  - unfold RememberSyncRequest. apply steps_bind; [apply _|done|].
    intros po st1 [= <- <-]. apply steps_bind; [apply _| |].
    { unfold Assert. by case_bool_decide. }
    intros _ st2 _. apply steps_bind; [apply _| |].
    { apply steps_hash_seq_scan; [apply _|]. intros key entry st3 He [t Ht].
      apply steps_bind; [apply _|by rewrite filter_matches_state|].
      intros b st4 Hb. pose proof (filter_matches_state env ftag key st3) as Hst.
      rewrite Hb in Hst. simpl in Hst. subst st4.
      apply steps_when; [apply _|]. intros _. by mrun. }
    intros _ st3 _. apply steps_bind; [apply _|done|].
    intros l st4 [= <- <-]. apply steps_bind; [apply _| |].
    { by rewrite (proj1 (forget_matching_unlinks_spec env ftag _ st3)). }
    intros l' st5 Hl'.
    pose proof (forget_matching_unlinks_spec env ftag (pendingUnlinks st3) st3) as [H1 H2].
    rewrite Hl' in H1. simpl in *. by subst st5.
Qed.

Lemma AbsorbSyncRequests_trace env st :
  trace (AbsorbSyncRequests env st).2 = trace st ++ [EvAbsorb]
  ∧ ticks (AbsorbSyncRequests env st).2 = bump_absorb (ticks st).
Proof.
  unfold AbsorbSyncRequests. mrun.
  apply (steps_forM silent). intros r st' _. apply RememberSyncRequest_silent.
Qed.

(* ===================================================================== *)
(** ** Which exceptions a computation can raise *)
(* ===================================================================== *)

Section ThrowsOnly.

Context (P : Exn → Prop).

Lemma throws_only_ret {A} (a : A) : throws_only P (ret a).
Proof. by intros st e. Qed.

Lemma throws_only_gets {A} (f : State → A) : throws_only P (gets f).
Proof. by intros st e. Qed.

Lemma throws_only_modify f : throws_only P (modify f).
Proof. by intros st e. Qed.

Lemma throws_only_throw {A} e : P e → throws_only P (@throw A e).
Proof. intros He st e' [= <-]. done. Qed.

Lemma throws_only_bind {A B} (m : M A) (k : A → M B) :
  throws_only P m → (∀ a, throws_only P (k a)) → throws_only P (bind m k).
Proof.
  intros Hm Hk st e. unfold bind. specialize (Hm st).
  destruct (m st) as [[a|e'] st']; simpl in *; [apply Hk | intros [= <-]; by apply Hm].
Qed.

Lemma throws_only_when c m : throws_only P m → throws_only P (when c m).
Proof. destruct c; [done | intros; apply throws_only_ret]. Qed.

Lemma throws_only_forM {A} (body : A → M unit) l :
  (∀ x, throws_only P (body x)) → throws_only P (forM_ l body).
Proof.
  intros Hb. induction l; simpl; [apply throws_only_ret|].
  apply throws_only_bind; auto.
Qed.

Lemma throws_only_the_pendingOps :
  P (NullDeref "pendingOps") → throws_only P the_pendingOps.
Proof.
  intros HP st e. unfold the_pendingOps, bind, gets. simpl.
  destruct (pendingOps st); simpl; [done | by intros [= <-]].
Qed.

Lemma throws_only_hash_seq_scan body :
  P (NullDeref "pendingOps") →
  (∀ k e, throws_only P (body k e)) → throws_only P (hash_seq_scan body).
Proof.
  intros HP Hb. unfold hash_seq_scan.
  apply throws_only_bind; [by apply throws_only_the_pendingOps|]. intros tbl.
  apply throws_only_forM. intros k.
  apply throws_only_bind; [by apply throws_only_the_pendingOps|]. intros tbl'.
  destruct (tbl' !! k); [apply Hb | apply throws_only_ret].
Qed.

Lemma throws_only_store_entry k e :
  P (NullDeref "pendingOps") → throws_only P (store_entry k e).
Proof.
  intros HP. unfold store_entry.
  apply throws_only_bind; [by apply throws_only_the_pendingOps|].
  intros; apply throws_only_modify.
Qed.

End ThrowsOnly.

Lemma throws_only_filter_matches env ftag cand :
  throws_only benign (filter_matches env ftag cand).
Proof.
  unfold filter_matches, call_filetagmatches. case_decide; [|apply throws_only_ret].
  destruct (sync_filetagmatches _); [apply throws_only_ret | by apply throws_only_throw].
Qed.

Lemma throws_only_forget_matching_unlinks env ftag l :
  throws_only benign (forget_matching_unlinks env ftag l).
Proof.
  induction l; simpl; [apply throws_only_ret|].
  apply throws_only_bind; [apply throws_only_filter_matches|]. intros b.
  apply throws_only_bind; [done|]. intros; apply throws_only_ret.
Qed.

Lemma RememberSyncRequest_benign env ftag type st e :
  is_Some (pendingOps st) →
  (RememberSyncRequest env ftag type st).1 = Throw e → benign e.
Proof.
  intros [tbl Htbl]. destruct type.
  - by rewrite (RememberSyncRequest_fsync_run _ _ _ _ Htbl).
  - by rewrite RememberSyncRequest_unlink_run by by rewrite Htbl.
  - by rewrite (RememberSyncRequest_forget_run _ _ _ _ Htbl).
  - unfold RememberSyncRequest.
    rewrite (bind_Ret _ _ st (Some tbl) st) by by unfold gets; rewrite Htbl.
    rewrite (bind_Ret _ _ st tt st) by done.
    match goal with
    | |- (?m st).1 = Throw e → _ => enough (throws_only benign m) as H by apply H
    end.
    apply throws_only_bind.
    { apply throws_only_hash_seq_scan; [done|]. intros k pe.
      apply throws_only_bind; [apply throws_only_filter_matches|]. intros b.
      apply throws_only_when. by apply throws_only_store_entry. }
    intros _. apply throws_only_bind; [apply throws_only_gets|]. intros l.
    apply throws_only_bind; [apply throws_only_forget_matching_unlinks|].
    intros; apply throws_only_modify.
Qed.

Lemma AbsorbSyncRequests_benign env st e :
  is_Some (pendingOps st) →
  (AbsorbSyncRequests env st).1 = Throw e → benign e.
Proof.
  intros Hsome. unfold AbsorbSyncRequests. mrun.
  set (st1 := set_trace _ _).
  assert (is_Some (pendingOps st1)) as H1 by done.
  clearbody st1. revert st1 H1.
  induction (absorb_feed env (t_absorb (ticks st))) as [|r l IH]; simpl; intros st1 H1; [done|].
  unfold bind.
  pose proof (RememberSyncRequest_absorbed env r.1 r.2 st1) as Ha.
  pose proof (RememberSyncRequest_benign env r.1 r.2 st1) as Hb.
  destruct (RememberSyncRequest env r.1 r.2 st1) as [[[]|e'] st2]; simpl in *.
  - apply IH. by apply Ha.
  - intros [= <-]. by apply Hb.
Qed.

(* ===================================================================== *)
(** ** SyncRequestCompleted *)
(* ===================================================================== *)

Lemma data_sync_elevel_fatal env : is_fatal (data_sync_elevel env ERROR) = true.
Proof. unfold data_sync_elevel. by destruct (data_sync_retry env). Qed.

Lemma SyncRequestCompleted_bad_index env i success err st :
  inflightSyncs st !! i = None →
  SyncRequestCompleted env i success err st = (Throw (NullDeref "inflight_entry"), st).
Proof. intros H. unfold SyncRequestCompleted. by mrun. Qed.

Lemma SyncRequestCompleted_failure env i err st ie :
  inflightSyncs st !! i = Some ie →
  SyncRequestCompleted env i false err st =
    let st1 := set_inflightSyncs (delete i (inflightSyncs st)) st in
    if negb (FILE_POSSIBLY_DELETED env err) || (0 <? retry_count ie)
    then (Throw (Ereport (data_sync_elevel env ERROR) "could not fsync file %s: %m"), st1)
    else (Ret tt,
          set_retrySyncs (retrySyncs st ++ [set_retry_count (retry_count ie + 1) ie])
            (set_trace
               (trace st ++
                  [EvLog DEBUG1 "could not fsync file %s but retrying: %m" (Some (tag ie))])
               st1)).
Proof.
  intros H. unfold SyncRequestCompleted. mrun.
  destruct (negb (FILE_POSSIBLY_DELETED env err) || (0 <? retry_count ie)); simpl.
  - by rewrite data_sync_elevel_fatal.
  - done.
Qed.

Lemma SyncRequestCompleted_success env i err st ie :
  inflightSyncs st !! i = Some ie →
  SyncRequestCompleted env i true err st =
    let elapsed := uint64_cast (clock env (t_clock (ticks st)) - start_time ie) in
    let st1 :=
      set_sync_state_global (count_completion elapsed (sync_state_global st))
        (set_ticks (bump_clock (ticks st))
           (set_inflightSyncs (delete i (inflightSyncs st)) st)) in
    let st2 :=
      if log_checkpoints env
      then set_trace
             (trace st ++
                [EvLog DEBUG1 "checkpoint sync: number=%d file=%s time=%.3f ms" (Some (tag ie))])
             st1
      else st1 in
    match pendingOps st with
    | None => (Throw (NullDeref "pendingOps"), st2)
    | Some tbl =>
        match tbl !! hash_entry ie with
        | Some _ => (Ret tt, set_pendingOps (Some (delete (hash_entry ie) tbl)) st2)
        | None => (Throw (Ereport ERROR "pendingOps corrupted"), st2)
        end
    end.
Proof.
  intros H. unfold SyncRequestCompleted. mrun.
  unfold count_completion.
  destruct (longest (sync_state_global st) <? _); simpl;
  destruct (log_checkpoints env); simpl;
    (destruct (pendingOps st) as [tbl|]; simpl; [destruct (tbl !! hash_entry ie)|]);
    simpl; reflexivity.
Qed.

Lemma sum_list_with_delete {A} (f : A → nat) (l : list A) i x :
  l !! i = Some x → sum_list_with f l = (f x + sum_list_with f (delete i l))%nat.
Proof. intros H. by rewrite (delete_Permutation l i x H) at 1. Qed.

Lemma elem_of_fmap_delete {A B} (f : A → B) (l : list A) i x y :
  l !! i = Some x → y ∈ f <$> l → y = f x ∨ y ∈ f <$> delete i l.
Proof.
  intros Hi Hy. rewrite (delete_Permutation l i x Hi) in Hy.
  rewrite fmap_cons in Hy. by apply elem_of_cons in Hy.
Qed.

Lemma retries_left_failed ie :
  (0 <? retry_count ie) = false →
  retries_left ie = S (retries_left (set_retry_count (retry_count ie + 1) ie)).
Proof. unfold retries_left. simpl. intros H%Z.ltb_ge. lia. Qed.

Lemma retry_fuel_delete st st' i ie :
  inflightSyncs st !! i = Some ie →
  inflightSyncs st' = delete i (inflightSyncs st) →
  retrySyncs st' = retrySyncs st →
  retry_fuel st = (2 * retries_left ie + retry_fuel st')%nat.
Proof.
  intros Hi H1 H2. unfold retry_fuel. rewrite H1, H2.
  rewrite (sum_list_with_delete _ (inflightSyncs st) i ie Hi). lia.
Qed.

Lemma retry_fuel_requeue st st' i ie :
  inflightSyncs st !! i = Some ie →
  (0 <? retry_count ie) = false →
  inflightSyncs st' = delete i (inflightSyncs st) →
  retrySyncs st' = retrySyncs st ++ [set_retry_count (retry_count ie + 1) ie] →
  retry_fuel st = S (retry_fuel st').
Proof.
  intros Hi Hrc H1 H2. unfold retry_fuel. rewrite H1, H2, sum_list_with_app.
  rewrite (sum_list_with_delete _ (inflightSyncs st) i ie Hi).
  rewrite (retries_left_failed ie Hrc). simpl. lia.
Qed.

Lemma SyncRequestCompleted_completed env i success err st :
  completed st (SyncRequestCompleted env i success err st).2.
Proof.
  destruct (inflightSyncs st !! i) as [ie|] eqn:Hi;
    [|by rewrite SyncRequestCompleted_bad_index].
  assert (∀ k e', table_of (set_inflightSyncs (delete i (inflightSyncs st)) st) !! k = Some e'
                  → table_of st !! k = Some e') as Htable by done.
  destruct success.
  - rewrite (SyncRequestCompleted_success _ _ _ _ _ Hi). cbv zeta.
    set (st1 := set_sync_state_global _ _).
    assert (completed st st1) as H1.
    { split; try done.
      - unfold st1, count_completion. simpl. by destruct (_ <? _).
      - unfold st1, count_completion. simpl. by destruct (_ <? _).
      - rewrite (retry_fuel_delete st st1 i ie) by done. lia. }
    set (st2 := if log_checkpoints env then _ else st1).
    assert (completed st st2) as H2.
    { unfold st2. destruct (log_checkpoints env); [|done].
      etrans; [exact H1|]. split; try done; simpl.
      - by rewrite sync_events_app, app_nil_r.
      - by rewrite unlink_events_app, app_nil_r.
      - by rewrite absorb_events_app, Nat.add_0_r. }
    destruct (pendingOps st) as [tbl|] eqn:Htbl; [|done].
    destruct (tbl !! hash_entry ie) eqn:He; [|done]. simpl.
    etrans; [exact H2|].
    assert (pendingOps st2 = Some tbl) as Htbl2.
    { unfold st2. by destruct (log_checkpoints env). }
    split; try done; simpl.
    unfold table_of. simpl. rewrite Htbl2. simpl. intros k e'.
    rewrite lookup_delete_Some. by intros [_ ?].
  - rewrite (SyncRequestCompleted_failure _ _ _ _ _ Hi). cbv zeta.
    destruct (negb _ || _) eqn:Hc; simpl.
    + split; try done.
      rewrite (retry_fuel_delete st (set_inflightSyncs _ st) i ie) by done. lia.
    + apply orb_false_iff in Hc as [_ Hrc].
      split; try done; simpl.
      * match goal with |- (retry_fuel ?s ≤ _)%nat =>
          rewrite (retry_fuel_requeue st s i ie) by done end. lia.
      * by rewrite sync_events_app, app_nil_r.
      * by rewrite unlink_events_app, app_nil_r.
      * by rewrite absorb_events_app, Nat.add_0_r.
Qed.

Lemma SyncRequestCompleted_keeps env i success err todo :
  triple (λ st, retry_counts_ok st ∧ covered todo st)
    (SyncRequestCompleted env i success err)
    (λ _ st, retry_counts_ok st ∧ covered todo st)
    (λ e st, benign e ∧ retry_counts_ok st).
Proof.
  intros st [Hrc Hcov].
  destruct (inflightSyncs st !! i) as [ie|] eqn:Hi;
    [|by rewrite SyncRequestCompleted_bad_index].
  assert (retry_counts_ok (set_inflightSyncs (delete i (inflightSyncs st)) st)) as Hrc1.
  { intros e He. apply Hrc. simpl in He. rewrite elem_of_app in He |- *.
    destruct He as [He|He]; [left|by right]. by eapply list_elem_of_delete_inv. }
  destruct success.
  - rewrite (SyncRequestCompleted_success _ _ _ _ _ Hi). cbv zeta.
    set (st1 := set_sync_state_global _ _).
    set (st2 := if log_checkpoints env then _ else st1).
    assert (retry_counts_ok st2) as Hrc2.
    { unfold st2. by destruct (log_checkpoints env). }
    assert (inflightSyncs st2 = delete i (inflightSyncs st)
            ∧ retrySyncs st2 = retrySyncs st
            ∧ sync_cycle_ctr st2 = sync_cycle_ctr st) as (Hq1 & Hq2 & Hq3).
    { unfold st2. by destruct (log_checkpoints env). }
    destruct (pendingOps st) as [tbl|] eqn:Htbl; [|done].
    destruct (tbl !! hash_entry ie) eqn:He; [|done].
    split; [done|]. intros k e'. unfold table_of. simpl. rewrite Hq1, Hq2, Hq3.
    rewrite lookup_delete_Some. intros [Hne Hk] Hcyc.
    destruct (Hcov k e') as [?|[Hin|?]]; [by unfold table_of; rewrite Htbl|done|by left| |by auto].
    destruct (elem_of_fmap_delete hash_entry _ _ _ _ Hi Hin); [congruence | by auto].
  - rewrite (SyncRequestCompleted_failure _ _ _ _ _ Hi). cbv zeta.
    destruct (negb _ || _) eqn:Hc; simpl; [done|].
    apply orb_false_iff in Hc as [_ Hneg%Z.ltb_ge].
    assert (0 ≤ retry_count ie ≤ 1) as Hie.
    { apply Hrc. apply elem_of_app. left. by eapply list_elem_of_lookup_2. }
    split.
    + intros e. simpl. rewrite !elem_of_app, list_elem_of_singleton.
      intros [He|[He| ->]].
      * apply Hrc1. simpl. apply elem_of_app. by left.
      * apply Hrc. apply elem_of_app. by right.
      * simpl. lia.
    + intros k e' Hk Hcyc. simpl.
      destruct (Hcov k e' Hk Hcyc) as [?|[Hin|?]]; [by left| |].
      * destruct (elem_of_fmap_delete hash_entry _ _ _ _ Hi Hin) as [->|?]; [|by auto].
        right; right. rewrite fmap_app. apply elem_of_app. right. by left.
      * right; right. rewrite fmap_app. apply elem_of_app. by left.
Qed.

(* ===================================================================== *)
(** ** Delivering completions and submitting requests *)
(* ===================================================================== *)

Lemma triple_forM_const {A} (body : A → M unit) (I : State → Prop) E l :
  (∀ x, x ∈ l → triple I (body x) (λ _, I) E) →
  triple I (forM_ l body) (λ _, I) E.
Proof.
  induction l as [|x l IH]; simpl; intros Hbody.
  - by intros st H.
  - eapply triple_bind; [apply Hbody; left | intros ?; apply IH].
    intros y Hy. apply Hbody. by right.
Qed.

Lemma queues_ok_core todo st st' :
  pendingOps st' = pendingOps st → inflightSyncs st' = inflightSyncs st →
  retrySyncs st' = retrySyncs st → sync_cycle_ctr st' = sync_cycle_ctr st →
  queues_ok todo st → queues_ok todo st'.
Proof.
  intros H1 H2 H3 H4 [Hrc Hcov]. split.
  - intros e. rewrite H2, H3. apply Hrc.
  - intros k e. unfold table_of. rewrite H1, H2, H3, H4. apply Hcov.
Qed.

Lemma deliver_completion_completed env i st :
  completed st (deliver_completion env i st).2.
Proof.
  unfold deliver_completion. mrun. case_decide; [|done].
  etrans; [|apply SyncRequestCompleted_completed]. by split.
Qed.

Lemma deliver_completion_keeps env i todo :
  triple (queues_ok todo) (deliver_completion env i) (λ _, queues_ok todo) queues_exn.
Proof.
  intros st H. unfold deliver_completion. mrun. case_decide; [|done].
  apply SyncRequestCompleted_keeps. by eapply queues_ok_core; [..|exact H].
Qed.

Lemma drain_completed env (l : list nat) st :
  completed st (forM_ l (deliver_completion env) st).2.
Proof. apply (steps_forM completed). intros; apply deliver_completion_completed. Qed.

Lemma drain_keeps env (l : list nat) todo :
  triple (queues_ok todo) (forM_ l (deliver_completion env)) (λ _, queues_ok todo) queues_exn.
Proof. apply triple_forM_const. intros; apply deliver_completion_keeps. Qed.

Lemma pg_streaming_write_wait_all_completed env st :
  completed st (pg_streaming_write_wait_all env st).2.
Proof.
  unfold pg_streaming_write_wait_all. mrun.
  apply (steps_forM completed). intros; apply deliver_completion_completed.
Qed.

Lemma pg_streaming_write_wait_all_keeps env todo :
  triple (queues_ok todo) (pg_streaming_write_wait_all env) (λ _, queues_ok todo) queues_exn.
Proof.
  intros st H. unfold pg_streaming_write_wait_all. mrun.
  by apply (triple_forM_const _ (queues_ok todo));
    [intros; apply deliver_completion_keeps|].
Qed.

Lemma call_syncfiletag_completed env ie st :
  completed (submitted env ie st) (call_syncfiletag env ie st).2.
Proof. unfold call_syncfiletag, call_sync. mrun. apply drain_completed. Qed.

Lemma submitted_progressed env ie st : progressed st (submitted env ie st).
Proof.
  split; try done.
  - intros k e' He. right. by exists e'.
  - simpl. by rewrite unlink_events_app, app_nil_r.
Qed.

Lemma call_syncfiletag_progressed env ie st :
  progressed st (call_syncfiletag env ie st).2.
Proof.
  etrans; [apply submitted_progressed|].
  apply completed_progressed, call_syncfiletag_completed.
Qed.

Lemma call_syncfiletag_keeps env ie todo :
  triple (λ st, retry_counts_ok st ∧ 0 ≤ retry_count ie ≤ 1
                ∧ covered (hash_entry ie :: todo) st)
    (call_syncfiletag env ie) (λ _, queues_ok todo) queues_exn.
Proof.
  intros st (Hrc & Hie & Hcov).
  assert (queues_ok todo (submitted env ie st)) as Hsub.
  { split.
    - intros e. simpl. rewrite elem_of_app, elem_of_app, list_elem_of_singleton.
      intros [[He| ->]|He]; [apply Hrc, elem_of_app; by left | done
                            | apply Hrc, elem_of_app; by right].
    - intros k e Hk Hcyc. simpl.
      destruct (Hcov k e Hk Hcyc) as [[->|?]%elem_of_cons|[?|?]]; [|by auto| |by auto].
      + right; left. rewrite fmap_app. apply elem_of_app. right. by left.
      + right; left. rewrite fmap_app. apply elem_of_app. by left. }
  pose proof (drain_keeps env (drain_at env (t_sync (bump_clock (ticks st)))) todo
                (submitted env ie st) Hsub) as Hd.
  unfold call_syncfiletag, call_sync. mrun. exact Hd.
Qed.

Lemma submitted_retry_fuel env ie st :
  retry_fuel (submitted env ie st) = (retry_fuel st + 2 * retries_left ie)%nat.
Proof. unfold retry_fuel. simpl. rewrite sum_list_with_app. simpl. unfold retries_left. simpl. lia. Qed.

Lemma submitted_sync_events env ie st :
  sync_events (trace (submitted env ie st))
  = sync_events (trace st)
    ++ [(sync_syncfiletag (syncsw (handler (tag ie))), stamped env ie st)].
Proof. simpl. by rewrite sync_events_app. Qed.

(* ===================================================================== *)
(** ** The retry bank *)
(* ===================================================================== *)

Lemma progressed_pass_frame st st' : progressed st st' → pass_frame st → pass_frame st'.
Proof.
  intros Hp (H1 & H2 & H3). split; [|split].
  - by apply Hp.
  - by eapply progressed_cycles_ok.
  - by rewrite (progressed_in_progress _ _ Hp).
Qed.

Lemma triple_pass {A} (f : M A) todo todo' :
  (∀ st, progressed st (f st).2) →
  triple (pass_inv todo) f (λ _, queues_ok todo') queues_exn →
  triple (pass_inv todo) f (λ _, pass_inv todo') pass_exn.
Proof.
  intros Hp Ht st [Hf Hq]. specialize (Hp st). specialize (Ht st (conj Hf Hq)).
  pose proof (progressed_pass_frame _ _ Hp Hf) as Hf'.
  destruct (f st) as [[a|e] st']; simpl in *.
  - by split.
  - destruct Ht. by split.
Qed.

Lemma progressed_remove st tbl k :
  pendingOps st = Some tbl → progressed st (set_pendingOps (Some (delete k tbl)) st).
Proof.
  intros Htbl. split; try done. unfold table_of. simpl. rewrite Htbl. simpl.
  intros k' e' [_ He]%lookup_delete_Some. right. by exists e'.
Qed.

(** One turn of the while loop of RetrySyncRequests. *)
Lemma RetrySyncRequests_loop_step env fuel st ie rest :
  retrySyncs st = ie :: rest →
  RetrySyncRequests_loop env (S fuel) st =
    let st1 := set_retrySyncs rest st in
    match pendingOps st with
    | None => (Throw (NullDeref "pendingOps"), st1)
    | Some tbl =>
        match tbl !! hash_entry ie with
        | None => (Throw (NullDeref "hash_entry"), st1)
        | Some entry =>
            if canceled entry
            then RetrySyncRequests_loop env fuel
                   (set_pendingOps (Some (delete (hash_entry ie) tbl)) st1)
            else if retry_count ie <=? 5
                 then bind (call_syncfiletag env ie)
                        (λ _, RetrySyncRequests_loop env fuel) st1
                 else (Throw (AssertFailure "inflight_entry->retry_count <= 5"), st1)
        end
    end.
Proof.
  intros Hq. simpl. unfold bind at 1. unfold gets at 1. rewrite Hq.
  unfold bind at 1. unfold modify at 1.
  unfold bind at 1. unfold deref_entry, the_pendingOps, bind at 1 2, gets at 1. simpl.
  destruct (pendingOps st) as [tbl|] eqn:Htbl; simpl; [|done].
  destruct (tbl !! hash_entry ie) as [entry|] eqn:He; simpl; [|done].
  destruct (canceled entry) eqn:Hc; simpl.
  - unfold bind at 1. unfold hash_search_REMOVE, the_pendingOps, bind at 1 2, gets at 1.
    simpl. rewrite Htbl. simpl. rewrite He. by mrun.
  - unfold bind at 1. unfold Assert. by destruct (retry_count ie <=? 5).
Qed.

Lemma RetrySyncRequests_loop_nil env fuel st :
  retrySyncs st = [] → RetrySyncRequests_loop env fuel st = (Ret tt, st).
Proof. intros Hq. destruct fuel; simpl; unfold bind, gets; by rewrite Hq. Qed.

Lemma RetrySyncRequests_loop_progressed env fuel st :
  progressed st (RetrySyncRequests_loop env fuel st).2.
Proof.
  revert st. induction fuel as [|fuel IH]; intros st.
  - simpl. unfold bind, gets. by destruct (retrySyncs st).
  - destruct (retrySyncs st) as [|ie rest] eqn:Hq;
      [by rewrite RetrySyncRequests_loop_nil|].
    rewrite (RetrySyncRequests_loop_step _ _ _ _ _ Hq). cbv zeta.
    assert (progressed st (set_retrySyncs rest st)) as H1.
    { split; try done. intros k e' He. right. by exists e'. }
    destruct (pendingOps st) as [tbl|] eqn:Htbl; [|done].
    destruct (tbl !! hash_entry ie) as [entry|]; [|done].
    destruct (canceled entry).
    + etrans; [exact H1|]. etrans; [|apply IH]. by apply progressed_remove.
    + destruct (retry_count ie <=? 5); [|done].
      etrans; [exact H1|]. apply steps_bind; [apply _| |].
      * apply call_syncfiletag_progressed.
      * intros _ st' _. apply IH.
Qed.

Lemma retry_fuel_pop st ie rest :
  retrySyncs st = ie :: rest →
  retry_fuel st = S (2 * retries_left ie + retry_fuel (set_retrySyncs rest st)).
Proof. intros Hq. unfold retry_fuel. rewrite Hq. simpl. lia. Qed.

Lemma RetrySyncRequests_loop_keeps env fuel todo :
  triple (λ st, queues_ok todo st ∧ (retry_fuel st ≤ fuel)%nat)
    (RetrySyncRequests_loop env fuel) (λ _, queues_ok todo) queues_exn.
Proof.
  induction fuel as [|fuel IH]; intros st [[Hrc Hcov] Hfuel].
  { destruct (retrySyncs st) as [|ie rest] eqn:Hq.
    - by rewrite RetrySyncRequests_loop_nil.
    - rewrite (retry_fuel_pop _ _ _ Hq) in Hfuel. lia. }
  destruct (retrySyncs st) as [|ie rest] eqn:Hq;
    [by rewrite RetrySyncRequests_loop_nil|].
  rewrite (RetrySyncRequests_loop_step _ _ _ _ _ Hq). cbv zeta.
  rewrite (retry_fuel_pop _ _ _ Hq) in Hfuel.
  assert (0 ≤ retry_count ie ≤ 1) as Hie.
  { apply Hrc. rewrite Hq. apply elem_of_app. right. by left. }
  assert (retry_counts_ok (set_retrySyncs rest st)) as Hrc1.
  { intros e He. apply Hrc. simpl in He. rewrite Hq.
    rewrite elem_of_app in He |- *. destruct He; [by left | right; by right]. }
  assert (covered (hash_entry ie :: todo) (set_retrySyncs rest st)) as Hcov1.
  { intros k e Hk Hcyc. simpl. rewrite elem_of_cons.
    destruct (Hcov k e Hk Hcyc) as [?|[?|Hin]]; [by auto|by auto|].
    rewrite Hq, fmap_cons, elem_of_cons in Hin. destruct Hin; by auto. }
  destruct (pendingOps st) as [tbl|] eqn:Htbl; [|done].
  destruct (tbl !! hash_entry ie) as [entry|] eqn:He; [|done].
  destruct (canceled entry).
  - apply IH. split; [split|].
    + done.
    + intros k e. unfold table_of. simpl. rewrite lookup_delete_Some.
      intros [Hne Hk] Hcyc.
      destruct (Hcov1 k e) as [[?|?]%elem_of_cons|?];
        [by unfold table_of; simpl; rewrite Htbl|done|congruence|by left|by right].
    + unfold retry_fuel in *. simpl in *. lia.
  - destruct (retry_count ie <=? 5) eqn:Hle; [|apply Z.leb_gt in Hle; lia].
    pose proof (call_syncfiletag_keeps env ie todo (set_retrySyncs rest st)
                  (conj Hrc1 (conj Hie Hcov1))) as Hk.
    pose proof (call_syncfiletag_completed env ie (set_retrySyncs rest st)) as Hc.
    unfold bind. destruct (call_syncfiletag env ie (set_retrySyncs rest st)) as [[[]|e] st2];
      simpl in *; [|done].
    apply IH. split; [done|].
    pose proof (completed_fuel _ _ Hc) as Hf.
    rewrite submitted_retry_fuel in Hf. lia.
Qed.

Lemma triple_pass_with {A} (f : M A) todo todo' (X : State → Prop) :
  (∀ st, progressed st (f st).2) →
  triple (λ st, pass_inv todo st ∧ X st) f (λ _, queues_ok todo') queues_exn →
  triple (λ st, pass_inv todo st ∧ X st) f (λ _, pass_inv todo') pass_exn.
Proof.
  intros Hp Ht st [[Hf Hq] HX]. specialize (Hp st). specialize (Ht st (conj (conj Hf Hq) HX)).
  pose proof (progressed_pass_frame _ _ Hp Hf) as Hf'.
  destruct (f st) as [[a|e] st']; simpl in *.
  - by split.
  - destruct Ht. by split.
Qed.

(** The absorb at the head of RetrySyncRequests with the reset of the
    countdown, and the countdown of the main loop. *)
Lemma absorb_and_reset_absorbed env c st :
  absorbed st
    (bind (AbsorbSyncRequests env) (λ _, modify_sync_state (set_absorb_counter c)) st).2.
Proof.
  apply steps_bind; [apply _|apply AbsorbSyncRequests_absorbed'|].
  intros _ st' _. mrun. split; try done.
  - intros k e' He. right. by exists e'.
  - exists (pendingUnlinks st'), []. by rewrite app_nil_r.
Qed.

Lemma absorb_and_reset_benign env c st e :
  is_Some (pendingOps st) →
  (bind (AbsorbSyncRequests env) (λ _, modify_sync_state (set_absorb_counter c)) st).1
  = Throw e → benign e.
Proof.
  intros Hsome. unfold bind.
  pose proof (AbsorbSyncRequests_benign env st) as Hb.
  destruct (AbsorbSyncRequests env st) as [[[]|e'] st']; simpl in *; [done|].
  intros [= <-]. by apply Hb.
Qed.

Lemma interleave_absorb_absorbed env st : absorbed st (interleave_absorb env st).2.
Proof.
  unfold interleave_absorb.
  apply steps_bind; [apply _| |].
  { mrun. split; try done.
    - intros k e' He. right. by exists e'.
    - exists (pendingUnlinks st), []. by rewrite app_nil_r. }
  intros _ st1 _. apply steps_bind; [apply _|done|]. intros c st2 [= <- <-].
  apply steps_when; [apply _|]. intros _. apply absorb_and_reset_absorbed.
Qed.

Lemma interleave_absorb_benign env st e :
  is_Some (pendingOps st) → (interleave_absorb env st).1 = Throw e → benign e.
Proof.
  intros Hsome. unfold interleave_absorb. mrun.
  destruct (_ <=? 0); simpl; [|done].
  by apply (absorb_and_reset_benign env FSYNCS_PER_ABSORB (set_sync_state_global _ st)).
Qed.

Lemma progressed_set_absorb_counter c st :
  progressed st (set_sync_state_global (set_absorb_counter c (sync_state_global st)) st).
Proof. split; try done. intros k e' He. right. by exists e'. Qed.

Lemma RetrySyncRequests_progressed env st : progressed st (RetrySyncRequests env st).2.
Proof.
  unfold RetrySyncRequests. apply steps_bind; [apply _|done|].
  intros q st1 [= <- <-]. destruct (retrySyncs st); [done|].
  apply steps_bind; [apply _|apply absorbed_progressed, AbsorbSyncRequests_absorbed'|].
  intros _ st1 _. apply steps_bind; [apply _|apply progressed_set_absorb_counter|].
  intros _ st2 _. apply steps_bind; [apply _|done|].
  intros st3 st4 [= <- <-]. apply RetrySyncRequests_loop_progressed.
Qed.

Lemma RetrySyncRequests_keeps env todo :
  triple (λ st, pass_inv todo st ∧ True) (RetrySyncRequests env)
    (λ _, queues_ok todo) queues_exn.
Proof.
  intros st [[(Hsome & _) Hq] _]. unfold RetrySyncRequests.
  unfold bind at 1, gets at 1. destruct (retrySyncs st) eqn:Hr; [done|].
  pose proof (AbsorbSyncRequests_absorbed' env st) as Ha.
  pose proof (AbsorbSyncRequests_benign env st) as Hb.
  unfold bind at 1. destruct (AbsorbSyncRequests env st) as [[[]|e] st1]; simpl in *.
  - destruct Hq as [Hrc Hcov].
    assert (queues_ok todo st1) as Hq1.
    { split; [by eapply absorbed_retry_counts_ok | by eapply absorbed_covered]. }
    mrun. apply RetrySyncRequests_loop_keeps. split; [|done].
    by eapply queues_ok_core; [..|exact Hq1].
  - split; [by apply Hb|]. eapply absorbed_retry_counts_ok; [done|apply Hq].
Qed.

Lemma RetrySyncRequests_pass env todo :
  triple (pass_inv todo) (RetrySyncRequests env) (λ _, pass_inv todo) pass_exn.
Proof.
  eapply triple_pre;
    [apply (triple_pass_with _ todo todo (λ _, True));
       [apply RetrySyncRequests_progressed | apply RetrySyncRequests_keeps]|].
  by intros st H.
Qed.

Lemma ProcessSyncRequests_retries_progressed env st :
  progressed st (ProcessSyncRequests_retries env st).2.
Proof. apply (steps_forM progressed). intros; apply RetrySyncRequests_progressed. Qed.

Lemma ProcessSyncRequests_retries_pass env todo :
  triple (pass_inv todo) (ProcessSyncRequests_retries env) (λ _, pass_inv todo) pass_exn.
Proof. apply triple_forM_const. intros; apply RetrySyncRequests_pass. Qed.

Lemma pg_streaming_write_wait_all_pass env todo :
  triple (pass_inv todo) (pg_streaming_write_wait_all env) (λ _, pass_inv todo) pass_exn.
Proof.
  eapply triple_pre;
    [apply (triple_pass_with _ todo todo (λ _, True))|by intros st H].
  - intros st. apply completed_progressed, pg_streaming_write_wait_all_completed.
  - eapply triple_pre; [apply pg_streaming_write_wait_all_keeps|]. by intros st [[_ ?] _].
Qed.

(* ===================================================================== *)
(** ** The main loop of ProcessSyncRequests *)
(* ===================================================================== *)

Lemma ProcessSyncRequests_entry_skip env key entry st :
  cycle_ctr entry = sync_cycle_ctr st →
  ProcessSyncRequests_entry env key entry st = (Ret tt, st).
Proof.
  intros H. unfold ProcessSyncRequests_entry, bind at 1, gets at 1.
  by rewrite (proj2 (Z.eqb_eq _ _) H).
Qed.

Lemma ProcessSyncRequests_entry_missed env key entry st :
  cycle_ctr entry ≠ sync_cycle_ctr st →
  CycleCtr_cast (cycle_ctr entry + 1) ≠ sync_cycle_ctr st →
  ProcessSyncRequests_entry env key entry st
  = (Throw (AssertFailure "(CycleCtr) (entry->cycle_ctr + 1) == sync_cycle_ctr"), st).
Proof.
  intros H1 H2. unfold ProcessSyncRequests_entry, bind at 1, gets at 1.
  rewrite (proj2 (Z.eqb_neq _ _) H1). unfold bind at 1, Assert.
  by rewrite (proj2 (Z.eqb_neq _ _) H2).
Qed.

(** An eligible entry: the countdown and the possible absorb come first,
    then the entry is removed or submitted. *)
Lemma ProcessSyncRequests_entry_eligible env key entry st :
  cycle_ctr entry ≠ sync_cycle_ctr st →
  CycleCtr_cast (cycle_ctr entry + 1) = sync_cycle_ctr st →
  ProcessSyncRequests_entry env key entry st =
    match interleave_absorb env st with
    | (Throw e, st1) => (Throw e, st1)
    | (Ret _, st1) =>
        match pendingOps st1 with
        | None => (Throw (NullDeref "pendingOps"), st1)
        | Some tbl =>
            match tbl !! key with
            | None => (Throw (NullDeref "hash_entry"), st1)
            | Some entry' =>
                if negb (enableFsync env) || canceled entry'
                then (Ret tt, set_pendingOps (Some (delete key tbl)) st1)
                else call_syncfiletag env (new_inflight_entry key) st1
            end
        end
    end.
Proof.
  intros H1 H2. unfold ProcessSyncRequests_entry, bind at 1, gets at 1.
  rewrite (proj2 (Z.eqb_neq _ _) H1). unfold bind at 1, Assert.
  rewrite (proj2 (Z.eqb_eq _ _) H2). unfold ret at 1. unfold bind at 1.
  destruct (interleave_absorb env st) as [[[]|e] st1]; [|done].
  unfold bind at 1, deref_entry, the_pendingOps, bind at 1 2, gets at 1. simpl.
  destruct (pendingOps st1) as [tbl|] eqn:Htbl; simpl; [|done].
  destruct (tbl !! key) as [entry'|] eqn:He; simpl; [|done].
  destruct (negb (enableFsync env) || canceled entry'); [|done].
  by mrun.
Qed.

Lemma ProcessSyncRequests_entry_progressed env key entry st :
  progressed st (ProcessSyncRequests_entry env key entry st).2.
Proof.
  destruct (decide (cycle_ctr entry = sync_cycle_ctr st)) as [H1|H1];
    [by rewrite ProcessSyncRequests_entry_skip|].
  destruct (decide (CycleCtr_cast (cycle_ctr entry + 1) = sync_cycle_ctr st)) as [H2|H2];
    [|by rewrite ProcessSyncRequests_entry_missed].
  rewrite ProcessSyncRequests_entry_eligible by done.
  pose proof (absorbed_progressed _ _ (interleave_absorb_absorbed env st)) as Ha.
  destruct (interleave_absorb env st) as [[[]|e] st1]; simpl in Ha; [|done].
  destruct (pendingOps st1) as [tbl|] eqn:Htbl; [|done].
  destruct (tbl !! key) as [entry'|]; [|done].
  destruct (negb (enableFsync env) || canceled entry').
  - etrans; [exact Ha|]. by apply progressed_remove.
  - etrans; [exact Ha|]. apply call_syncfiletag_progressed.
Qed.

Lemma covered_visited key rest entry st :
  covered (key :: rest) st → table_of st !! key = Some entry →
  cycle_ctr entry = sync_cycle_ctr st → covered rest st.
Proof.
  intros Hcov He Hc k e Hk Hcyc.
  destruct (Hcov k e Hk Hcyc) as [[->|?]%elem_of_cons|?]; [congruence|by left|by right].
Qed.

Lemma covered_removed key rest st tbl :
  covered (key :: rest) st → pendingOps st = Some tbl →
  covered rest (set_pendingOps (Some (delete key tbl)) st).
Proof.
  intros Hcov Htbl k e. unfold table_of. simpl. rewrite lookup_delete_Some.
  intros [Hne Hk] Hcyc.
  destruct (Hcov k e) as [[?|?]%elem_of_cons|?];
    [by unfold table_of; rewrite Htbl|done|congruence|by left|by right].
Qed.

Lemma ProcessSyncRequests_entry_keeps env key rest entry :
  triple (λ st, pass_inv (key :: rest) st ∧ table_of st !! key = Some entry)
    (ProcessSyncRequests_entry env key entry) (λ _, queues_ok rest) queues_exn.
Proof.
  intros st [[(Hsome & Hcyc & _) [Hrc Hcov]] He].
  destruct (decide (cycle_ctr entry = sync_cycle_ctr st)) as [H1|H1].
  { rewrite ProcessSyncRequests_entry_skip by done. split; [done|].
    by eapply covered_visited. }
  destruct (Hcyc key entry He) as [?|H2]; [done|].
  rewrite ProcessSyncRequests_entry_eligible by done.
  pose proof (interleave_absorb_absorbed env st) as Ha.
  pose proof (interleave_absorb_benign env st) as Hb.
  destruct (interleave_absorb env st) as [[[]|e] st1]; simpl in Ha, Hb.
  2: { split; [by apply Hb | by eapply absorbed_retry_counts_ok]. }
  assert (retry_counts_ok st1) as Hrc1 by by eapply absorbed_retry_counts_ok.
  assert (covered (key :: rest) st1) as Hcov1 by by eapply absorbed_covered.
  destruct (pendingOps st1) as [tbl|] eqn:Htbl; [|done].
  destruct (tbl !! key) as [entry'|]; [|done].
  destruct (negb (enableFsync env) || canceled entry').
  - split; [done|]. by apply covered_removed.
  - by apply call_syncfiletag_keeps.
Qed.

Lemma ProcessSyncRequests_entry_pass env key rest entry :
  triple (λ st, pass_inv (key :: rest) st ∧ table_of st !! key = Some entry)
    (ProcessSyncRequests_entry env key entry) (λ _, pass_inv rest) pass_exn.
Proof.
  apply triple_pass_with;
    [intros; apply ProcessSyncRequests_entry_progressed
    | apply ProcessSyncRequests_entry_keeps].
Qed.

(** A scan of the table with an invariant indexed by the keys still to be
    visited. *)
Lemma triple_hash_seq_scan body (I : list FileTag → State → Prop) E :
  (∀ key rest entry,
     triple (λ st, I (key :: rest) st ∧ table_of st !! key = Some entry)
       (body key entry) (λ _, I rest) E) →
  (∀ key rest st, I (key :: rest) st → table_of st !! key = None → I rest st) →
  (∀ l st, I l st → is_Some (pendingOps st)) →
  triple (λ st, I (map_to_list (table_of st)).*1 st) (hash_seq_scan body) (λ _, I []) E.
Proof.
  intros Hbody Hgone Hsome st HI. unfold hash_seq_scan, the_pendingOps.
  unfold bind at 1 2, gets at 1.
  destruct (Hsome _ _ HI) as [tbl Htbl]. rewrite Htbl. simpl.
  unfold table_of in HI. rewrite Htbl in HI. simpl in HI.
  clear Htbl. revert st HI. apply (triple_forM _ I E). intros key rest st HI.
  unfold bind at 1 2, gets at 1.
  destruct (Hsome _ _ HI) as [tbl' Htbl']. rewrite Htbl'. simpl.
  destruct (tbl' !! key) as [entry|] eqn:He.
  - apply Hbody. split; [done|]. by unfold table_of; rewrite Htbl'.
  - simpl. apply (Hgone key); [done|]. by unfold table_of; rewrite Htbl'.
Qed.

Lemma ProcessSyncRequests_scan_progressed env st :
  progressed st (ProcessSyncRequests_scan env st).2.
Proof.
  unfold ProcessSyncRequests_scan.
  apply steps_bind; [apply _|apply progressed_set_absorb_counter|].
  intros _ st1 _. apply steps_hash_seq_scan; [apply _|].
  intros; apply ProcessSyncRequests_entry_progressed.
Qed.

Lemma ProcessSyncRequests_scan_pass env :
  triple (λ st, pass_frame st ∧ retry_counts_ok st)
    (ProcessSyncRequests_scan env) (λ _, pass_inv []) pass_exn.
Proof.
  intros st [Hf Hrc]. unfold ProcessSyncRequests_scan, bind at 1, modify_sync_state, modify.
  simpl. set (st1 := set_sync_state_global _ _).
  apply (triple_hash_seq_scan _ pass_inv).
  - apply ProcessSyncRequests_entry_pass.
  - intros key rest st2 [Hf2 [Hrc2 Hcov2]] Hnone. split; [done|]. split; [done|].
    intros k e Hk Hcyc.
    destruct (Hcov2 k e Hk Hcyc) as [[->|?]%elem_of_cons|?]; [congruence|by left|by right].
  - by intros l st2 [[? _] _].
  - split; [done|]. split; [done|]. intros k e Hk _. left.
    apply list_elem_of_fmap. exists (k, e). split; [done|].
    by apply elem_of_map_to_list.
Qed.

(* ===================================================================== *)
(** ** ProcessSyncRequests as a whole *)
(* ===================================================================== *)

Lemma ProcessSyncRequests_start_run env st :
  ProcessSyncRequests_start env st =
    match pendingOps st with
    | None => (Throw (Ereport ERROR "cannot sync without a pendingOps table"), st)
    | Some _ =>
        match AbsorbSyncRequests env st with
        | (Throw e, st1) => (Throw e, st1)
        | (Ret _, st1) =>
            if sync_in_progress (sync_state_global st1)
            then (Throw (Ereport PANIC "not implemented right now"), st1)
            else (Ret tt, begin_pass st1)
        end
    end.
Proof.
  unfold ProcessSyncRequests_start, bind at 1, gets at 1.
  destruct (pendingOps st) as [tbl|] eqn:Htbl; simpl; [|done].
  unfold bind at 1. unfold ret at 1. unfold bind at 1.
  destruct (AbsorbSyncRequests env st) as [[[]|e] st1]; [|done].
  unfold bind at 1, gets at 1.
  destruct (sync_in_progress (sync_state_global st1)) eqn:Hp; simpl; [done|].
  mrun. unfold begin_pass. simpl.
  destruct (pgsw (sync_state_global st1)) eqn:Hpg;
    unfold set_sync_in_progress, set_total_elapsed, set_longest, set_processed, set_pgsw;
    simpl; rewrite ?Hpg; reflexivity.
Qed.

Lemma ProcessSyncRequests_finish_run st :
  ProcessSyncRequests_finish st =
    match inflightSyncs st, retrySyncs st with
    | [], [] => (Ret tt, end_pass st)
    | _, _ => (Throw (Ereport PANIC "inflight sync requests corrupted"), st)
    end.
Proof.
  unfold ProcessSyncRequests_finish. mrun.
  destruct (inflightSyncs st); simpl; [|done].
  by destruct (retrySyncs st).
Qed.

Lemma ProcessSyncRequests_split env st :
  ProcessSyncRequests env st
  = bind (ProcessSyncRequests_until_checks env) (λ _, ProcessSyncRequests_finish) st.
Proof.
  unfold ProcessSyncRequests, ProcessSyncRequests_until_checks, bind.
  destruct (ProcessSyncRequests_start env st) as [[[]|?] st1]; [|done].
  destruct (ProcessSyncRequests_scan env st1) as [[[]|?] st2]; [|done].
  by destruct (pg_streaming_write_wait_all env st2) as [[[]|?] st3].
Qed.

Lemma begin_pass_pass_frame st :
  is_Some (pendingOps st) → all_current st → pass_frame (begin_pass st).
Proof.
  intros Hsome Hcur. split; [done|]. split; [|done].
  intros k e He. right. simpl. f_equal. f_equal. by apply (Hcur k e).
Qed.

(** From a state that satisfies the invariant, the part of
    ProcessSyncRequests after the start keeps the pass invariant. *)
Lemma ProcessSyncRequests_pass env :
  triple (λ st, pass_frame st ∧ retry_counts_ok st)
    (ProcessSyncRequests_scan env;;
     pg_streaming_write_wait_all env;;
     ProcessSyncRequests_retries env)
    (λ _, pass_inv []) pass_exn.
Proof.
  eapply triple_bind; [apply ProcessSyncRequests_scan_pass|]. intros ?.
  eapply triple_bind; [apply pg_streaming_write_wait_all_pass|]. intros ?.
  apply ProcessSyncRequests_retries_pass.
Qed.

Lemma pass_exn_sync_inv e st : pass_exn e st → sync_inv st.
Proof.
  intros (_ & (_ & Hcyc & Hp) & Hrc). split; [done|]. split; [done|].
  intros Hq. congruence.
Qed.

Lemma ProcessSyncRequests_spec env :
  triple sync_inv (ProcessSyncRequests env)
    (λ _ st, sync_inv st ∧ inflightSyncs st = [] ∧ retrySyncs st = []
             ∧ sync_in_progress (sync_state_global st) = false)
    (λ e st, benign e ∧ sync_inv st).
Proof.
  intros st Hinv. unfold ProcessSyncRequests. unfold bind at 1.
  rewrite ProcessSyncRequests_start_run.
  destruct (pendingOps st) as [tbl|] eqn:Htbl; [|done].
  assert (is_Some (pendingOps st)) as Hsome by by rewrite Htbl.
  pose proof (AbsorbSyncRequests_absorbed' env st) as Ha.
  pose proof (AbsorbSyncRequests_benign env st) as Hb.
  pose proof (absorbed_sync_inv _ _ Ha Hinv) as Hinv1.
  pose proof (absorbed_table_kept _ _ Ha Hsome) as Hsome1.
  destruct (AbsorbSyncRequests env st) as [[[]|e] st1]; simpl in *.
  2: { split; [by apply Hb | done]. }
  destruct (sync_in_progress (sync_state_global st1)) eqn:Hp; [done|].
  destruct Hinv1 as (Hcyc1 & Hrc1 & Hq1). destruct (Hq1 Hp) as (Hcur1 & Hin1 & Hre1).
  pose proof (ProcessSyncRequests_pass env (begin_pass st1)) as Hpass.
  rewrite <-bind_assoc, <-bind_assoc. unfold bind at 1.
  rewrite !bind_assoc.
  destruct (bind (ProcessSyncRequests_scan env) _ (begin_pass st1)) as [[[]|e] st2].
  - destruct Hpass as [(Hsome2 & Hcyc2 & Hp2) [Hrc2 Hcov2]].
    { split; [by apply begin_pass_pass_frame|done]. }
    rewrite ProcessSyncRequests_finish_run.
    destruct (inflightSyncs st2) eqn:Hin2.
    2: { split; [done|]. split; [done|]. split; [done|]. intros ?; congruence. }
    destruct (retrySyncs st2) eqn:Hre2.
    2: { split; [done|]. split; [done|]. split; [done|]. intros ?; congruence. }
    assert (all_current st2) as Hcur2.
    { intros k e' He'. destruct (decide (cycle_ctr e' = sync_cycle_ctr st2)); [done|].
      destruct (Hcov2 k e' He') as [Hx|[Hx|Hx]]; [done|..].
      - by apply elem_of_nil in Hx.
      - rewrite Hin2 in Hx. by apply elem_of_nil in Hx.
      - rewrite Hre2 in Hx. by apply elem_of_nil in Hx. }
    split; [|done]. split; [|split].
    + intros k e' He'. left. by apply (Hcur2 k e').
    + intros e'. simpl. rewrite Hin2, Hre2. by intros ?%elem_of_nil.
    + intros _. done.
  - destruct Hpass as (Hben & Hf & Hrc2).
    { split; [by apply begin_pass_pass_frame|done]. }
    split; [done|]. by apply (pass_exn_sync_inv e).
Qed.

(* ===================================================================== *)
(** ** SyncPostCheckpoint *)
(* ===================================================================== *)

Lemma SyncPostCheckpoint_loop_nil env fuel c st :
  pendingUnlinks st = [] → SyncPostCheckpoint_loop env fuel c st = (Ret tt, st).
Proof. intros H. destruct fuel; simpl; unfold bind, gets; by rewrite H. Qed.

Lemma SyncPostCheckpoint_loop_stop env fuel c st entry rest :
  pendingUnlinks st = entry :: rest →
  u_cycle_ctr entry = checkpoint_cycle_ctr st →
  SyncPostCheckpoint_loop env fuel c st = (Ret tt, st).
Proof.
  intros H Hc. destruct fuel; simpl; unfold bind, gets; rewrite H;
    by rewrite (proj2 (Z.eqb_eq _ _) Hc).
Qed.

Lemma SyncPostCheckpoint_loop_no_fuel env c st entry rest :
  pendingUnlinks st = entry :: rest →
  u_cycle_ctr entry ≠ checkpoint_cycle_ctr st →
  SyncPostCheckpoint_loop env 0 c st = (Throw OutOfFuel, st).
Proof.
  intros H Hc. simpl; unfold bind, gets; rewrite H;
    by rewrite (proj2 (Z.eqb_neq _ _) Hc).
Qed.

(** One turn of the loop for an old entry. *)
Lemma SyncPostCheckpoint_loop_step env fuel c st entry rest :
  pendingUnlinks st = entry :: rest →
  u_cycle_ctr entry ≠ checkpoint_cycle_ctr st →
  SyncPostCheckpoint_loop env (S fuel) c st =
    match sync_unlinkfiletag (syncsw (handler (u_tag entry))) with
    | None => (Throw (NullDeref "sync_unlinkfiletag"), st)
    | Some f =>
        let st1 := unlinked_head env f entry st in
        if c - 1 <=? 0
        then bind (AbsorbSyncRequests env)
               (λ _, SyncPostCheckpoint_loop env fuel UNLINKS_PER_ABSORB) st1
        else SyncPostCheckpoint_loop env fuel (c - 1) st1
    end.
Proof.
  intros H Hc. simpl. unfold bind at 1, gets at 1. rewrite H.
  unfold bind at 1, gets at 1. rewrite (proj2 (Z.eqb_neq _ _) Hc).
  unfold bind at 1, call_unlinkfiletag.
  destruct (sync_unlinkfiletag (syncsw (handler (u_tag entry)))) as [f|]; [|done].
  unfold unlinked_head. cbv zeta.
  destruct (run_unlinkfiletag env f (t_unlink (ticks st)) (u_tag entry)) as [ret errno] eqn:Hr.
  mrun. rewrite Hr. simpl.
  destruct (ret <? 0); simpl; [destruct (errno =? ENOENT env); simpl|];
    by destruct (c - 1 <=? 0).
Qed.

Lemma RememberSyncRequest_no_filter env ftag type st :
  type ≠ SYNC_FILTER_REQUEST → is_Some (pendingOps st) →
  ∃ st' news,
    RememberSyncRequest env ftag type st = (Ret tt, st')
    ∧ pendingUnlinks st' = pendingUnlinks st ++ news
    ∧ Forall (λ e, u_cycle_ctr e = checkpoint_cycle_ctr st) news.
Proof.
  intros Hty [tbl Htbl]. destruct type; [| | |done].
  - rewrite (RememberSyncRequest_fsync_run _ _ _ _ Htbl).
    eexists _, []. split; [done|]. rewrite app_nil_r. split; [|done].
    destruct (tbl !! ftag) as [e|]; [destruct (canceled e)|]; done.
  - rewrite RememberSyncRequest_unlink_run by by rewrite Htbl.
    eexists _, [_]. split; [done|]. split; [done|]. by repeat constructor.
  - rewrite (RememberSyncRequest_forget_run _ _ _ _ Htbl).
    eexists _, []. split; [done|]. rewrite app_nil_r. done.
Qed.

Lemma AbsorbSyncRequests_no_filter env st :
  no_filter_requests env → is_Some (pendingOps st) →
  ∃ st' news,
    AbsorbSyncRequests env st = (Ret tt, st')
    ∧ pendingUnlinks st' = pendingUnlinks st ++ news
    ∧ Forall (λ e, u_cycle_ctr e = checkpoint_cycle_ctr st) news.
Proof.
  intros Hnf Hsome. unfold AbsorbSyncRequests. mrun.
  set (st1 := set_trace _ _).
  assert (is_Some (pendingOps st1)) as H1 by done.
  change (pendingUnlinks st) with (pendingUnlinks st1).
  change (checkpoint_cycle_ctr st) with (checkpoint_cycle_ctr st1).
  specialize (Hnf (t_absorb (ticks st))).
  clearbody st1. revert st1 H1.
  induction (absorb_feed env (t_absorb (ticks st))) as [|r l IH]; simpl; intros st1 H1.
  { exists st1, []. by rewrite app_nil_r. }
  destruct (RememberSyncRequest_no_filter env r.1 r.2 st1) as (st2 & n1 & Hrun & Hl & Hn);
    [apply Hnf; by left|done|].
  pose proof (RememberSyncRequest_absorbed env r.1 r.2 st1) as Ha. rewrite Hrun in Ha.
  rewrite (bind_Ret _ _ _ _ _ Hrun).
  destruct (IH (λ r' Hr', Hnf r' (list_elem_of_further _ _ _ Hr')) st2) as (st3 & n2 & Hrun3 & Hl3 & Hn3).
  { by apply Ha. }
  exists st3, (n1 ++ n2). split; [done|]. split; [by rewrite Hl3, Hl, <-(assoc_L (++))|].
  apply Forall_app. split; [done|].
  eapply Forall_impl; [exact Hn3|]. simpl. intros e He.
  rewrite He. apply (absorbed_checkpoint_cycle _ _ Ha).
Qed.

Lemma unlinked_head_facts env f entry st :
  let st1 := unlinked_head env f entry st in
  pendingUnlinks st1 = tail (pendingUnlinks st)
  ∧ checkpoint_cycle_ctr st1 = checkpoint_cycle_ctr st
  ∧ pendingOps st1 = pendingOps st
  ∧ unlink_events (trace st1) = unlink_events (trace st) ++ [u_tag entry]
  ∧ log_events (trace st1)
    = log_events (trace st) ++ unlink_warning env (t_unlink (ticks st)) entry
  ∧ sync_events (trace st1) = sync_events (trace st)
  ∧ t_unlink (ticks st1) = S (t_unlink (ticks st))
  ∧ inflightSyncs st1 = inflightSyncs st ∧ retrySyncs st1 = retrySyncs st
  ∧ sync_cycle_ctr st1 = sync_cycle_ctr st
  ∧ sync_state_global st1 = sync_state_global st
  ∧ CheckpointStats st1 = CheckpointStats st.
Proof.
  destruct f. unfold unlinked_head, unlink_warning. cbv zeta.
  destruct (_ && _); simpl;
    rewrite ?unlink_events_app, ?log_events_app, ?sync_events_app; simpl;
    rewrite ?app_nil_r; by repeat split.
Qed.

Lemma SyncPostCheckpoint_loop_run env :
  no_filter_requests env →
  ∀ old fuel c st rest,
    is_Some (pendingOps st) →
    pendingUnlinks st = old ++ rest →
    Forall (λ e, u_cycle_ctr e ≠ checkpoint_cycle_ctr st ∧ has_unlink (u_tag e)) old →
    match rest with [] => True | e :: _ => u_cycle_ctr e = checkpoint_cycle_ctr st end →
    (length old ≤ fuel)%nat →
    ∃ st' news,
      SyncPostCheckpoint_loop env fuel c st = (Ret tt, st')
      ∧ pendingUnlinks st' = rest ++ news
      ∧ Forall (λ e, u_cycle_ctr e = checkpoint_cycle_ctr st) news
      ∧ checkpoint_cycle_ctr st' = checkpoint_cycle_ctr st
      ∧ is_Some (pendingOps st')
      ∧ unlink_events (trace st') = unlink_events (trace st) ++ (u_tag <$> old)
      ∧ log_events (trace st')
        = log_events (trace st) ++ unlink_warnings env (t_unlink (ticks st)) old
      ∧ sync_events (trace st') = sync_events (trace st).
Proof.
  intros Hnf old. induction old as [|e old IH]; intros fuel c st rest Hsome Hl Hold Hrest Hfuel.
  { exists st, []. simpl in *. rewrite !app_nil_r. split; [|done].
    destruct rest as [|r rest].
    - by apply SyncPostCheckpoint_loop_nil.
    - by eapply SyncPostCheckpoint_loop_stop. }
  destruct fuel as [|fuel]; simpl in Hfuel; [lia|].
  apply Forall_cons in Hold as [[Hne [f Hf]] Hold].
  rewrite (SyncPostCheckpoint_loop_step env fuel c st e (old ++ rest)) by done.
  rewrite Hf. cbv zeta.
  destruct (unlinked_head_facts env f e st)
    as (H1 & H2 & H3 & H4 & H5 & H6 & H7 & _).
  set (st1 := unlinked_head env f e st) in *. clearbody st1.
  rewrite Hl in H1. simpl in H1.
  assert (is_Some (pendingOps st1)) as Hsome1 by by rewrite H3.
  assert (∀ st2 rest2,
            is_Some (pendingOps st2) → pendingUnlinks st2 = old ++ rest2 →
            checkpoint_cycle_ctr st2 = checkpoint_cycle_ctr st →
            match rest2 with [] => True | e :: _ => u_cycle_ctr e = checkpoint_cycle_ctr st end →
            unlink_events (trace st2) = unlink_events (trace st1) →
            log_events (trace st2) = log_events (trace st1) →
            sync_events (trace st2) = sync_events (trace st1) →
            t_unlink (ticks st2) = t_unlink (ticks st1) →
            ∀ c2, ∃ st' news,
              SyncPostCheckpoint_loop env fuel c2 st2 = (Ret tt, st')
              ∧ pendingUnlinks st' = rest2 ++ news
              ∧ Forall (λ e, u_cycle_ctr e = checkpoint_cycle_ctr st) news
              ∧ checkpoint_cycle_ctr st' = checkpoint_cycle_ctr st
              ∧ is_Some (pendingOps st')
              ∧ unlink_events (trace st') = unlink_events (trace st) ++ (u_tag <$> e :: old)
              ∧ log_events (trace st')
                = log_events (trace st) ++ unlink_warnings env (t_unlink (ticks st)) (e :: old)
              ∧ sync_events (trace st') = sync_events (trace st)) as Hrec.
  { intros st2 rest2 Hs2 Hl2 Hc2 Hr2 Hu2 Hg2 Hy2 Ht2 c2.
    destruct (IH fuel c2 st2 rest2) as (st' & news & Hrun & Hl' & Hn' & Hc' & Hs' & Hu' & Hg' & Hy');
      [done|done|by rewrite Hc2|by rewrite Hc2|lia|].
    exists st', news. rewrite Hc2 in *. repeat split; try done.
    - by rewrite Hu', Hu2, H4, <-(assoc_L (++)).
    - rewrite Hg', Hg2, H5, Ht2, H7, <-(assoc_L (++)). done.
    - by rewrite Hy', Hy2, H6. }
  destruct (c - 1 <=? 0).
  - destruct (AbsorbSyncRequests_no_filter env st1 Hnf Hsome1) as (st2 & n1 & Hrun & Hl2 & Hn1).
    pose proof (AbsorbSyncRequests_absorbed' env st1) as Ha. rewrite Hrun in Ha. simpl in Ha.
    rewrite (bind_Ret _ _ _ _ _ Hrun).
    destruct (Hrec st2 (rest ++ n1)) with (c2 := UNLINKS_PER_ABSORB)
      as (st' & news & Hrun' & Hl' & Hrest');
      [by apply Ha|by rewrite Hl2, H1, <-(assoc_L (++))
      |by rewrite (absorbed_checkpoint_cycle _ _ Ha)
      | |apply Ha..|].
    { destruct rest; simpl; [|done]. destruct n1; [done|].
      apply Forall_cons in Hn1 as [Hn1 _]. by rewrite Hn1, H2. }
    exists st', (n1 ++ news). split; [done|]. split; [by rewrite Hl', <-(assoc_L (++))|].
    destruct Hrest' as (Hn' & Hrest'). split; [|done].
    apply Forall_app. split; [|done].
    eapply Forall_impl; [exact Hn1|]. simpl. intros; congruence.
  - by apply Hrec.
Qed.

#[global] Instance housekept_preorder : PreOrder housekept.
Proof.
  split.
  - intros st. split; try done.
    + intros k e' He. right. by exists e'.
    + exists (pendingUnlinks st), []. by rewrite app_nil_r.
    + exists []. by rewrite app_nil_r.
  - intros st1 st2 st3 H12 H23. destruct H12, H23. split; try congruence; try by auto.
    + intros k e3 He3.
      destruct (housekept_entries1 k e3 He3) as [Hc | (e2 & He2 & Heq)]; [left; congruence|].
      destruct (housekept_entries0 k e2 He2) as [Hc | (e1 & He1 & Heq1)]; [left; congruence|].
      right. exists e1. split; [done | congruence].
    + destruct housekept_unlinks0 as (kept1 & news1 & E1 & S1 & F1).
      destruct housekept_unlinks1 as (kept2 & news2 & E2 & S2 & F2).
      rewrite E1 in S2. apply sublist_app_r in S2 as (ka & kb & -> & Sa & Sb).
      exists ka, (kb ++ news2). split; [by rewrite E2, <-(assoc_L (++))|].
      split; [by etrans|].
      apply Forall_app. split.
      * rewrite Forall_forall in F1 |- *. intros x Hx.
        eapply F1, elem_of_sublist; done.
      * eapply Forall_impl; [exact F2|]. simpl. intros; congruence.
    + destruct housekept_trace0 as [tr1 E1]. destruct housekept_trace1 as [tr2 E2].
      exists (tr1 ++ tr2). by rewrite E2, E1, <-(assoc_L (++)).
Qed.

Lemma housekept_sync_inv st st' : housekept st st' → sync_inv st → sync_inv st'.
Proof.
  intros [] (Hc & Hr & Hq).
  assert (progressed_entries_like :
            ∀ k e', table_of st' !! k = Some e' →
              cycle_ctr e' = sync_cycle_ctr st'
              ∨ ∃ e, table_of st !! k = Some e ∧ cycle_ctr e' = cycle_ctr e).
  { intros k e' He'. rewrite housekept_sync_cycle0. auto. }
  split; [|split].
  - intros k e' He'. destruct (progressed_entries_like k e' He') as [?|(e & He & Heq)];
      [by left|]. rewrite Heq, housekept_sync_cycle0. by apply (Hc k e).
  - intros e. rewrite housekept_inflight0, housekept_retry0. apply Hr.
  - intros Hp. rewrite housekept_in_progress0 in Hp. destruct (Hq Hp) as (H1 & H2 & H3).
    split; [|split; congruence].
    intros k e' He'. destruct (progressed_entries_like k e' He') as [?|(e & He & Heq)];
      [done|]. rewrite Heq, housekept_sync_cycle0. by apply (H1 k e).
Qed.

Lemma AbsorbSyncRequests_housekept env st : housekept st (AbsorbSyncRequests env st).2.
Proof.
  pose proof (AbsorbSyncRequests_absorbed' env st) as Ha.
  pose proof (AbsorbSyncRequests_trace env st) as [Ht _].
  destruct Ha. split; try done. by eexists.
Qed.

Lemma unlinked_head_housekept env f entry st :
  housekept st (unlinked_head env f entry st).
Proof.
  destruct (unlinked_head_facts env f entry st)
    as (H1 & H2 & H3 & H4 & H5 & H6 & H7 & H8 & H9 & H10 & H11 & H12).
  split; try done; try congruence.
  - unfold table_of. rewrite H3. intros k e' He. right. by exists e'.
  - exists (tail (pendingUnlinks st)), []. rewrite app_nil_r. split; [done|].
    split; [|done]. destruct (pendingUnlinks st); [done|]. by apply sublist_cons.
  - unfold unlinked_head. cbv zeta. destruct (_ && _); simpl.
    + eexists. by rewrite <-(assoc_L (++)).
    + by eexists.
Qed.

Lemma SyncPostCheckpoint_loop_housekept env fuel c st :
  housekept st (SyncPostCheckpoint_loop env fuel c st).2.
Proof.
  revert c st. induction fuel as [|fuel IH]; intros c st.
  - simpl. unfold bind, gets. destruct (pendingUnlinks st); [done|].
    by destruct (_ =? _).
  - destruct (pendingUnlinks st) as [|entry rest] eqn:Hl;
      [by rewrite SyncPostCheckpoint_loop_nil|].
    destruct (decide (u_cycle_ctr entry = checkpoint_cycle_ctr st)) as [Hc|Hc];
      [by erewrite SyncPostCheckpoint_loop_stop|].
    rewrite (SyncPostCheckpoint_loop_step _ _ _ _ _ _ Hl Hc).
    destruct (sync_unlinkfiletag _) as [f|]; [|done]. cbv zeta.
    etrans; [apply (unlinked_head_housekept env f entry)|].
    destruct (c - 1 <=? 0); [|apply IH].
    apply steps_bind; [apply _|apply AbsorbSyncRequests_housekept|].
    intros _ st' _. apply IH.
Qed.

Lemma SyncPostCheckpoint_housekept env st : housekept st (SyncPostCheckpoint env st).2.
Proof. unfold SyncPostCheckpoint. mrun. apply SyncPostCheckpoint_loop_housekept. Qed.

(** The bound SyncPostCheckpoint gives its loop is enough. *)
Lemma sublist_filter_mono {A} (P : A → Prop) `{!∀ x, Decision (P x)} (l1 l2 : list A) :
  sublist l1 l2 → sublist (filter P l1) (filter P l2).
Proof.
  induction 1 as [|x l1 l2 _ IH|x l1 l2 _ IH]; [constructor|..];
    rewrite ?filter_cons; destruct (decide (P x)); by try constructor.
Qed.

Lemma RememberSyncRequest_fueled env ftag type st :
  (RememberSyncRequest env ftag type st).1 ≠ Throw OutOfFuel.
Proof.
  destruct (pendingOps st) as [tbl|] eqn:Htbl;
    [|by rewrite RememberSyncRequest_no_table].
  intros H. by apply (RememberSyncRequest_benign env ftag type st) in H.
Qed.

Lemma AbsorbSyncRequests_fueled env st :
  (AbsorbSyncRequests env st).1 ≠ Throw OutOfFuel.
Proof.
  unfold AbsorbSyncRequests. mrun. generalize (set_trace (trace st ++ [EvAbsorb])
    (set_ticks (bump_absorb (ticks st)) st)).
  induction (absorb_feed env (t_absorb (ticks st))) as [|r l IH]; simpl; intros st1; [done|].
  unfold bind. pose proof (RememberSyncRequest_fueled env r.1 r.2 st1) as H.
  destruct (RememberSyncRequest env r.1 r.2 st1) as [[[]|e] st2]; simpl in *; [apply IH|].
  congruence.
Qed.

Lemma old_unlinks_housekept st st' :
  housekept st st' → (length (old_unlinks st') ≤ length (old_unlinks st))%nat.
Proof.
  intros []. destruct housekept_unlinks0 as (kept & news & E & S & F).
  unfold old_unlinks. rewrite E, housekept_checkpoint_cycle0, filter_app, length_app.
  assert (filter (λ e, u_cycle_ctr e ≠ checkpoint_cycle_ctr st) news = []) as ->.
  { clear -F. induction F as [|x l Hx _ IH]; [done|]. simpl in Hx.
    rewrite filter_cons_False by (intros H; by apply H). done. }
  simpl. rewrite Nat.add_0_r. apply sublist_length. by apply sublist_filter_mono.
Qed.

Lemma SyncPostCheckpoint_loop_fueled env fuel c st :
  (length (old_unlinks st) ≤ fuel)%nat →
  (SyncPostCheckpoint_loop env fuel c st).1 ≠ Throw OutOfFuel.
Proof.
  revert c st. induction fuel as [|fuel IH]; intros c st Hfuel;
    (destruct (pendingUnlinks st) as [|entry rest] eqn:Hl;
      [by rewrite SyncPostCheckpoint_loop_nil|]);
    (destruct (decide (u_cycle_ctr entry = checkpoint_cycle_ctr st)) as [Hc|Hc];
      [by erewrite SyncPostCheckpoint_loop_stop|]).
  - unfold old_unlinks in Hfuel. rewrite Hl, filter_cons_True in Hfuel by done.
    simpl in Hfuel. lia.
  - rewrite (SyncPostCheckpoint_loop_step _ _ _ _ _ _ Hl Hc).
    destruct (sync_unlinkfiletag _) as [f|]; [|done]. cbv zeta.
    assert (length (old_unlinks (unlinked_head env f entry st)) ≤ fuel)%nat as H1.
    { destruct (unlinked_head_facts env f entry st) as (H1 & H2 & _).
      unfold old_unlinks in *. rewrite H1, H2, Hl. simpl.
      rewrite Hl, filter_cons_True in Hfuel by done. simpl in Hfuel. lia. }
    destruct (c - 1 <=? 0); [|by apply IH].
    unfold bind.
    pose proof (AbsorbSyncRequests_fueled env (unlinked_head env f entry st)) as Hf.
    pose proof (AbsorbSyncRequests_housekept env (unlinked_head env f entry st)) as Hh.
    destruct (AbsorbSyncRequests env _) as [[[]|e] st2]; simpl in *; [|congruence].
    apply IH. apply old_unlinks_housekept in Hh. lia.
Qed.

Lemma SyncPostCheckpoint_fueled env st :
  (SyncPostCheckpoint env st).1 ≠ Throw OutOfFuel.
Proof. unfold SyncPostCheckpoint. mrun. by apply SyncPostCheckpoint_loop_fueled. Qed.

(* ===================================================================== *)
(** ** Pattern cancels, exactly *)
(* ===================================================================== *)

Section Filter.

Context (env : Env) (ftag : FileTag) (f : MatchFn).
Hypothesis Hf : sync_filetagmatches (syncsw (handler ftag)) = Some f.

Lemma filter_matches_run cand st :
  filter_matches env ftag cand st = (Ret (pattern_hits env f ftag cand), st).
Proof.
  unfold filter_matches, call_filetagmatches, pattern_hits. rewrite Hf.
  by case_decide; [rewrite bool_decide_eq_true_2|rewrite bool_decide_eq_false_2].
Qed.

Lemma forget_matching_unlinks_run l st :
  forget_matching_unlinks env ftag l st
  = (Ret (filter (λ e, pattern_hits env f ftag (u_tag e) = false) l), st).
Proof.
  induction l as [|x l IH]; simpl; [done|].
  rewrite (bind_Ret _ _ _ _ _ (filter_matches_run (u_tag x) st)).
  rewrite (bind_Ret _ _ _ _ _ IH). unfold ret. f_equal. f_equal.
  rewrite filter_cons. by destruct (pattern_hits env f ftag (u_tag x)).
Qed.

Lemma cancel_if_hit_idemp k e :
  cancel_if_hit env f ftag k (cancel_if_hit env f ftag k e) = cancel_if_hit env f ftag k e.
Proof. unfold cancel_if_hit. by destruct (pattern_hits env f ftag k). Qed.

Lemma lookup_foldl_cancel (l : list FileTag) (t : gmap FileTag PendingFsyncEntry) k :
  foldl (λ t k, alter (cancel_if_hit env f ftag k) k t) t l !! k
  = if decide (k ∈ l) then cancel_if_hit env f ftag k <$> t !! k else t !! k.
Proof.
  revert t. induction l as [|x l IH]; intros t; simpl; [done|].
  rewrite IH. rewrite lookup_alter.
  destruct (decide (x = k)) as [->|Hne].
  - rewrite (decide_True (P := k ∈ k :: l)) by by left.
    destruct (decide (k ∈ l)); [|done].
    destruct (t !! k); simpl; [|done]. by rewrite cancel_if_hit_idemp.
  - destruct (decide (k ∈ l)).
    + by rewrite (decide_True (P := k ∈ x :: l)) by by right.
    + rewrite (decide_False (P := k ∈ x :: l)); [done|]. by intros [?|?]%elem_of_cons.
Qed.

Lemma filter_scan_run (l : list FileTag) st0 (t : gmap FileTag PendingFsyncEntry) :
  forM_ l
    (λ key, cur_tbl ← the_pendingOps;
            match cur_tbl !! key with
            | Some entry =>
                b ← filter_matches env ftag key;
                when b (store_entry key (set_canceled true entry))
            | None => ret tt
            end) (set_pendingOps (Some t) st0)
  = (Ret tt,
     set_pendingOps (Some (foldl (λ t k, alter (cancel_if_hit env f ftag k) k t) t l)) st0).
Proof.
  match goal with |- forM_ _ ?b _ = _ => set (body := b) end.
  assert (∀ k t, body k (set_pendingOps (Some t) st0)
                 = (Ret tt, set_pendingOps (Some (alter (cancel_if_hit env f ftag k) k t)) st0))
    as Hbody.
  { clear t. intros k t. unfold body, bind at 1. unfold the_pendingOps at 1, bind at 1, gets at 1.
    simpl. destruct (t !! k) as [e|] eqn:He.
    - rewrite (bind_Ret _ _ _ _ _ (filter_matches_run k _)).
      destruct (pattern_hits env f ftag k) eqn:Hhit; simpl.
      + mrun. rewrite set_pendingOps_twice. do 3 f_equal. apply map_eq. intros k'.
        rewrite lookup_insert, lookup_alter. case_decide; subst; [|done].
        rewrite He. simpl. unfold cancel_if_hit. by rewrite Hhit.
      + unfold ret. do 3 f_equal. symmetry. apply alter_id. intros x _.
        unfold cancel_if_hit. by rewrite Hhit.
    - unfold ret. do 3 f_equal. symmetry. by apply alter_id'. }
  clearbody body. revert t. induction l as [|k l IH]; intros t; simpl; [done|].
  by rewrite (bind_Ret _ _ _ _ _ (Hbody k t)), IH.
Qed.

Lemma RememberSyncRequest_filter_run st tbl :
  pendingOps st = Some tbl →
  RememberSyncRequest env ftag SYNC_FILTER_REQUEST st
  = (Ret tt,
     set_pendingUnlinks
       (filter (λ e, pattern_hits env f ftag (u_tag e) = false) (pendingUnlinks st))
       (set_pendingOps
          (Some (map_imap (λ k e, Some (cancel_if_hit env f ftag k e)) tbl)) st)).
Proof.
  intros Htbl. unfold RememberSyncRequest.
  rewrite (bind_Ret _ _ st (Some tbl) st) by by unfold gets; rewrite Htbl.
  rewrite (bind_Ret _ _ st tt st) by done.
  unfold hash_seq_scan. unfold bind at 1 2. unfold the_pendingOps at 1, bind at 1, gets at 1.
  rewrite Htbl. simpl.
  rewrite <-(set_pendingOps_same st tbl Htbl) at 1. rewrite filter_scan_run.
  unfold bind at 1, gets at 1. simpl.
  rewrite (bind_Ret _ _ _ _ _ (forget_matching_unlinks_run _ _)).
  unfold modify. do 3 f_equal. f_equal. apply map_eq. intros k.
  rewrite lookup_foldl_cancel, map_lookup_imap.
  case_decide as Hin; [by destruct (tbl !! k)|].
  destruct (tbl !! k) as [e|] eqn:He; [|done].
  exfalso. apply Hin. apply list_elem_of_fmap. exists (k, e). split; [done|].
  by apply elem_of_map_to_list.
Qed.

End Filter.

(* ===================================================================== *)
(** ** The invariant holds in every reachable state *)
(* ===================================================================== *)

Lemma sync_inv_initial owner : sync_inv (InitSync owner initial_state).2.
Proof.
  destruct owner; simpl.
  - split; [|split]; [by intros k e ?|by intros e ?%elem_of_nil|].
    intros _. split; [by intros k e ?|done].
  - split; [|split]; [by intros k e ?|by intros e ?%elem_of_nil|].
    intros _. split; [by intros k e ?|done].
Qed.

Lemma run_call_sync_inv env c st : sync_inv st → sync_inv (run_call env c st).2.
Proof.
  intros Hinv. destruct c as [ftag type| | |]; simpl.
  - eapply absorbed_sync_inv; [apply RememberSyncRequest_absorbed|done].
  - done.
  - pose proof (ProcessSyncRequests_spec env st Hinv) as H.
    destruct (ProcessSyncRequests env st) as [[[]|e] st']; simpl; apply H.
  - eapply housekept_sync_inv; [apply SyncPostCheckpoint_housekept|done].
Qed.

Lemma reachable_sync_inv st : reachable st → sync_inv st.
Proof.
  induction 1 as [owner|env c st _ IH]; [apply sync_inv_initial|by apply run_call_sync_inv].
Qed.

Lemma SyncPostCheckpoint_loop_benign env fuel c st e :
  is_Some (pendingOps st) → (length (old_unlinks st) ≤ fuel)%nat →
  (SyncPostCheckpoint_loop env fuel c st).1 = Throw e → benign e.
Proof.
  revert c st. induction fuel as [|fuel IH]; intros c st Hsome Hfuel;
    (destruct (pendingUnlinks st) as [|entry rest] eqn:Hl;
      [by rewrite SyncPostCheckpoint_loop_nil|]);
    (destruct (decide (u_cycle_ctr entry = checkpoint_cycle_ctr st)) as [Hc|Hc];
      [by erewrite SyncPostCheckpoint_loop_stop|]).
  - unfold old_unlinks in Hfuel. rewrite Hl, filter_cons_True in Hfuel by done.
    simpl in Hfuel. lia.
  - rewrite (SyncPostCheckpoint_loop_step _ _ _ _ _ _ Hl Hc).
    destruct (sync_unlinkfiletag _) as [f|]; [|by intros [= <-]]. cbv zeta.
    pose proof (unlinked_head_housekept env f entry st) as Hh1.
    assert (length (old_unlinks (unlinked_head env f entry st)) ≤ fuel)%nat as H1.
    { destruct (unlinked_head_facts env f entry st) as (H1 & H2 & _).
      unfold old_unlinks in *. rewrite H1, H2, Hl. simpl.
      rewrite Hl, filter_cons_True in Hfuel by done. simpl in Hfuel. lia. }
    pose proof (housekept_table_kept _ _ Hh1 Hsome) as Hsome1.
    destruct (c - 1 <=? 0); [|by apply IH].
    unfold bind.
    pose proof (AbsorbSyncRequests_benign env (unlinked_head env f entry st)) as Hb.
    pose proof (AbsorbSyncRequests_housekept env (unlinked_head env f entry st)) as Hh.
    destruct (AbsorbSyncRequests env _) as [[[]|e'] st2]; simpl in *.
    + apply IH; [by apply Hh|]. apply old_unlinks_housekept in Hh. lia.
    + intros [= <-]. by apply Hb.
Qed.

(** No call from a reachable state fails an assertion or exhausts a loop
    bound of the model, provided the table exists. *)
Lemma run_call_benign env c st e :
  reachable st → is_Some (pendingOps st) →
  (run_call env c st).1 = Throw e → benign e.
Proof.
  intros Hr Hsome. pose proof (reachable_sync_inv st Hr) as Hinv.
  destruct c as [ftag type| | |]; simpl.
  - by apply RememberSyncRequest_benign.
  - done.
  - pose proof (ProcessSyncRequests_spec env st Hinv) as H.
    destruct (ProcessSyncRequests env st) as [[[]|e'] st']; simpl; [done|].
    intros [= <-]. apply H.
  - unfold SyncPostCheckpoint. mrun. by apply SyncPostCheckpoint_loop_benign.
Qed.

(* ===================================================================== *)
(** ** The sync calls a pass makes *)
(* ===================================================================== *)




#[global] Instance extends_preorder : PreOrder extends.
Proof.
  split.
  - intros st. exists []. by rewrite app_nil_r.
  - intros st1 st2 st3 [tr1 H1] [tr2 H2]. exists (tr1 ++ tr2).
    by rewrite H2, H1, <-(assoc_L (++)).
Qed.

Lemma extends_same st st' : trace st' = trace st → extends st st'.
Proof. intros H. exists []. by rewrite app_nil_r. Qed.

Lemma SyncRequestCompleted_extends env i success err st :
  extends st (SyncRequestCompleted env i success err st).2.
Proof.
  destruct (inflightSyncs st !! i) as [ie|] eqn:Hi;
    [|by rewrite SyncRequestCompleted_bad_index].
  destruct success.
  - rewrite (SyncRequestCompleted_success _ _ _ _ _ Hi). cbv zeta.
    destruct (log_checkpoints env);
      (destruct (pendingOps st) as [tbl|]; [destruct (tbl !! hash_entry ie)|]); simpl;
      first [by apply extends_same | by eexists].
  - rewrite (SyncRequestCompleted_failure _ _ _ _ _ Hi). cbv zeta.
    destruct (negb _ || _); simpl; first [by apply extends_same | by eexists].
Qed.

Lemma call_syncfiletag_extends env ie st : extends st (call_syncfiletag env ie st).2.
Proof.
  unfold call_syncfiletag, call_sync. mrun.
  etrans; [|apply (steps_forM extends)].
  - by eexists.
  - intros i st' _. unfold deliver_completion. mrun. case_decide; [|done].
    etrans; [|apply SyncRequestCompleted_extends]. by apply extends_same.
Qed.

Lemma RetrySyncRequests_loop_extends env fuel st :
  extends st (RetrySyncRequests_loop env fuel st).2.
Proof.
  revert st. induction fuel as [|fuel IH]; intros st.
  - simpl. unfold bind, gets. by destruct (retrySyncs st).
  - destruct (retrySyncs st) as [|ie rest] eqn:Hq;
      [by rewrite RetrySyncRequests_loop_nil|].
    rewrite (RetrySyncRequests_loop_step _ _ _ _ _ Hq). cbv zeta.
    destruct (pendingOps st) as [tbl|] eqn:Htbl; [|by apply extends_same].
    destruct (tbl !! hash_entry ie) as [entry|]; [|by apply extends_same].
    destruct (canceled entry).
    + etrans; [|apply IH]. by apply extends_same.
    + destruct (retry_count ie <=? 5); [|by apply extends_same].
      etrans; [apply (extends_same st (set_retrySyncs rest st)); done|].
      apply steps_bind; [apply _|apply call_syncfiletag_extends|].
      intros _ st' _. apply IH.
Qed.

Lemma stamped_hash_entry env ie st : hash_entry (stamped env ie st) = hash_entry ie.
Proof. done. Qed.

(** The while loop of RetrySyncRequests calls sync only for requests
    whose owner is not canceled, and absorbs nothing. *)
Lemma RetrySyncRequests_loop_syncs env fuel st :
  ∃ subs,
    sync_events (trace (RetrySyncRequests_loop env fuel st).2) = sync_events (trace st) ++ subs
    ∧ Forall (owner_not_canceled st) subs
    ∧ absorb_events (trace (RetrySyncRequests_loop env fuel st).2) = absorb_events (trace st).
Proof.
  revert st. induction fuel as [|fuel IH]; intros st.
  { exists []. rewrite app_nil_r. simpl. unfold bind, gets.
    by destruct (retrySyncs st). }
  destruct (retrySyncs st) as [|ie rest] eqn:Hq.
  { rewrite RetrySyncRequests_loop_nil by done. exists []. by rewrite app_nil_r. }
  rewrite (RetrySyncRequests_loop_step _ _ _ _ _ Hq). cbv zeta.
  destruct (pendingOps st) as [tbl|] eqn:Htbl;
    [|exists []; by rewrite app_nil_r].
  destruct (tbl !! hash_entry ie) as [entry|] eqn:He;
    [|exists []; by rewrite app_nil_r].
  destruct (canceled entry) eqn:Hc.
  - destruct (IH (set_pendingOps (Some (delete (hash_entry ie) tbl)) (set_retrySyncs rest st)))
      as (subs & H1 & H2 & H3).
    exists subs. split; [done|]. split; [|done].
    eapply Forall_impl; [exact H2|]. intros p (pe & Hpe & Hpc). exists pe. split; [|done].
    unfold table_of in *. simpl in Hpe. rewrite Htbl. simpl.
    by apply lookup_delete_Some in Hpe as [_ ?].
  - destruct (retry_count ie <=? 5); [|exists []; by rewrite app_nil_r].
    pose proof (call_syncfiletag_completed env ie (set_retrySyncs rest st)) as Hcomp.
    unfold bind.
    destruct (call_syncfiletag env ie (set_retrySyncs rest st)) as [[[]|e] st2]; simpl in *.
    + destruct (IH st2) as (subs & H1 & H2 & H3).
      exists ((sync_syncfiletag (syncsw (handler (tag ie))),
               stamped env ie (set_retrySyncs rest st)) :: subs).
      split; [|split].
      * rewrite H1, (completed_syncs _ _ Hcomp), submitted_sync_events.
        by rewrite <-(assoc_L (++)).
      * constructor.
        { exists entry. split; [|done]. unfold table_of. by rewrite Htbl. }
        eapply Forall_impl; [exact H2|]. intros p (pe & Hpe & Hpc). exists pe.
        split; [|done]. by apply (completed_entries _ _ Hcomp) in Hpe.
      * rewrite H3, (completed_absorbs _ _ Hcomp). simpl.
        by rewrite absorb_events_app, Nat.add_0_r.
    + eexists [_]. split; [|split].
      * by rewrite (completed_syncs _ _ Hcomp), submitted_sync_events.
      * constructor; [|done]. exists entry. split; [|done]. unfold table_of. by rewrite Htbl.
      * rewrite (completed_absorbs _ _ Hcomp). simpl.
        by rewrite absorb_events_app, Nat.add_0_r.
Qed.

(** RetrySyncRequests with entries to retry: the absorb comes first, and
    sync is then called only for requests whose owner is not canceled
    after that absorb. *)
Lemma RetrySyncRequests_syncs env st :
  retrySyncs st ≠ [] →
  let st1 := (AbsorbSyncRequests env st).2 in
  ∃ tr subs,
    trace (RetrySyncRequests env st).2 = trace st ++ EvAbsorb :: tr
    ∧ absorb_events tr = 0%nat
    ∧ sync_events tr = subs
    ∧ Forall (owner_not_canceled st1) subs.
Proof.
  intros Hne. cbv zeta. unfold RetrySyncRequests, bind at 1, gets at 1.
  destruct (retrySyncs st) as [|ie rest] eqn:Hq; [done|].
  pose proof (AbsorbSyncRequests_trace env st) as [Ht _].
  unfold bind at 1. destruct (AbsorbSyncRequests env st) as [[[]|e] st1]; simpl in *.
  2: { exists [], []. by rewrite Ht. }
  unfold bind at 1, modify_sync_state, modify. simpl.
  unfold bind at 1, gets at 1.
  set (st2 := set_sync_state_global _ st1).
  destruct (RetrySyncRequests_loop_syncs env (retry_fuel (id st2)) st2) as (subs & H1 & H2 & H3).
  destruct (RetrySyncRequests_loop_extends env (retry_fuel (id st2)) st2) as [tr Htr].
  exists tr, subs. rewrite Htr. simpl. rewrite Ht, <-(assoc_L (++)). split; [done|].
  rewrite Htr in H1, H3. simpl in H1, H3.
  rewrite sync_events_app in H1. apply app_inv_head in H1.
  rewrite absorb_events_app in H3. split; [lia|]. split; [done|]. done.
Qed.

(* ===================================================================== *)
(** ** The main theorems *)
(* ===================================================================== *)

(** *** pgstat_send_bgwriter *)

Lemma all_zeroes_counters (msg : PgStat_MsgBgWriter) :
  m_hdr msg = m_hdr (all_zeroes 0) →
  msg = all_zeroes (length (m_counters msg)) ↔ Forall (λ c, c = 0) (m_counters msg).
Proof.
  destruct msg as [hdr cs]. simpl. intros ->. unfold all_zeroes. split.
  - intros [= H]. rewrite H. by apply Forall_replicate.
  - intros H. f_equal. symmetry. apply replicate_as_Forall. split; [done|].
    eapply Forall_impl; [exact H|]. by intros c ->.
Qed.

(** C10.  pgstat_send_bgwriter sends a message exactly when the pending
    buffer differs from the all-zeroes structure.  If the buffer is all
    zeroes nothing is sent and the buffer stays as it is; otherwise one
    message is handed to pgstat_send, carrying the pending counters under
    the bgwriter message type, and the buffer is reset to all zeroes.
    With the header zeroed, as the static initializer and every earlier
    call leave it, the buffer is all zeroes exactly when every counter is
    zero. *)
Theorem pgstat_send_bgwriter_sends_iff_nonzero (mtype : Z) (s : PgStatState) :
  pgstat_is_up s = true →
  let pending := PendingBgWriterStats s in
  let n := length (m_counters pending) in
  ∃ s',
    pgstat_send_bgwriter mtype s = Some s'
    ∧ (pending = all_zeroes n → s' = s)
    ∧ (pending ≠ all_zeroes n →
         pgstat_sent s' = pgstat_sent s ++ [pgstat_setheader mtype pending]
         ∧ m_counters (pgstat_setheader mtype pending) = m_counters pending
         ∧ m_type (m_hdr (pgstat_setheader mtype pending)) = mtype
         ∧ PendingBgWriterStats s' = all_zeroes n)
    ∧ (pgstat_sent s' = pgstat_sent s ↔ pending = all_zeroes n)
    ∧ (m_hdr pending = m_hdr (all_zeroes n) →
         (pending = all_zeroes n ↔ Forall (λ c, c = 0) (m_counters pending))
         ∧ m_hdr (PendingBgWriterStats s') = m_hdr (all_zeroes n))
    ∧ length (m_counters (PendingBgWriterStats s')) = n.
Proof.
  intros Hup pending n. unfold pgstat_send_bgwriter. rewrite Hup. fold pending. fold n.
  case_bool_decide as Hz.
  - exists s. split; [done|]. split; [done|]. split; [done|]. split; [done|].
    split; [|done]. intros Hh. split; [|done]. by apply all_zeroes_counters.
  - eexists. split; [done|]. split; [done|]. simpl. split; [done|]. split.
    + split; [|done]. intros H. exfalso.
      apply (f_equal length) in H. rewrite length_app in H. simpl in H. lia.
    + split.
      * intros Hh. split; [|done]. by apply all_zeroes_counters.
      * apply length_replicate.
Qed.

(** The theorem at a buffer with one counter set. *)
Lemma pgstat_send_bgwriter_sends_iff_nonzero_witness :
  ∃ s', pgstat_send_bgwriter 7
          {| PendingBgWriterStats :=
               {| m_hdr := {| m_type := 0; m_size := 0 |}; m_counters := [0; 3; 0] |};
             pgstat_sent := []; pgstat_is_up := true |} = Some s'
        ∧ pgstat_sent s'
          = [ {| m_hdr := {| m_type := 7; m_size := 0 |}; m_counters := [0; 3; 0] |} ].
Proof.
  destruct (pgstat_send_bgwriter_sends_iff_nonzero 7
              {| PendingBgWriterStats :=
                   {| m_hdr := {| m_type := 0; m_size := 0 |}; m_counters := [0; 3; 0] |};
                 pgstat_sent := []; pgstat_is_up := true |} eq_refl)
    as (s' & Hrun & _ & Hsent & _).
  exists s'. split; [exact Hrun|]. apply Hsent. discriminate.
Defined.

(** *** RememberSyncRequest *)

(** C2.  An fsync request for a tag that has a live (not canceled) entry
    changes nothing: the table keeps its one entry for the tag, with the
    cycle_ctr of the earlier request.  If there is no entry for the tag,
    or the entry is canceled, the entry becomes one stamped with the
    current sync_cycle_ctr and not canceled.  In particular a ForgetOne
    followed by an fsync request for the same tag leaves an entry with the
    current sync_cycle_ctr and canceled = false, the other entries being
    as before. *)
Theorem RememberSyncRequest_fsync_dedup (env : Env) (st : State)
    (tbl : gmap FileTag PendingFsyncEntry) (ftag : FileTag) :
  pendingOps st = Some tbl →
  (∀ e, tbl !! ftag = Some e → canceled e = false →
        RememberSyncRequest env ftag SYNC_REQUEST st = (Ret tt, st))
  ∧ (tbl !! ftag = None ∨ (∃ e, tbl !! ftag = Some e ∧ canceled e = true) →
        RememberSyncRequest env ftag SYNC_REQUEST st
        = (Ret tt, set_pendingOps (Some (<[ftag := fresh_entry st]> tbl)) st))
  ∧ (∃ st1 st2 tbl2,
        RememberSyncRequest env ftag SYNC_FORGET_REQUEST st = (Ret tt, st1)
        ∧ RememberSyncRequest env ftag SYNC_REQUEST st1 = (Ret tt, st2)
        ∧ pendingOps st2 = Some tbl2
        ∧ tbl2 !! ftag = Some (fresh_entry st)
        ∧ ∀ k, k ≠ ftag → tbl2 !! k = tbl !! k).
Proof.
  intros Htbl. split; [|split].
  - intros e He Hc. rewrite (RememberSyncRequest_fsync_run _ _ _ _ Htbl), He, Hc. done.
  - intros H. rewrite (RememberSyncRequest_fsync_run _ _ _ _ Htbl).
    destruct H as [-> | (e & -> & ->)]; done.
  - set (tbl1 := alter (set_canceled true) ftag tbl).
    set (st1 := set_pendingOps (Some tbl1) st).
    exists st1, (set_pendingOps (Some (<[ftag := fresh_entry st]> tbl1)) st1),
      (<[ftag := fresh_entry st]> tbl1).
    split; [by apply RememberSyncRequest_forget_run|].
    split.
    + rewrite (RememberSyncRequest_fsync_run _ st1 tbl1) by done.
      unfold tbl1 at 1. rewrite lookup_alter_eq.
      destruct (tbl !! ftag) as [e|]; done.
    + split; [done|]. split; [apply lookup_insert_eq|].
      intros k Hk. rewrite lookup_insert_ne by done. unfold tbl1.
      by rewrite lookup_alter_ne.
Qed.

(** The theorem at a table that holds a live entry for [T1]: a second
    request for [T1] changes nothing. *)
Lemma RememberSyncRequest_fsync_dedup_witness :
  RememberSyncRequest quiet_env T1 SYNC_REQUEST one_request_state
  = (Ret tt, one_request_state).
Proof.
  exact (proj1 (RememberSyncRequest_fsync_dedup quiet_env one_request_state
                  {[ T1 := {| cycle_ctr := 0; canceled := false |} ]} T1 eq_refl)
           {| cycle_ctr := 0; canceled := false |} (lookup_singleton_eq _ _) eq_refl).
Defined.

(** C7.  The cancel requests never delete an entry of the pending-ops
    table.  ForgetOne sets canceled on the entry of the tag and changes
    nothing else; with no entry for the tag it changes nothing at all.
    ForgetMatching, for a handler that has a match predicate, sets
    canceled on exactly the entries whose tag has the pattern's handler
    and satisfies the predicate, and removes exactly the pending unlinks
    of such tags; every other entry of the table and of the list is as
    before, and so is the rest of the state. *)
Theorem RememberSyncRequest_cancel (env : Env) (st : State)
    (tbl : gmap FileTag PendingFsyncEntry) (ftag : FileTag) :
  pendingOps st = Some tbl →
  RememberSyncRequest env ftag SYNC_FORGET_REQUEST st
  = (Ret tt, set_pendingOps (Some (alter (set_canceled true) ftag tbl)) st)
  ∧ (tbl !! ftag = None →
       RememberSyncRequest env ftag SYNC_FORGET_REQUEST st = (Ret tt, st))
  ∧ (∀ f, sync_filetagmatches (syncsw (handler ftag)) = Some f →
       let tbl' := map_imap (λ k e, Some (cancel_if_hit env f ftag k e)) tbl in
       RememberSyncRequest env ftag SYNC_FILTER_REQUEST st
       = (Ret tt,
          set_pendingUnlinks
            (filter (λ e, pattern_hits env f ftag (u_tag e) = false) (pendingUnlinks st))
            (set_pendingOps (Some tbl') st))
       ∧ ∀ k, tbl' !! k = cancel_if_hit env f ftag k <$> tbl !! k)
  ∧ (∀ type k, type = SYNC_FORGET_REQUEST ∨ type = SYNC_FILTER_REQUEST →
       is_Some (tbl !! k) →
       is_Some (table_of (RememberSyncRequest env ftag type st).2 !! k)).
Proof.
  intros Htbl. split; [|split; [|split]].
  - by apply RememberSyncRequest_forget_run.
  - intros Hnone. rewrite (RememberSyncRequest_forget_run _ _ _ _ Htbl).
    rewrite alter_id' by done. by rewrite set_pendingOps_same.
  - intros f Hf tbl'. split.
    + by apply RememberSyncRequest_filter_run.
    + intros k. unfold tbl'. rewrite map_lookup_imap. by destruct (tbl !! k).
  - intros type k _ Hk.
    apply (absorbed_dom _ _ (RememberSyncRequest_absorbed env ftag type st)).
    unfold table_of. by rewrite Htbl.
Qed.

(** The theorem at [busy_state], for a pattern that matches [T1] only:
    the entry of [T1] is canceled and stays, the pending unlink of [T1]
    goes. *)
Lemma RememberSyncRequest_cancel_witness :
  ∃ st', RememberSyncRequest quiet_env T1 SYNC_FILTER_REQUEST busy_state = (Ret tt, st')
         ∧ table_of st' !! T1 = Some {| cycle_ctr := 0; canceled := true |}
         ∧ table_of st' !! T2 = Some {| cycle_ctr := 0; canceled := false |}
         ∧ pendingUnlinks st' = [ {| u_tag := T2; u_cycle_ctr := 0 |} ].
Proof.
  pose proof (proj1 (proj1 (proj2 (proj2 (RememberSyncRequest_cancel quiet_env busy_state
                _ T1 eq_refl))) mdfiletagmatches eq_refl)) as Hrun.
  eexists. split; [exact Hrun|]. clear Hrun. vm_compute. repeat split; reflexivity.
Defined.

(** *** ProcessSyncRequests: entry in progress, and the end of a pass *)

(** C1 does not hold of the code.  Entered with sync_in_progress set,
    ProcessSyncRequests does not go on to a pass: it stops with the PANIC
    "not implemented right now", and the stale entry of [T1] keeps its
    cycle_ctr 3 while sync_cycle_ctr is 5. *)
Lemma ProcessSyncRequests_stale_reset_counterexample :
  sync_in_progress (sync_state_global stale_state) = true
  ∧ (ProcessSyncRequests quiet_env stale_state).1
    = Throw (Ereport PANIC "not implemented right now")
  ∧ ¬ (∃ st', ProcessSyncRequests quiet_env stale_state = (Ret tt, st'))
  ∧ table_of (ProcessSyncRequests quiet_env stale_state).2 !! T1
    = Some {| cycle_ctr := 3; canceled := false |}
  ∧ sync_cycle_ctr (ProcessSyncRequests quiet_env stale_state).2 = 5.
Proof.
  assert ((ProcessSyncRequests quiet_env stale_state).1
          = Throw (Ereport PANIC "not implemented right now")) as H
    by (vm_compute; reflexivity).
  split; [reflexivity|]. split; [exact H|]. split.
  - intros [st' Hst']. rewrite Hst' in H. discriminate H.
  - clear H. vm_compute. split; reflexivity.
Qed.

(** C1, amended.  If ProcessSyncRequests is entered while sync_in_progress
    is true (and the table exists), it absorbs the queued requests and
    then stops with the PANIC "not implemented right now": the state is
    the one the absorb left, no cycle_ctr is reset, sync_cycle_ctr is not
    advanced and no sync is submitted. *)
Theorem ProcessSyncRequests_in_progress_panics (env : Env) (st : State) :
  is_Some (pendingOps st) →
  sync_in_progress (sync_state_global st) = true →
  ProcessSyncRequests env st
  = match AbsorbSyncRequests env st with
    | (Ret _, st1) => (Throw (Ereport PANIC "not implemented right now"), st1)
    | (Throw e, st1) => (Throw e, st1)
    end
  ∧ (∀ a, (ProcessSyncRequests env st).1 ≠ Ret a)
  ∧ sync_cycle_ctr (ProcessSyncRequests env st).2 = sync_cycle_ctr st
  ∧ sync_events (trace (ProcessSyncRequests env st).2) = sync_events (trace st).
Proof.
  intros [tbl Htbl] Hp.
  assert (ProcessSyncRequests env st
          = match AbsorbSyncRequests env st with
            | (Ret _, st1) => (Throw (Ereport PANIC "not implemented right now"), st1)
            | (Throw e, st1) => (Throw e, st1)
            end) as Hrun.
  { unfold ProcessSyncRequests, bind at 1. rewrite ProcessSyncRequests_start_run, Htbl.
    pose proof (absorbed_in_progress _ _ (AbsorbSyncRequests_absorbed' env st)) as Ha.
    destruct (AbsorbSyncRequests env st) as [[[]|e] st1]; simpl in *; [|done].
    by rewrite Ha, Hp. }
  split; [exact Hrun|]. rewrite Hrun.
  pose proof (AbsorbSyncRequests_absorbed' env st) as Ha.
  destruct (AbsorbSyncRequests env st) as [[[]|e] st1]; simpl in *;
    (split; [done|]); split; apply Ha.
Qed.

(** The theorem at [stale_state]. *)
Lemma ProcessSyncRequests_in_progress_panics_witness :
  ProcessSyncRequests quiet_env stale_state
  = match AbsorbSyncRequests quiet_env stale_state with
    | (Ret _, st1) => (Throw (Ereport PANIC "not implemented right now"), st1)
    | (Throw e, st1) => (Throw e, st1)
    end.
Proof.
  exact (proj1 (ProcessSyncRequests_in_progress_panics quiet_env stale_state
                  (mk_is_Some _ _ eq_refl) eq_refl)).
Defined.

Lemma ProcessSyncRequests_until_checks_frame env st :
  let r := ProcessSyncRequests_until_checks env st in
  CheckpointStats r.2 = CheckpointStats st
  ∧ (sync_in_progress (sync_state_global r.2) = true
     ∨ sync_in_progress (sync_state_global r.2) = sync_in_progress (sync_state_global st)).
Proof.
  cbv zeta.
  assert (ProcessSyncRequests_until_checks env st
          = match ProcessSyncRequests_start env st with
            | (Ret _, st1) =>
                bind (ProcessSyncRequests_scan env)
                  (λ _, bind (pg_streaming_write_wait_all env)
                          (λ _, ProcessSyncRequests_retries env)) st1
            | (Throw e, st1) => (Throw e, st1)
            end) as -> by reflexivity.
  rewrite ProcessSyncRequests_start_run.
  destruct (pendingOps st) as [tbl|]; [|simpl; split; [done|by right]].
  pose proof (AbsorbSyncRequests_absorbed' env st) as Ha.
  destruct (AbsorbSyncRequests env st) as [[[]|e] st1]; simpl in Ha.
  2: { split; [apply Ha|right; apply Ha]. }
  destruct (sync_in_progress (sync_state_global st1)) eqn:Hp.
  { split; [apply Ha|by left]. }
  assert (progressed (begin_pass st1)
            (bind (ProcessSyncRequests_scan env)
               (λ _, bind (pg_streaming_write_wait_all env)
                       (λ _, ProcessSyncRequests_retries env)) (begin_pass st1)).2) as Hpr.
  { apply steps_bind; [apply _|apply ProcessSyncRequests_scan_progressed|].
    intros _ st2 _. apply steps_bind; [apply _| |].
    - apply completed_progressed, pg_streaming_write_wait_all_completed.
    - intros _ st3 _. apply ProcessSyncRequests_retries_progressed. }
  split.
  - rewrite (progressed_stats _ _ Hpr). simpl. apply Ha.
  - left. by rewrite (progressed_in_progress _ _ Hpr).
Qed.

(** C9.  ProcessSyncRequests ends with the two emptiness checks: it is
    its work up to the checks followed by them.  If the in-flight queue
    or the retry queue is not empty at that point the process panics, and
    only if both are empty are the statistics exported and sync_in_progress
    cleared.  So when a pass returns, both queues are empty, the flag is
    clear and the checkpoint statistics are those of the pass; and when it
    does not return, the checkpoint statistics are untouched and the flag
    is still set if the pass had begun. *)
Theorem ProcessSyncRequests_end_checks (env : Env) (st : State) :
  ProcessSyncRequests env st
  = bind (ProcessSyncRequests_until_checks env) (λ _, ProcessSyncRequests_finish) st
  ∧ (∀ st1, inflightSyncs st1 ≠ [] ∨ retrySyncs st1 ≠ [] →
       ProcessSyncRequests_finish st1
       = (Throw (Ereport PANIC "inflight sync requests corrupted"), st1))
  ∧ (∀ st1, inflightSyncs st1 = [] → retrySyncs st1 = [] →
       ProcessSyncRequests_finish st1 = (Ret tt, end_pass st1))
  ∧ (∀ st', ProcessSyncRequests env st = (Ret tt, st') →
       inflightSyncs st' = [] ∧ retrySyncs st' = []
       ∧ sync_in_progress (sync_state_global st') = false
       ∧ CheckpointStats st'
         = {| ckpt_sync_rels := processed (sync_state_global st');
              ckpt_longest_sync := longest (sync_state_global st');
              ckpt_agg_sync_time := total_elapsed (sync_state_global st') |})
  ∧ (∀ e st', ProcessSyncRequests env st = (Throw e, st') →
       CheckpointStats st' = CheckpointStats st
       ∧ (sync_in_progress (sync_state_global st') = true
          ∨ sync_in_progress (sync_state_global st')
            = sync_in_progress (sync_state_global st))).
Proof.
  split; [apply ProcessSyncRequests_split|].
  split; [|split].
  - intros st1 H. rewrite ProcessSyncRequests_finish_run.
    destruct (inflightSyncs st1), (retrySyncs st1); try done. by destruct H.
  - intros st1 H1 H2. by rewrite ProcessSyncRequests_finish_run, H1, H2.
  - rewrite ProcessSyncRequests_split. unfold bind.
    pose proof (ProcessSyncRequests_until_checks_frame env st) as [Hs Hp].
    destruct (ProcessSyncRequests_until_checks env st) as [[[]|e] st1]; simpl in *.
    + rewrite ProcessSyncRequests_finish_run.
      destruct (inflightSyncs st1) eqn:Hi, (retrySyncs st1) eqn:Hr.
      * split; [by intros st' [= <-]|]. intros e st' [=].
      * split; [intros st' [=]|]. by intros e st' [= <- <-].
      * split; [intros st' [=]|]. by intros e st' [= <- <-].
      * split; [intros st' [=]|]. by intros e st' [= <- <-].
    + split; [intros st' [=]|]. by intros e' st' [= <- <-].
Qed.

(** The theorem at [one_request_state]: the pass returns with both queues
    empty and the flag cleared. *)
Lemma ProcessSyncRequests_end_checks_witness :
  inflightSyncs (ProcessSyncRequests quiet_env one_request_state).2 = []
  ∧ retrySyncs (ProcessSyncRequests quiet_env one_request_state).2 = []
  ∧ sync_in_progress
      (sync_state_global (ProcessSyncRequests quiet_env one_request_state).2) = false.
Proof.
  assert (ProcessSyncRequests quiet_env one_request_state
          = (Ret tt, (ProcessSyncRequests quiet_env one_request_state).2)) as Hrun
    by (vm_compute; exact eq_refl).
  pose proof (proj1 (proj2 (proj2 (proj2
                (ProcessSyncRequests_end_checks quiet_env one_request_state)))) _ Hrun) as H.
  exact (conj (proj1 H) (conj (proj1 (proj2 H)) (proj1 (proj2 (proj2 H))))).
Defined.

(** *** SyncRequestCompleted: a failed flush *)

(** C4.  For a failed flush of the in-flight entry [ie] (with a retry
    count that is not negative), SyncRequestCompleted returns, having
    logged at DEBUG1 and queued the entry for a retry with its retry
    count incremented, if and only if the errno is one of the
    possibly-deleted codes and the retry count is 0.  Any other failure
    is raised as a data-sync error at the configured level (ERROR with
    data_sync_retry, PANIC without), which is fatal to the pass; this
    holds in particular for an entry at the cap of 5.  And in every state
    the process can reach, no entry in flight or waiting for a retry has
    a retry count above 5. *)
Theorem SyncRequestCompleted_failure_policy
    (env : Env) (i : nat) (err : Z) (st : State) (ie : InflightSyncEntry) :
  inflightSyncs st !! i = Some ie →
  0 ≤ retry_count ie →
  let r := SyncRequestCompleted env i false err st in
  let st1 := set_inflightSyncs (delete i (inflightSyncs st)) st in
  ((FILE_POSSIBLY_DELETED env err = true ∧ retry_count ie = 0) ↔ r.1 = Ret tt)
  ∧ (FILE_POSSIBLY_DELETED env err = true ∧ retry_count ie = 0 →
       r = (Ret tt,
            set_retrySyncs (retrySyncs st ++ [set_retry_count (retry_count ie + 1) ie])
              (set_trace
                 (trace st ++
                    [EvLog DEBUG1 "could not fsync file %s but retrying: %m" (Some (tag ie))])
                 st1)))
  ∧ (¬ (FILE_POSSIBLY_DELETED env err = true ∧ retry_count ie = 0) →
       r = (Throw (Ereport (if data_sync_retry env then ERROR else PANIC)
                     "could not fsync file %s: %m"), st1)
       ∧ is_fatal (if data_sync_retry env then ERROR else PANIC) = true)
  ∧ (retry_count ie = 5 →
       r.1 = Throw (Ereport (data_sync_elevel env ERROR) "could not fsync file %s: %m"))
  ∧ (∀ st', reachable st' →
       ∀ e, e ∈ inflightSyncs st' ++ retrySyncs st' → 0 ≤ retry_count e ≤ 5).
Proof.
  intros Hi Hrc r st1. subst r st1.
  assert (∀ st', reachable st' →
            ∀ e, e ∈ inflightSyncs st' ++ retrySyncs st' → 0 ≤ retry_count e ≤ 5) as Hreach.
  { intros st' Hst' e He.
    destruct (reachable_sync_inv st' Hst') as (_ & Hok & _).
    specialize (Hok e He). lia. }
  rewrite (SyncRequestCompleted_failure env i err st ie Hi). cbv zeta.
  unfold data_sync_elevel.
  assert (is_fatal (if data_sync_retry env then ERROR else PANIC) = true) as Hfatal
    by (by destruct (data_sync_retry env)).
  destruct (FILE_POSSIBLY_DELETED env err) eqn:Hd; simpl.
  - destruct (0 <? retry_count ie) eqn:Hlt; simpl.
    + apply Z.ltb_lt in Hlt. split_and!; try done.
      * split; [intros [_ ?]; lia|done].
      * intros [_ ?]; lia.
    + apply Z.ltb_ge in Hlt. split_and!; try done.
      * split; [done|]. intros _. split; [done|lia].
      * intros Hn. destruct Hn. split; [done|lia].
      * intros ?; lia.
  - split_and!; try done.
    + split; [by intros []|done].
    + by intros [].
Qed.

(** The theorem at [inflight_state]: the first failure with the
    possibly-deleted errno 2 queues the entry for a retry. *)
Lemma SyncRequestCompleted_failure_policy_witness :
  SyncRequestCompleted quiet_env 0 false 2 inflight_state
  = (Ret tt,
     set_retrySyncs [set_retry_count 1 (new_inflight_entry T1)]
       (set_trace
          [EvLog DEBUG1 "could not fsync file %s but retrying: %m" (Some T1)]
          (set_inflightSyncs [] inflight_state))).
Proof.
  exact (proj1 (proj2 (SyncRequestCompleted_failure_policy quiet_env 0 2 inflight_state
                         (new_inflight_entry T1) eq_refl ltac:(simpl; lia)))
           (conj eq_refl eq_refl)).
Defined.

(** *** The retry bank *)

Lemma RetrySyncRequests_run env st :
  RetrySyncRequests env st
  = match retrySyncs st with
    | [] => (Ret tt, st)
    | _ :: _ =>
        match AbsorbSyncRequests env st with
        | (Ret _, st1) =>
            let st2 :=
              set_sync_state_global
                (set_absorb_counter FSYNCS_PER_ABSORB (sync_state_global st1)) st1 in
            RetrySyncRequests_loop env (retry_fuel st2) st2
        | (Throw e, st1) => (Throw e, st1)
        end
    end.
Proof.
  unfold RetrySyncRequests, bind at 1, gets at 1.
  destruct (retrySyncs st); [done|].
  unfold bind at 1. by destruct (AbsorbSyncRequests env st) as [[[]|e] st1].
Qed.

Lemma RetrySyncRequests_absorbs env st :
  (absorb_events (trace (RetrySyncRequests env st).2) ≤ absorb_events (trace st) + 1)%nat.
Proof.
  destruct (retrySyncs st) as [|ie rest] eqn:Hq.
  - rewrite RetrySyncRequests_run, Hq. simpl. lia.
  - destruct (RetrySyncRequests_syncs env st) as (tr & subs & Ht & Ha & _);
      [by rewrite Hq|].
    rewrite Ht, absorb_events_app. change (EvAbsorb :: tr) with ([EvAbsorb] ++ tr).
    rewrite absorb_events_app, Ha. simpl. lia.
Qed.

Lemma forM_absorbs {A} (f : A → M unit) l st :
  (∀ x st, (absorb_events (trace (f x st).2) ≤ absorb_events (trace st) + 1)%nat) →
  (absorb_events (trace (forM_ l f st).2) ≤ absorb_events (trace st) + length l)%nat.
Proof.
  intros Hf. revert st. induction l as [|x l IH]; intros st; simpl; [lia|].
  unfold bind. specialize (Hf x st).
  destruct (f x st) as [[[]|e] st1]; simpl in *; [|lia].
  specialize (IH st1). lia.
Qed.

(** C5.  The retry bank is five calls of RetrySyncRequests, so it
    absorbs at most five times.  A call with an empty retry queue does
    nothing.  A call with a non-empty retry queue first calls
    AbsorbSyncRequests and then runs the loop over the retry queue, in
    which nothing more is absorbed and the handler's sync is called only
    for requests whose owning entry is not canceled after that absorb.
    For the entry at the head of the retry queue the loop re-reads the
    owner's canceled flag: if it is set the owner is removed from the
    table and the loop goes on without a sync call for the entry, and
    otherwise the entry is resubmitted by call_syncfiletag, which calls
    the handler's sync once.  In a pass no assertion fails in the retry
    bank.  In scenario S4 (the first flush of [T1] fails with the
    possibly-deleted errno and the absorb of the retry phase brings a
    filter request for [T1]) the pass returns with one sync call in all
    and [T1] gone from the table. *)
Theorem RetrySyncRequests_bank (env : Env) (st : State) :
  (absorb_events (trace (ProcessSyncRequests_retries env st).2)
   ≤ absorb_events (trace st) + 5)%nat
  ∧ (retrySyncs st = [] → RetrySyncRequests env st = (Ret tt, st))
  ∧ (retrySyncs st ≠ [] →
       RetrySyncRequests env st
       = match AbsorbSyncRequests env st with
         | (Ret _, st1) =>
             let st2 :=
               set_sync_state_global
                 (set_absorb_counter FSYNCS_PER_ABSORB (sync_state_global st1)) st1 in
             RetrySyncRequests_loop env (retry_fuel st2) st2
         | (Throw e, st1) => (Throw e, st1)
         end
       ∧ ∃ tr subs,
           trace (RetrySyncRequests env st).2 = trace st ++ EvAbsorb :: tr
           ∧ absorb_events tr = 0%nat
           ∧ sync_events tr = subs
           ∧ Forall (owner_not_canceled (AbsorbSyncRequests env st).2) subs)
  ∧ (∀ fuel ie rest tbl entry,
       retrySyncs st = ie :: rest →
       pendingOps st = Some tbl →
       tbl !! hash_entry ie = Some entry →
       let st1 := set_retrySyncs rest st in
       (canceled entry = true →
          RetrySyncRequests_loop env (S fuel) st
          = RetrySyncRequests_loop env fuel
              (set_pendingOps (Some (delete (hash_entry ie) tbl)) st1))
       ∧ (canceled entry = false → retry_count ie ≤ 5 →
            RetrySyncRequests_loop env (S fuel) st
            = bind (call_syncfiletag env ie) (λ _, RetrySyncRequests_loop env fuel) st1
            ∧ sync_events (trace (call_syncfiletag env ie st1).2)
              = sync_events (trace st1)
                ++ [(sync_syncfiletag (syncsw (handler (tag ie))), stamped env ie st1)]))
  ∧ (∀ todo e, pass_inv todo st → (RetrySyncRequests env st).1 = Throw e → benign e)
  ∧ (let r := ProcessSyncRequests (file_gone_env T1) one_request_state in
     r.1 = Ret tt
     ∧ sync_events (trace r.2) = [(mdsyncfiletag, new_inflight_entry T1)]
     ∧ absorb_events (trace r.2) = 2%nat
     ∧ pendingOps r.2 = Some ∅).
Proof.
  split_and!.
  - apply (forM_absorbs (λ _, RetrySyncRequests env) (seq 0 5)).
    intros _ st'. apply RetrySyncRequests_absorbs.
  - intros Hq. by rewrite RetrySyncRequests_run, Hq.
  - intros Hq. split; [|by apply RetrySyncRequests_syncs].
    rewrite RetrySyncRequests_run. by destruct (retrySyncs st).
  - intros fuel ie rest tbl entry Hq Htbl He st1. subst st1.
    rewrite (RetrySyncRequests_loop_step _ _ _ _ _ Hq), Htbl, He. cbv zeta.
    split.
    + by intros ->.
    + intros -> Hle. apply Z.leb_le in Hle. rewrite Hle. split; [done|].
      rewrite (completed_syncs _ _ (call_syncfiletag_completed env ie _)).
      apply submitted_sync_events.
  - intros todo e Hinv Hthrow.
    pose proof (RetrySyncRequests_keeps env todo st (conj Hinv I)) as Hk.
    destruct (RetrySyncRequests env st) as [[[]|e'] st1]; simpl in *; [done|].
    injection Hthrow as ->. apply Hk.
  - cbv zeta. split_and!; reflexivity.
Qed.

(** The theorem at [retry_state], where the retry queue is not empty. *)
Lemma RetrySyncRequests_bank_witness :
  RetrySyncRequests (file_gone_env T1) retry_state
  = match AbsorbSyncRequests (file_gone_env T1) retry_state with
    | (Ret _, st1) =>
        let st2 :=
          set_sync_state_global
            (set_absorb_counter FSYNCS_PER_ABSORB (sync_state_global st1)) st1 in
        RetrySyncRequests_loop (file_gone_env T1) (retry_fuel st2) st2
    | (Throw e, st1) => (Throw e, st1)
    end.
Proof.
  refine (proj1 (proj1 (proj2 (proj2 (RetrySyncRequests_bank (file_gone_env T1) retry_state))) _)).
  discriminate.
Defined.

(** *** SyncPostCheckpoint and SyncPreCheckpoint *)

Lemma filter_all {A} (P : A → Prop) `{!∀ x, Decision (P x)} (l : list A) :
  Forall P l → filter P l = l.
Proof.
  induction 1 as [|x l Hx _ IH]; [done|].
  by rewrite filter_cons_True, IH.
Qed.

Lemma old_unlinks_prefix st old rest :
  pendingUnlinks st = old ++ rest →
  Forall (λ e, u_cycle_ctr e ≠ checkpoint_cycle_ctr st) old →
  (length old ≤ length (old_unlinks st))%nat.
Proof.
  intros Hl Hold. unfold old_unlinks. rewrite Hl, filter_app, length_app.
  rewrite (filter_all _ old) by done. lia.
Qed.

Lemma no_filter_requests_nil env :
  (∀ n, absorb_feed env n = []) → no_filter_requests env.
Proof. intros H n r Hr. rewrite H in Hr. by apply elem_of_nil in Hr. Qed.

Lemma absorbed_old_unlinks st st' :
  absorbed st st' → sublist (old_unlinks st') (old_unlinks st).
Proof.
  intros Ha. destruct (absorbed_unlinks _ _ Ha) as (kept & news & E & S & F).
  unfold old_unlinks. rewrite E, (absorbed_checkpoint_cycle _ _ Ha), filter_app.
  assert (filter (λ e, u_cycle_ctr e ≠ checkpoint_cycle_ctr st) news = []) as ->.
  { clear -F. induction F as [|x l Hx _ IH]; [done|]. simpl in Hx.
    rewrite filter_cons_False by (intros H; by apply H). done. }
  rewrite app_nil_r. by apply sublist_filter_mono.
Qed.

(** The unlink calls of the loop are for old entries of the list, in list
    order. *)
Lemma SyncPostCheckpoint_loop_unlinks_old env fuel :
  ∀ c st,
    ∃ tags,
      unlink_events (trace (SyncPostCheckpoint_loop env fuel c st).2)
      = unlink_events (trace st) ++ tags
      ∧ sublist tags (u_tag <$> old_unlinks st).
Proof.
  induction fuel as [|fuel IH]; intros c st;
    (destruct (pendingUnlinks st) as [|entry rest] eqn:Hl;
      [rewrite SyncPostCheckpoint_loop_nil by done; exists [];
       rewrite app_nil_r; split; [done|apply sublist_nil_l]|]);
    (destruct (decide (u_cycle_ctr entry = checkpoint_cycle_ctr st)) as [Hc|Hc];
      [erewrite SyncPostCheckpoint_loop_stop by done; exists [];
       rewrite app_nil_r; split; [done|apply sublist_nil_l]|]).
  - erewrite SyncPostCheckpoint_loop_no_fuel by done. exists [].
    rewrite app_nil_r. split; [done|apply sublist_nil_l].
  - rewrite (SyncPostCheckpoint_loop_step _ _ _ _ _ _ Hl Hc).
    destruct (sync_unlinkfiletag (syncsw (handler (u_tag entry)))) as [f|];
      [|exists []; rewrite app_nil_r; split; [done|apply sublist_nil_l]].
    cbv zeta.
    destruct (unlinked_head_facts env f entry st) as (H1 & H2 & _ & H4 & _).
    set (st1 := unlinked_head env f entry st) in *. clearbody st1.
    assert (old_unlinks st = entry :: old_unlinks st1) as Hold.
    { unfold old_unlinks. rewrite Hl, H1, H2, Hl, filter_cons_True by done. done. }
    assert (∀ r : Outcome unit * State,
              (∃ tags, unlink_events (trace r.2) = unlink_events (trace st1) ++ tags
                       ∧ sublist tags (u_tag <$> old_unlinks st1)) →
              ∃ tags, unlink_events (trace r.2) = unlink_events (trace st) ++ tags
                      ∧ sublist tags (u_tag <$> old_unlinks st)) as Hrest.
    { intros r (tags & Ht & Hs). exists (u_tag entry :: tags).
      rewrite Ht, H4, <-(assoc_L (++)). split; [done|].
      rewrite Hold. simpl. by apply sublist_skip. }
    destruct (c - 1 <=? 0); apply Hrest; [|apply IH].
    unfold bind. pose proof (AbsorbSyncRequests_absorbed' env st1) as Ha.
    destruct (AbsorbSyncRequests env st1) as [[[]|e] st2]; simpl in Ha.
    + destruct (IH UNLINKS_PER_ABSORB st2) as (tags & Ht & Hs). exists tags.
      rewrite Ht, (absorbed_unlink_events _ _ Ha). split; [done|].
      etrans; [exact Hs|]. apply fmap_sublist. by apply absorbed_old_unlinks.
    + exists []. simpl. rewrite app_nil_r, (absorbed_unlink_events _ _ Ha).
      split; [done|apply sublist_nil_l].
Qed.

(** C6 does not hold of the code.  At [crowded_state] all eleven entries
    of the list are older than the current cycle, so the entry of [T1],
    the last one, is an earlier entry.  After ten unlinks
    SyncPostCheckpoint absorbs the request queue, where it finds a
    pattern cancel for [T1]: the entry of [T1] leaves the list, the loop
    ends, and the file of [T1] has not been unlinked. *)
Lemma SyncPostCheckpoint_filter_counterexample :
  Forall (λ e, u_cycle_ctr e ≠ checkpoint_cycle_ctr crowded_state)
    (pendingUnlinks crowded_state)
  ∧ {| u_tag := T1; u_cycle_ctr := 0 |} ∈ pendingUnlinks crowded_state
  ∧ (SyncPostCheckpoint (cancel_env T1) crowded_state).1 = Ret tt
  ∧ pendingUnlinks (SyncPostCheckpoint (cancel_env T1) crowded_state).2 = []
  ∧ unlink_events (trace (SyncPostCheckpoint (cancel_env T1) crowded_state).2)
    = replicate 10 T2
  ∧ T1 ∉ unlink_events (trace (SyncPostCheckpoint (cancel_env T1) crowded_state).2).
Proof.
  assert (unlink_events (trace (SyncPostCheckpoint (cancel_env T1) crowded_state).2)
          = replicate 10 T2) as Hu by (vm_compute; reflexivity).
  split.
  { simpl. repeat (apply Forall_cons_2; [simpl; lia|]). apply Forall_nil_2. }
  split; [apply list_elem_of_In; simpl; tauto|].
  split; [vm_compute; reflexivity|]. split; [vm_compute; reflexivity|].
  split; [exact Hu|]. rewrite Hu. intros [H _]%elem_of_replicate. discriminate H.
Qed.

(** C6, amended.  SyncPostCheckpoint goes through the pending-unlinks
    list from its head up to the first entry queued under the current
    checkpoint_cycle_ctr (or the end of the list).  When no pattern
    cancel arrives through the request queue meanwhile, in a process with
    a pending-ops table and for handlers that have an unlink function, it
    returns having called, for each of these earlier entries [old] in
    order, the handler's unlink exactly once; a call that succeeds or
    fails with ENOENT logs nothing, a call that fails with another errno
    logs one WARNING; and whatever the outcome the entry is off the list,
    which afterwards holds the entries from the stopping point on,
    followed by those queued meanwhile, so that a failed unlink is not
    tried again by a later checkpoint.  Whatever arrives through the
    queue, every unlink call is for an entry that was on the list under
    an older cycle when the function was entered, in list order and at
    most one for each such entry. *)
Theorem SyncPostCheckpoint_unlinks
    (env : Env) (st : State) (old rest : list PendingUnlinkEntry) :
  pendingUnlinks st = old ++ rest →
  Forall (λ e, u_cycle_ctr e ≠ checkpoint_cycle_ctr st) old →
  match rest with [] => True | e :: _ => u_cycle_ctr e = checkpoint_cycle_ctr st end →
  (no_filter_requests env →
   is_Some (pendingOps st) →
   Forall (λ e, has_unlink (u_tag e)) old →
   ∃ st' news,
     SyncPostCheckpoint env st = (Ret tt, st')
     ∧ pendingUnlinks st' = rest ++ news
     ∧ Forall (λ e, u_cycle_ctr e = checkpoint_cycle_ctr st) news
     ∧ unlink_events (trace st') = unlink_events (trace st) ++ (u_tag <$> old)
     ∧ log_events (trace st')
       = log_events (trace st) ++ unlink_warnings env (t_unlink (ticks st)) old)
  ∧ (∃ tags,
       unlink_events (trace (SyncPostCheckpoint env st).2) = unlink_events (trace st) ++ tags
       ∧ sublist tags (u_tag <$> old_unlinks st))
  ∧ (∀ n e,
       let r := run_unlinkfiletag env mdunlinkfiletag n (u_tag e) in
       (0 ≤ r.1 ∨ r.2 = ENOENT env → unlink_warning env n e = [])
       ∧ (r.1 < 0 → r.2 ≠ ENOENT env →
            unlink_warning env n e
            = [(WARNING, "could not remove file %s: %m"%string, Some (u_tag e))])).
Proof.
  intros Hl Hold Hrest. split; [|split].
  - intros Hnf Hsome Hun.
    assert (Forall (λ e, u_cycle_ctr e ≠ checkpoint_cycle_ctr st ∧ has_unlink (u_tag e)) old)
      as Hboth.
    { apply Forall_forall. intros e He. split.
      - by apply (proj1 (Forall_forall _ _) Hold).
      - by apply (proj1 (Forall_forall _ _) Hun). }
    destruct (SyncPostCheckpoint_loop_run env Hnf old (length (old_unlinks st))
                UNLINKS_PER_ABSORB st rest Hsome Hl Hboth Hrest)
      as (st' & news & H1 & H2 & H3 & _ & _ & H6 & H7 & _).
    { by apply (old_unlinks_prefix st old rest Hl). }
    by exists st', news.
  - unfold SyncPostCheckpoint, bind, gets. simpl.
    apply SyncPostCheckpoint_loop_unlinks_old.
  - intros n e r. subst r. unfold unlink_warning. cbv zeta.
    destruct (run_unlinkfiletag env mdunlinkfiletag n (u_tag e)) as [ret errno]. simpl.
    split.
    + intros [Hret| ->].
      * by rewrite (proj2 (Z.ltb_ge _ _) Hret).
      * by rewrite Z.eqb_refl, andb_false_r.
    + intros Hret Herr.
      by rewrite (proj2 (Z.ltb_lt _ _) Hret), (proj2 (Z.eqb_neq _ _) Herr).
Qed.

(** The theorem at [unlink_state], where both unlinks fail: the first
    with ENOENT, the second with another errno. *)
Lemma SyncPostCheckpoint_unlinks_witness :
  ∃ st' news,
    SyncPostCheckpoint failing_unlink_env unlink_state = (Ret tt, st')
    ∧ pendingUnlinks st' = [] ++ news
    ∧ Forall (λ e, u_cycle_ctr e = 1) news
    ∧ unlink_events (trace st') = [] ++ [T1; T2]
    ∧ log_events (trace st')
      = [] ++ [(WARNING, "could not remove file %s: %m"%string, Some T2)].
Proof.
  refine (proj1 (SyncPostCheckpoint_unlinks failing_unlink_env unlink_state
                   (pendingUnlinks unlink_state) [] _ _ _) _ _ _).
  - reflexivity.
  - repeat constructor; simpl; lia.
  - exact I.
  - apply no_filter_requests_nil. reflexivity.
  - eexists. reflexivity.
  - repeat constructor; eexists; reflexivity.
Defined.






(* ===================================================================== *)
(** ** More of pgstat_global.c *)
(* ===================================================================== *)

(** *** SLRU names and indexes *)

Lemma pgstat_slru_name_lookup (slru_names : list string) (i : nat) :
  (i < length slru_names)%nat →
  pgstat_slru_name slru_names (Z.of_nat i) = slru_names !! i.
Proof.
  intros Hi. unfold pgstat_slru_name, SLRU_NUM_ELEMENTS.
  rewrite (proj2 (Z.ltb_ge _ _)) by lia. rewrite (proj2 (Z.leb_gt _ _)) by lia.
  simpl. by rewrite Nat2Z.id.
Qed.

Lemma pgstat_slru_index_found (slru_names : list string) (name : string) :
  name ∈ slru_names →
  ∃ i, pgstat_slru_index slru_names name = Z.of_nat i ∧ slru_names !! i = Some name.
Proof.
  intros Hin. unfold pgstat_slru_index.
  destruct (list_find (λ n, n = name) slru_names) as [[i x]|] eqn:Hf.
  - apply list_find_Some in Hf as (Hl & -> & _). by exists i.
  - apply list_find_None in Hf. rewrite Forall_forall in Hf. by destruct (Hf name Hin).
Qed.

Lemma pgstat_slru_index_other (slru_names : list string) (name : string) :
  name ∉ slru_names →
  pgstat_slru_index slru_names name = Z.of_nat (SLRU_NUM_ELEMENTS slru_names) - 1.
Proof.
  intros Hin. unfold pgstat_slru_index.
  destruct (list_find (λ n, n = name) slru_names) as [[i x]|] eqn:Hf; [|done].
  apply list_find_Some in Hf as (Hl & -> & _).
  destruct Hin. by eapply list_elem_of_lookup_2.
Qed.

(** X1.  With at least one SLRU name, pgstat_slru_index always returns an
    index of the name table, 0 <= index < SLRU_NUM_ELEMENTS.  For a name
    of the table, pgstat_slru_name gives that name back for the index; for
    any other name the index is the last one, SLRU_NUM_ELEMENTS - 1, whose
    name is the last of the table. *)
Theorem pgstat_slru_index_in_range (slru_names : list string) (name : string) :
  slru_names ≠ [] →
  0 ≤ pgstat_slru_index slru_names name < Z.of_nat (SLRU_NUM_ELEMENTS slru_names)
  ∧ (name ∈ slru_names →
       pgstat_slru_name slru_names (pgstat_slru_index slru_names name) = Some name)
  ∧ (name ∉ slru_names →
       pgstat_slru_index slru_names name = Z.of_nat (SLRU_NUM_ELEMENTS slru_names) - 1
       ∧ pgstat_slru_name slru_names (pgstat_slru_index slru_names name)
         = last slru_names).
Proof.
  intros Hne.
  assert (0 < length slru_names)%nat as Hlen by (destruct slru_names; [done|simpl; lia]).
  split; [|split].
  - destruct (decide (name ∈ slru_names)) as [Hin|Hin].
    + destruct (pgstat_slru_index_found _ _ Hin) as (i & -> & Hi).
      apply lookup_lt_Some in Hi. unfold SLRU_NUM_ELEMENTS. lia.
    + rewrite pgstat_slru_index_other by done. unfold SLRU_NUM_ELEMENTS. lia.
  - intros Hin. destruct (pgstat_slru_index_found _ _ Hin) as (i & -> & Hi).
    rewrite pgstat_slru_name_lookup by by eapply lookup_lt_Some. done.
  - intros Hin. rewrite pgstat_slru_index_other by done. split; [done|].
    unfold SLRU_NUM_ELEMENTS.
    replace (Z.of_nat (length slru_names) - 1) with (Z.of_nat (pred (length slru_names)))
      by lia.
    rewrite pgstat_slru_name_lookup by lia. by rewrite last_lookup.
Qed.

(** The theorem for the built-in names: a name from elsewhere falls to
    the last entry. *)
Lemma pgstat_slru_index_in_range_witness :
  0 ≤ pgstat_slru_index sample_slru_names "pg_custom" < 8
  ∧ pgstat_slru_name sample_slru_names (pgstat_slru_index sample_slru_names "pg_custom")
    = Some "other"%string.
Proof.
  pose proof (pgstat_slru_index_in_range sample_slru_names "pg_custom"
                ltac:(discriminate)) as (H1 & _ & H3).
  split; [exact H1|]. refine (proj2 (H3 _)).
  vm_compute. intros H. repeat (apply elem_of_cons in H as [H|H]; [discriminate H|]).
  by apply elem_of_nil in H.
Defined.

(** X2.  pgstat_slru_name returns NULL exactly for an index outside
    0 .. SLRU_NUM_ELEMENTS - 1.  When the names of the table are distinct,
    pgstat_slru_index is its inverse: the index found for the name of
    entry [i] is [i]. *)
Theorem pgstat_slru_name_index (slru_names : list string) (i : Z) (name : string) :
  NoDup slru_names →
  (pgstat_slru_name slru_names i = None
   ↔ i < 0 ∨ Z.of_nat (SLRU_NUM_ELEMENTS slru_names) ≤ i)
  ∧ (pgstat_slru_name slru_names i = Some name → pgstat_slru_index slru_names name = i).
Proof.
  intros Hnd. unfold pgstat_slru_name.
  destruct (i <? 0) eqn:H0; simpl.
  { apply Z.ltb_lt in H0. split; [split; [by left|done]|done]. }
  apply Z.ltb_ge in H0.
  destruct (Z.of_nat (SLRU_NUM_ELEMENTS slru_names) <=? i) eqn:H1.
  { apply Z.leb_le in H1. split; [split; [by right|done]|done]. }
  apply Z.leb_gt in H1. unfold SLRU_NUM_ELEMENTS in *. split.
  - split; [|lia]. intros Hn. apply lookup_ge_None in Hn. lia.
  - intros Hl.
    destruct (pgstat_slru_index_found slru_names name) as (j & -> & Hj);
      [by eapply list_elem_of_lookup_2|].
    rewrite (NoDup_lookup _ _ _ _ Hnd Hj Hl). lia.
Qed.

(** The theorem for the built-in names. *)
Lemma pgstat_slru_name_index_witness :
  pgstat_slru_index sample_slru_names "Notify" = 3.
Proof.
  refine (proj2 (pgstat_slru_name_index sample_slru_names 3 "Notify" _) eq_refl).
  vm_compute. repeat (apply NoDup_cons_2; [| ]).
  all: try apply NoDup_nil_2.
  all: intros H; repeat (apply elem_of_cons in H as [H|H]; [discriminate H|]);
    by apply elem_of_nil in H.
Defined.

(** *** SLRU counters *)

Lemma slru_entry_ok (slru_names : list string) (idx : Z) (s : StatsState) :
  stats_up s = true → slru_counting_allowed s = true →
  0 ≤ idx < Z.of_nat (SLRU_NUM_ELEMENTS slru_names) →
  length (SLRUStats s) = SLRU_NUM_ELEMENTS slru_names →
  ∃ e, SLRUStats s !! Z.to_nat idx = Some e ∧ slru_entry slru_names idx s = Ret e.
Proof.
  intros Hup Hal Hidx Hlen.
  destruct (lookup_lt_is_Some_2 (SLRUStats s) (Z.to_nat idx)) as [e He]; [lia|].
  exists e. split; [done|]. unfold slru_entry. rewrite Hup, Hal. simpl.
  rewrite (proj2 (Z.leb_le _ _)) by lia. rewrite (proj2 (Z.ltb_lt _ _)) by lia.
  simpl. by rewrite He.
Qed.

Lemma slru_entry_asserts (slru_names : list string) (idx : Z) (s : StatsState) :
  stats_up s = false ∨ slru_counting_allowed s = false
  ∨ idx < 0 ∨ Z.of_nat (SLRU_NUM_ELEMENTS slru_names) ≤ idx →
  ∃ cond, slru_entry slru_names idx s = Throw (AssertFailure cond).
Proof.
  intros H. unfold slru_entry.
  destruct (stats_up s); simpl; [|by eexists].
  destruct (slru_counting_allowed s); simpl; [|by eexists].
  destruct H as [H|[H|H]]; [done|done|].
  assert ((0 <=? idx) && (idx <? Z.of_nat (SLRU_NUM_ELEMENTS slru_names)) = false) as ->.
  { apply andb_false_iff. destruct H; [left; by apply Z.leb_gt|right; by apply Z.ltb_ge]. }
  by eexists.
Qed.

(** The update [pgstat_count_slru] makes to the entry. *)
Lemma pgstat_count_slru_unfold (slru_names : list string) (c : slru_counter) :
  ∃ upd,
    pgstat_count_slru slru_names c = slru_count slru_names upd
    ∧ ∀ e, slru_hdr (upd e) = slru_hdr e ∧ m_index (upd e) = m_index e
           ∧ ∀ c', counter_value c' (upd e)
                   = if bool_decide (c' = c)
                     then PgStat_Counter_cast (counter_value c' e + 1)
                     else counter_value c' e.
Proof.
  destruct c; eexists; (split; [reflexivity|]); intros e;
    (split; [done|]); (split; [done|]); by intros [].
Qed.

(** X3.  For an SLRUStats array of SLRU_NUM_ELEMENTS entries: with the
    statistics system up, outside the postmaster and for an index of the
    array, each of the seven counting functions returns having added one
    (in int64 arithmetic) to its own counter of the entry at the index;
    the other counters of the entry, its header and index field, all
    other entries, and the rest of the statistics state are as before,
    and nothing is sent.  Otherwise an assertion fails and the state is
    unchanged. *)
Theorem pgstat_count_slru_counts
    (slru_names : list string) (c : slru_counter) (idx : Z) (s : StatsState) :
  length (SLRUStats s) = SLRU_NUM_ELEMENTS slru_names →
  (stats_up s = true → slru_counting_allowed s = true →
   0 ≤ idx < Z.of_nat (SLRU_NUM_ELEMENTS slru_names) →
   ∃ s',
     pgstat_count_slru slru_names c idx s = (Ret tt, s')
     ∧ s' = set_SLRUStats (SLRUStats s') s
     ∧ length (SLRUStats s') = length (SLRUStats s)
     ∧ ∀ i e, SLRUStats s !! i = Some e →
         ∃ e', SLRUStats s' !! i = Some e'
               ∧ slru_hdr e' = slru_hdr e ∧ m_index e' = m_index e
               ∧ ∀ c', counter_value c' e'
                       = if bool_decide (i = Z.to_nat idx ∧ c' = c)
                         then PgStat_Counter_cast (counter_value c' e + 1)
                         else counter_value c' e)
  ∧ (stats_up s = false ∨ slru_counting_allowed s = false
     ∨ idx < 0 ∨ Z.of_nat (SLRU_NUM_ELEMENTS slru_names) ≤ idx →
     ∃ cond, pgstat_count_slru slru_names c idx s = (Throw (AssertFailure cond), s)).
Proof.
  intros Hlen. destruct (pgstat_count_slru_unfold slru_names c) as (upd & -> & Hupd).
  unfold slru_count. split.
  - intros Hup Hal Hidx.
    destruct (slru_entry_ok slru_names idx s Hup Hal Hidx Hlen) as (e0 & He0 & ->).
    eexists. split; [done|]. split; [done|]. simpl. split; [by rewrite length_insert|].
    intros i e He. destruct (decide (i = Z.to_nat idx)) as [->|Hne].
    + rewrite He0 in He. injection He as <-.
      exists (upd e0). rewrite list_lookup_insert_eq by by eapply lookup_lt_Some.
      destruct (Hupd e0) as (H1 & H2 & H3). split; [done|]. split; [done|]. split; [done|].
      intros c'. rewrite H3. destruct (decide (c' = c)) as [->|Hc].
      * by rewrite !bool_decide_eq_true_2.
      * rewrite !bool_decide_eq_false_2; [done| |done]. by intros [_ ?].
    + exists e. rewrite list_lookup_insert_ne by done.
      split; [done|]. split; [done|]. split; [done|].
      intros c'. rewrite bool_decide_eq_false_2; [done|]. by intros [? _].
  - intros Hbad. destruct (slru_entry_asserts slru_names idx s Hbad) as [cond ->].
    by exists cond.
Qed.

(** The theorem for a page hit on the Notify SLRU. *)
Lemma pgstat_count_slru_counts_witness :
  ∃ s',
    pgstat_count_slru sample_slru_names blocks_hit 3 (stats_start 8) = (Ret tt, s')
    ∧ s' = set_SLRUStats (SLRUStats s') (stats_start 8)
    ∧ length (SLRUStats s') = 8%nat.
Proof.
  destruct (proj1 (pgstat_count_slru_counts sample_slru_names blocks_hit 3 (stats_start 8)
                     eq_refl) eq_refl eq_refl ltac:(unfold SLRU_NUM_ELEMENTS; simpl; lia))
    as (s' & H1 & H2 & H3 & _).
  exists s'. split; [exact H1|]. split; [exact H2|]. exact H3.
Defined.

Lemma slru_count_commute (slru_names : list string) upd1 upd2 i1 i2 s s1 s12 :
  (∀ e, upd1 (upd2 e) = upd2 (upd1 e)) →
  slru_count slru_names upd1 i1 s = (Ret tt, s1) →
  slru_count slru_names upd2 i2 s1 = (Ret tt, s12) →
  ∃ s2, slru_count slru_names upd2 i2 s = (Ret tt, s2)
        ∧ slru_count slru_names upd1 i1 s2 = (Ret tt, s12).
Proof.
  unfold slru_count, slru_entry. intros Hcomm.
  destruct (stats_up s) eqn:Hup; simpl; [|done].
  destruct (slru_counting_allowed s) eqn:Hal; simpl; [|done].
  destruct ((0 <=? i1) && (i1 <? _)) eqn:Hi1; simpl; [|done].
  destruct (SLRUStats s !! Z.to_nat i1) as [e1|] eqn:He1; [|done].
  intros [= <-]. simpl. rewrite Hup, Hal. simpl.
  destruct ((0 <=? i2) && (i2 <? _)) eqn:Hi2; simpl; [|done].
  destruct (decide (Z.to_nat i1 = Z.to_nat i2)) as [Heq|Hne].
  - rewrite <-Heq. rewrite list_lookup_insert_eq by by eapply lookup_lt_Some.
    intros [= <-]. rewrite He1. eexists. split; [done|]. simpl.
    rewrite Hup, Hal, ?Hi1. simpl.
    rewrite list_lookup_insert_eq by by eapply lookup_lt_Some.
    f_equal. unfold set_SLRUStats. simpl. f_equal.
    by rewrite !list_insert_insert_eq, Hcomm.
  - rewrite list_lookup_insert_ne by done.
    destruct (SLRUStats s !! Z.to_nat i2) as [e2|] eqn:He2; [|done].
    intros [= <-]. eexists. split; [done|]. simpl.
    rewrite Hup, Hal, ?Hi1. simpl. rewrite list_lookup_insert_ne by done. rewrite He1.
    f_equal. unfold set_SLRUStats. simpl. f_equal.
    by apply list_insert_insert_ne.
Qed.

(** X4.  Counting commutes: two counting calls that return, for any two
    counters and any two indexes, give the same state in either order. *)
Theorem pgstat_count_slru_commute
    (slru_names : list string) (c1 c2 : slru_counter) (i1 i2 : Z) (s s1 s12 : StatsState) :
  pgstat_count_slru slru_names c1 i1 s = (Ret tt, s1) →
  pgstat_count_slru slru_names c2 i2 s1 = (Ret tt, s12) →
  ∃ s2, pgstat_count_slru slru_names c2 i2 s = (Ret tt, s2)
        ∧ pgstat_count_slru slru_names c1 i1 s2 = (Ret tt, s12).
Proof.
  destruct c1, c2; apply slru_count_commute; by intros [].
Qed.

(** The theorem for a hit on entry 3 followed by a flush of entry 6. *)
Lemma pgstat_count_slru_commute_witness :
  ∃ s2, pgstat_count_slru sample_slru_names flush 6 (stats_start 8) = (Ret tt, s2)
        ∧ pgstat_count_slru sample_slru_names blocks_hit 3 s2
          = pgstat_count_slru sample_slru_names flush 6
              (pgstat_count_slru sample_slru_names blocks_hit 3 (stats_start 8)).2.
Proof.
  exact (pgstat_count_slru_commute sample_slru_names blocks_hit flush 3 6 (stats_start 8)
           _ _ eq_refl eq_refl).
Defined.

(** *** pgstat_send_slru *)

Lemma slru_messages_zeroes (mtype : Z) (i n : nat) :
  slru_messages mtype i (replicate n slru_all_zeroes) = [].
Proof. revert i. induction n as [|n IH]; intros i; simpl; [done|]. by rewrite IH. Qed.

Lemma replicate_app_cons {A} (x : A) (k : nat) (l : list A) :
  replicate k x ++ x :: l = replicate (S k) x ++ l.
Proof. induction k as [|k IH]; simpl; [done|]. by rewrite IH. Qed.

(** The loop from index [k] on, when the entries before it are zeroed. *)
Lemma pgstat_send_slru_from (mtype : Z) (l : list PgStat_MsgSLRU) :
  ∀ (k : nat) (s : StatsState),
    SLRUStats s = replicate k slru_all_zeroes ++ l →
    let s' := foldl (pgstat_send_slru_entry mtype) s (seq k (length l)) in
    SLRUStats s' = replicate (k + length l) slru_all_zeroes
    ∧ stats_sent s' = stats_sent s ++ slru_messages mtype k l
    ∧ set_SLRUStats (SLRUStats s) (foldl (λ t m, pgstat_send m t) s (slru_messages mtype k l))
      = set_SLRUStats (SLRUStats s) s'.
Proof.
  induction l as [|e l IH]; intros k s Hs; simpl.
  { rewrite app_nil_r in Hs. by rewrite Nat.add_0_r, app_nil_r. }
  assert (SLRUStats s !! k = Some e) as He.
  { rewrite Hs, lookup_app_r by by rewrite length_replicate.
    by rewrite length_replicate, Nat.sub_diag. }
  assert (pgstat_send_slru_entry mtype s k
          = if bool_decide (e = slru_all_zeroes) then s
            else set_SLRUStats (<[k := slru_all_zeroes]> (SLRUStats s))
                   (pgstat_send (slru_message mtype k e) s)) as ->
    by (unfold pgstat_send_slru_entry; by rewrite He).
  replace (k + S (length l))%nat with (S k + length l)%nat by lia.
  case_bool_decide as Hz.
  - subst e. simpl. apply IH.
    rewrite Hs. apply replicate_app_cons.
  - simpl. set (s1 := set_SLRUStats _ _).
    destruct (IH (S k) s1) as (H1 & H2 & H3).
    { unfold s1. simpl. rewrite Hs.
      rewrite insert_app_r_alt by by rewrite length_replicate.
      rewrite length_replicate, Nat.sub_diag. simpl.
      apply replicate_app_cons. }
    split; [done|]. split.
    + rewrite H2. unfold s1. simpl. by rewrite <-(assoc_L (++)).
    + simpl.
      transitivity (set_SLRUStats (SLRUStats s)
                      (set_SLRUStats (SLRUStats s1)
                         (foldl (λ t m, pgstat_send m t) s1 (slru_messages mtype (S k) l))));
        [|exact (f_equal (set_SLRUStats (SLRUStats s)) H3)].
      change (set_SLRUStats (SLRUStats s)
                (foldl (λ t m, pgstat_send m t) (pgstat_send (slru_message mtype k e) s)
                   (slru_messages mtype (S k) l))
              = set_SLRUStats (SLRUStats s)
                  (foldl (λ t m, pgstat_send m t) s1 (slru_messages mtype (S k) l))).
      unfold s1. generalize (slru_messages mtype (S k) l). intros msgs.
      generalize (pgstat_send (slru_message mtype k e) s).
      generalize (<[k:=slru_all_zeroes]> (SLRUStats s)). generalize (SLRUStats s).
      clear. intros v0 v.
      induction msgs as [|m' msgs IHm]; intros t; simpl; [done|].
      apply (IHm (pgstat_send m' t)).
Qed.

Lemma pgstat_send_slru_run (mtype : Z) (slru_names : list string) (s : StatsState) :
  length (SLRUStats s) = SLRU_NUM_ELEMENTS slru_names →
  let s' := pgstat_send_slru mtype slru_names s in
  SLRUStats s' = replicate (SLRU_NUM_ELEMENTS slru_names) slru_all_zeroes
  ∧ stats_sent s' = stats_sent s ++ slru_messages mtype 0 (SLRUStats s)
  ∧ set_SLRUStats (SLRUStats s)
      (foldl (λ t m, pgstat_send m t) s (slru_messages mtype 0 (SLRUStats s)))
    = set_SLRUStats (SLRUStats s) s'.
Proof.
  intros Hlen. unfold pgstat_send_slru. rewrite <-Hlen.
  apply (pgstat_send_slru_from mtype (SLRUStats s) 0 s). done.
Qed.

Lemma slru_messages_elem (mtype : Z) (l : list PgStat_MsgSLRU) :
  ∀ k i e, l !! i = Some e → e ≠ slru_all_zeroes →
    slru_message mtype (k + i) e ∈ slru_messages mtype k l.
Proof.
  induction l as [|e0 l IH]; intros k i e; [done|].
  destruct i as [|i]; simpl.
  - intros [= ->] Hne. rewrite bool_decide_eq_false_2 by done.
    rewrite Nat.add_0_r. by left.
  - intros Hi Hne. apply elem_of_app. right.
    replace (k + S i)%nat with (S k + i)%nat by lia. by apply IH.
Qed.

Lemma foldl_pgstat_send_fields (msgs : list StatsMsg) (s : StatsState) :
  let s' := foldl (λ t m, pgstat_send m t) s msgs in
  PendingCheckpointerStats s' = PendingCheckpointerStats s
  ∧ WalStats s' = WalStats s ∧ prevWalUsage s' = prevWalUsage s
  ∧ pgWalUsage s' = pgWalUsage s ∧ sendTime s' = sendTime s
  ∧ timestamps_read s' = timestamps_read s
  ∧ pgStatSock_valid s' = pgStatSock_valid s ∧ stats_up s' = stats_up s
  ∧ slru_counting_allowed s' = slru_counting_allowed s.
Proof.
  revert s. induction msgs as [|m msgs IH]; intros s; simpl; [done|].
  destruct (IH (pgstat_send m s)) as (?&?&?&?&?&?&?&?&?). done.
Qed.

(** X5.  For an SLRUStats array of SLRU_NUM_ELEMENTS entries,
    pgstat_send_slru sends one message for each entry that is not all
    zeroes, in index order, each carrying the entry's counters with
    m_index set to the entry's index and the SLRU message type; it leaves
    every entry zeroed and touches nothing else.  A second call right
    after it sends nothing and changes nothing. *)
Theorem pgstat_send_slru_sends_nonzero
    (mtype : Z) (slru_names : list string) (s : StatsState) :
  length (SLRUStats s) = SLRU_NUM_ELEMENTS slru_names →
  let s' := pgstat_send_slru mtype slru_names s in
  SLRUStats s' = replicate (SLRU_NUM_ELEMENTS slru_names) slru_all_zeroes
  ∧ stats_sent s' = stats_sent s ++ slru_messages mtype 0 (SLRUStats s)
  ∧ PendingCheckpointerStats s' = PendingCheckpointerStats s
  ∧ WalStats s' = WalStats s ∧ prevWalUsage s' = prevWalUsage s
  ∧ sendTime s' = sendTime s
  ∧ (∀ i e, SLRUStats s !! i = Some e → e ≠ slru_all_zeroes →
       slru_message mtype i e ∈ slru_messages mtype 0 (SLRUStats s))
  ∧ pgstat_send_slru mtype slru_names s' = s'.
Proof.
  intros Hlen s'. destruct (pgstat_send_slru_run mtype slru_names s Hlen) as (H1 & H2 & H3).
  fold s' in H1, H2, H3.
  pose proof (foldl_pgstat_send_fields (slru_messages mtype 0 (SLRUStats s)) s) as Hf.
  cbv zeta in Hf. destruct Hf as (F1 & F2 & F3 & F4 & F5 & F6 & F7 & F8 & F9).
  pose proof (f_equal PendingCheckpointerStats H3) as G1.
  pose proof (f_equal WalStats H3) as G2.
  pose proof (f_equal prevWalUsage H3) as G3.
  pose proof (f_equal sendTime H3) as G5.
  simpl in G1, G2, G3, G5.
  split; [done|]. split; [done|]. split; [congruence|]. split; [congruence|].
  split; [congruence|]. split; [congruence|]. split.
  - intros i e Hi Hne. by apply (slru_messages_elem mtype (SLRUStats s) 0 i e).
  - destruct (pgstat_send_slru_run mtype slru_names s') as (K1 & K2 & K3).
    { by rewrite H1, length_replicate. }
    rewrite H1, slru_messages_zeroes in K2, K3. simpl in K3. rewrite app_nil_r in K2.
    set (s'' := pgstat_send_slru mtype slru_names s') in *.
    destruct s', s''. simpl in *. unfold set_SLRUStats in K3. simpl in K3.
    congruence.
Qed.

(** The theorem after one page hit on entry 3. *)
Lemma pgstat_send_slru_sends_nonzero_witness :
  let s := (pgstat_count_slru sample_slru_names blocks_hit 3 (stats_start 8)).2 in
  stats_sent (pgstat_send_slru 11 sample_slru_names s)
  = [] ++ slru_messages 11 0 (SLRUStats s).
Proof.
  exact (proj1 (proj2 (pgstat_send_slru_sends_nonzero 11 sample_slru_names
                         (pgstat_count_slru sample_slru_names blocks_hit 3 (stats_start 8)).2
                         eq_refl))).
Defined.

Lemma slru_messages_single (mtype : Z) (e : PgStat_MsgSLRU) :
  e ≠ slru_all_zeroes →
  ∀ n k i, (i < n)%nat →
    slru_messages mtype k (<[i := e]> (replicate n slru_all_zeroes))
    = [slru_message mtype (k + i) e].
Proof.
  intros He. induction n as [|n IH]; intros k i Hi; [lia|].
  destruct i as [|i]; simpl.
  - rewrite bool_decide_eq_false_2 by done. rewrite slru_messages_zeroes.
    by rewrite Nat.add_0_r.
  - rewrite IH by lia. by replace (S k + i)%nat with (k + S i)%nat by lia.
Qed.

(** X6.  Counting and sending compose: starting from zeroed SLRU
    entries, one counting call for counter [c] of the entry at a valid
    index followed by pgstat_send_slru sends exactly one message; it has
    the SLRU message type, m_index equal to that index, the counter [c]
    at 1 and every other counter at 0; and the entries are all zeroes
    again. *)
Theorem pgstat_count_then_send_slru
    (mtype : Z) (slru_names : list string) (c : slru_counter) (idx : Z) (s : StatsState) :
  SLRUStats s = replicate (SLRU_NUM_ELEMENTS slru_names) slru_all_zeroes →
  stats_up s = true → slru_counting_allowed s = true →
  0 ≤ idx < Z.of_nat (SLRU_NUM_ELEMENTS slru_names) →
  ∃ s1 m,
    pgstat_count_slru slru_names c idx s = (Ret tt, s1)
    ∧ stats_sent (pgstat_send_slru mtype slru_names s1) = stats_sent s ++ [MsgSLRU m]
    ∧ m_index m = idx ∧ m_type (slru_hdr m) = mtype
    ∧ (∀ c', counter_value c' m = if bool_decide (c' = c) then 1 else 0)
    ∧ SLRUStats (pgstat_send_slru mtype slru_names s1) = SLRUStats s.
Proof.
  intros Hz Hup Hal Hidx.
  assert (length (SLRUStats s) = SLRU_NUM_ELEMENTS slru_names) as Hlen
    by by rewrite Hz, length_replicate.
  destruct (pgstat_count_slru_unfold slru_names c) as (upd & -> & Hupd).
  unfold slru_count.
  destruct (slru_entry_ok slru_names idx s Hup Hal Hidx Hlen) as (e0 & He0 & ->).
  rewrite Hz in He0. apply lookup_replicate in He0 as [-> Hlt].
  set (s1 := set_SLRUStats _ s).
  destruct (Hupd slru_all_zeroes) as (U1 & U2 & U3).
  assert (upd slru_all_zeroes ≠ slru_all_zeroes) as Hne.
  { intros Heq. specialize (U3 c). rewrite Heq, bool_decide_eq_true_2 in U3 by done.
    by destruct c. }
  destruct (pgstat_send_slru_run mtype slru_names s1) as (H1 & H2 & _).
  { unfold s1. simpl. by rewrite length_insert. }
  exists s1, (set_slru_hdr (setheader mtype (slru_hdr (upd slru_all_zeroes)))
                (set_m_index (Z.of_nat (Z.to_nat idx)) (upd slru_all_zeroes))).
  split; [done|]. split.
  { rewrite H2. unfold s1. simpl. rewrite Hz.
    by rewrite (slru_messages_single mtype _ Hne _ 0 (Z.to_nat idx) Hlt). }
  split; [simpl; lia|]. split; [done|]. split.
  - intros c'. transitivity (counter_value c' (upd slru_all_zeroes)); [by destruct c'|].
    rewrite U3. case_bool_decide; [|by destruct c']. by destruct c'.
  - by rewrite H1, Hz.
Qed.

(** The theorem for one flush of the Xact SLRU (entry 6). *)
Lemma pgstat_count_then_send_slru_witness :
  ∃ s1 m,
    pgstat_count_slru sample_slru_names flush 6 (stats_start 8) = (Ret tt, s1)
    ∧ stats_sent (pgstat_send_slru 11 sample_slru_names s1) = [] ++ [MsgSLRU m]
    ∧ m_index m = 6 ∧ m_type (slru_hdr m) = 11.
Proof.
  destruct (pgstat_count_then_send_slru 11 sample_slru_names flush 6 (stats_start 8)
              eq_refl eq_refl eq_refl ltac:(unfold SLRU_NUM_ELEMENTS; simpl; lia))
    as (s1 & m & H1 & H2 & H3 & H4 & _).
  exists s1, m. split; [exact H1|]. split; [exact H2|]. split; [exact H3|exact H4].
Defined.

(** *** pgstat_send_checkpointer and pgstat_send_bgwriter *)

(** X7.  pgstat_send_checkpointer sends a message exactly when the
    pending checkpointer buffer differs from the all-zeroes structure: it
    then sends one message with the pending counters and the checkpointer
    message type and zeroes the buffer; otherwise it changes nothing.  In
    both cases the buffer is all zeroes afterwards, the SLRU and WAL
    statistics are untouched, and a second call right after sends nothing
    and changes nothing. *)
Theorem pgstat_send_checkpointer_sends_iff_nonzero (mtype : Z) (s : StatsState) :
  let pending := PendingCheckpointerStats s in
  let n := length (ckpt_counters pending) in
  let s' := pgstat_send_checkpointer mtype s in
  (pending = checkpointer_all_zeroes n → s' = s)
  ∧ (pending ≠ checkpointer_all_zeroes n →
       stats_sent s'
       = stats_sent s
         ++ [MsgCheckpointer {| ckpt_hdr := setheader mtype (ckpt_hdr pending);
                                ckpt_counters := ckpt_counters pending |}])
  ∧ (stats_sent s' = stats_sent s ↔ pending = checkpointer_all_zeroes n)
  ∧ PendingCheckpointerStats s' = checkpointer_all_zeroes n
  ∧ SLRUStats s' = SLRUStats s ∧ WalStats s' = WalStats s
  ∧ pgstat_send_checkpointer mtype s' = s'.
Proof.
  intros pending n s'. subst s'. unfold pgstat_send_checkpointer. fold pending. fold n.
  case_bool_decide as Hz.
  - split; [done|]. split; [done|]. split; [done|]. split; [done|].
    split; [done|]. split; [done|]. fold pending. fold n.
    by rewrite bool_decide_eq_true_2.
  - split; [done|]. split; [done|]. split.
    { split; [|done]. simpl. intros H. exfalso.
      apply (f_equal length) in H. rewrite length_app in H. simpl in H. lia. }
    split; [done|]. split; [done|]. split; [done|]. simpl.
    rewrite length_replicate. by rewrite bool_decide_eq_true_2.
Qed.

(** X8.  pgstat_send_bgwriter is idempotent: once a call has returned, a
    second call right after it sends nothing and leaves the state as it
    is. *)
Theorem pgstat_send_bgwriter_twice (mtype : Z) (s s' : PgStatState) :
  pgstat_send_bgwriter mtype s = Some s' →
  pgstat_send_bgwriter mtype s' = Some s'.
Proof.
  unfold pgstat_send_bgwriter. destruct (pgstat_is_up s) eqn:Hup; [|done].
  case_bool_decide as Hz.
  - intros [= <-]. rewrite Hup. by rewrite bool_decide_eq_true_2.
  - intros [= <-]. simpl. rewrite length_replicate.
    by rewrite bool_decide_eq_true_2.
Qed.

(** The theorem after a send of one non-zero counter. *)
Lemma pgstat_send_bgwriter_twice_witness :
  pgstat_send_bgwriter 7
    {| PendingBgWriterStats := all_zeroes 3;
       pgstat_sent :=
         [ {| m_hdr := {| m_type := 7; m_size := 0 |}; m_counters := [0; 3; 0] |} ];
       pgstat_is_up := true |}
  = Some {| PendingBgWriterStats := all_zeroes 3;
            pgstat_sent :=
              [ {| m_hdr := {| m_type := 7; m_size := 0 |}; m_counters := [0; 3; 0] |} ];
            pgstat_is_up := true |}.
Proof.
  exact (pgstat_send_bgwriter_twice 7
           {| PendingBgWriterStats :=
                {| m_hdr := {| m_type := 0; m_size := 0 |}; m_counters := [0; 3; 0] |};
              pgstat_sent := []; pgstat_is_up := true |} _ eq_refl).
Defined.

(** *** The reset requests *)

(** X9.  pgstat_reset_shared_counters with a valid socket sends one
    reset message for the target archiver, bgwriter or wal, named exactly
    so; for any other target it raises ERROR and sends nothing.  With no
    socket it returns without sending, whatever the target, so an
    unrecognized target goes unreported. *)
Theorem pgstat_reset_shared_counters_targets (mtype : Z) (target : string) (s : StatsState) :
  (pgStatSock_valid s = true →
     pgstat_reset_shared_counters mtype "archiver" s
     = (Ret tt, pgstat_send (MsgResetsharedcounter mtype RESET_ARCHIVER) s)
     ∧ pgstat_reset_shared_counters mtype "bgwriter" s
       = (Ret tt, pgstat_send (MsgResetsharedcounter mtype RESET_BGWRITER) s)
     ∧ pgstat_reset_shared_counters mtype "wal" s
       = (Ret tt, pgstat_send (MsgResetsharedcounter mtype RESET_WAL) s)
     ∧ (target ∉ ["archiver"; "bgwriter"; "wal"]%string →
          pgstat_reset_shared_counters mtype target s
          = (Throw (Ereport ERROR "unrecognized reset target: %s"), s)))
  ∧ (pgStatSock_valid s = false →
       pgstat_reset_shared_counters mtype target s = (Ret tt, s)).
Proof.
  unfold pgstat_reset_shared_counters. split.
  - intros ->. simpl. split; [done|]. split; [done|]. split; [done|].
    intros Hn.
    destruct (String.eqb_spec target "archiver") as [->|_];
      [destruct Hn; set_solver|].
    destruct (String.eqb_spec target "bgwriter") as [->|_];
      [destruct Hn; set_solver|].
    destruct (String.eqb_spec target "wal") as [->|_];
      [destruct Hn; set_solver|].
    done.
  - by intros ->.
Qed.

(** X10.  pgstat_reset_slru_counter with a valid socket sends one reset
    message and leaves the process's own SLRU counters alone.  The index
    it sends is -1 exactly for a NULL name; for a name it is an index of
    the name table, that of the name if the table has it and the last
    one (the entry for other SLRUs) if not.  With no socket nothing is
    sent. *)
Theorem pgstat_reset_slru_counter_index
    (mtype : Z) (slru_names : list string) (name : option string) (s : StatsState) :
  slru_names ≠ [] →
  (pgStatSock_valid s = false → pgstat_reset_slru_counter mtype slru_names name s = s)
  ∧ (pgStatSock_valid s = true →
     ∃ index,
       pgstat_reset_slru_counter mtype slru_names name s
       = pgstat_send (MsgResetslrucounter mtype index) s
       ∧ (index = -1 ↔ name = None)
       ∧ (∀ n, name = Some n →
            0 ≤ index < Z.of_nat (SLRU_NUM_ELEMENTS slru_names)
            ∧ (n ∈ slru_names → pgstat_slru_name slru_names index = Some n)
            ∧ (n ∉ slru_names → index = Z.of_nat (SLRU_NUM_ELEMENTS slru_names) - 1))).
Proof.
  intros Hne.
  assert (0 < length slru_names)%nat as Hlen by (destruct slru_names; [done|simpl; lia]).
  unfold pgstat_reset_slru_counter. split; [by intros ->|]. intros ->. simpl.
  eexists. split; [done|].
  assert (∀ n, 0 ≤ pgstat_slru_index slru_names n < Z.of_nat (SLRU_NUM_ELEMENTS slru_names))
    as Hrange.
  { intros n. destruct (decide (n ∈ slru_names)) as [Hin|Hin].
    - destruct (pgstat_slru_index_found _ _ Hin) as (i & -> & Hi).
      apply lookup_lt_Some in Hi. unfold SLRU_NUM_ELEMENTS. lia.
    - rewrite pgstat_slru_index_other by done. unfold SLRU_NUM_ELEMENTS. lia. }
  split.
  - destruct name as [n|]; [|done]. specialize (Hrange n). split; [lia|done].
  - intros n ->. split; [apply Hrange|]. split.
    + intros Hin. destruct (pgstat_slru_index_found _ _ Hin) as (i & -> & Hi).
      rewrite pgstat_slru_name_lookup by by eapply lookup_lt_Some. done.
    + intros Hin. by apply pgstat_slru_index_other.
Qed.

(** The theorem for a reset of the Notify counters. *)
Lemma pgstat_reset_slru_counter_index_witness :
  ∃ index,
    pgstat_reset_slru_counter 20 sample_slru_names (Some "Notify"%string) (stats_start 8)
    = pgstat_send (MsgResetslrucounter 20 index) (stats_start 8)
    ∧ (index = -1 ↔ Some "Notify"%string = None).
Proof.
  destruct (proj2 (pgstat_reset_slru_counter_index 20 sample_slru_names
                     (Some "Notify"%string) (stats_start 8) ltac:(discriminate)) eq_refl)
    as (index & H1 & H2 & _).
  exists index. split; [exact H1|exact H2].
Defined.

(** *** pgstat_send_wal *)

(** Whether there is WAL activity to report: WAL records generated since
    the last report, or WAL writes or syncs counted. *)
Lemma pgstat_send_wal_idle_test (s : StatsState) :
  (wal_records (pgWalUsage s) =? wal_records (prevWalUsage s))
  && (m_wal_write (WalStats s) =? 0) && (m_wal_sync (WalStats s) =? 0) = false
  ↔ wal_records (pgWalUsage s) ≠ wal_records (prevWalUsage s)
    ∨ m_wal_write (WalStats s) ≠ 0 ∨ m_wal_sync (WalStats s) ≠ 0.
Proof.
  rewrite !andb_false_iff, !Z.eqb_neq. tauto.
Qed.

(** X11.  With no WAL write and no WAL sync counted, pgstat_send_wal
    does nothing when no WAL record was generated since the last report,
    forced or not: nothing is sent, no timestamp is read and the state is
    unchanged (an assertion fails if m_wal_buffers_full is not zero).  In
    particular this is so right after pgstat_wal_initialize, whatever WAL
    the process generated before. *)
Theorem pgstat_send_wal_idle
    (mtype : Z) (GetCurrentTimestamp : nat → Z)
    (TimestampDifferenceExceeds : Z → Z → Z → bool) (PGSTAT_STAT_INTERVAL : Z)
    (WalUsageAccumDiff : WalUsage → WalUsage → WalUsage → WalUsage)
    (force : bool) (s : StatsState) :
  m_wal_write (WalStats s) = 0 →
  m_wal_sync (WalStats s) = 0 →
  let send_wal :=
    pgstat_send_wal mtype GetCurrentTimestamp TimestampDifferenceExceeds
      PGSTAT_STAT_INTERVAL WalUsageAccumDiff force in
  (wal_records (pgWalUsage s) = wal_records (prevWalUsage s) →
     (m_wal_buffers_full (WalStats s) = 0 → send_wal s = (Ret tt, s))
     ∧ (m_wal_buffers_full (WalStats s) ≠ 0 →
          send_wal s = (Throw (AssertFailure "WalStats.m_wal_buffers_full == 0"), s)))
  ∧ (m_wal_buffers_full (WalStats s) = 0 →
       send_wal (pgstat_wal_initialize s) = (Ret tt, pgstat_wal_initialize s)).
Proof.
  intros Hw Hs send_wal. subst send_wal. unfold pgstat_send_wal. split.
  - intros Hr. rewrite Hr, Hw, Hs, Z.eqb_refl. simpl. split.
    + by intros ->.
    + intros Hb. by rewrite (proj2 (Z.eqb_neq _ _) Hb).
  - intros Hb. simpl. rewrite Hw, Hs, Hb, Z.eqb_refl. done.
Qed.

(** The theorem for a process that generated WAL before it initialized
    its WAL statistics. *)
Lemma pgstat_send_wal_idle_witness :
  let s :=
    {| pgStatSock_valid := true; stats_up := true; slru_counting_allowed := true;
       PendingCheckpointerStats := checkpointer_all_zeroes 6;
       SLRUStats := [];
       WalStats := wal_all_zeroes 2;
       prevWalUsage := zero_WalUsage;
       pgWalUsage := {| wal_records := 5; wal_fpi := 1; wal_bytes := 400 |};
       sendTime := 0; timestamps_read := 0; stats_sent := [] |} in
  pgstat_send_wal 9 (λ n, Z.of_nat n) (λ a b ms, ms * 1000 <=? b - a) 500
    (λ dst add sub, dst) true (pgstat_wal_initialize s)
  = (Ret tt, pgstat_wal_initialize s).
Proof.
  intros s.
  exact (proj2 (pgstat_send_wal_idle 9 (λ n, Z.of_nat n) (λ a b ms, ms * 1000 <=? b - a) 500
                  (λ dst add sub, dst) true s eq_refl eq_refl) eq_refl).
Defined.

Lemma pgstat_send_wal_message_facts (mtype : Z)
    (WalUsageAccumDiff : WalUsage → WalUsage → WalUsage → WalUsage) (s : StatsState) :
  let s' := pgstat_send_wal_message mtype WalUsageAccumDiff s in
  let diff := WalUsageAccumDiff zero_WalUsage (pgWalUsage s) (prevWalUsage s) in
  let changed := negb (wal_records (pgWalUsage s) =? wal_records (prevWalUsage s)) in
  stats_sent s'
  = stats_sent s
    ++ [MsgWal
          {| wal_hdr := setheader mtype (wal_hdr (WalStats s));
             m_wal_records :=
               if changed then wal_records diff else m_wal_records (WalStats s);
             m_wal_fpi := if changed then wal_fpi diff else m_wal_fpi (WalStats s);
             m_wal_bytes := if changed then wal_bytes diff else m_wal_bytes (WalStats s);
             m_wal_buffers_full := m_wal_buffers_full (WalStats s);
             m_wal_write := m_wal_write (WalStats s);
             m_wal_sync := m_wal_sync (WalStats s);
             m_wal_other := m_wal_other (WalStats s) |}]
  ∧ WalStats s' = wal_all_zeroes (length (m_wal_other (WalStats s)))
  ∧ wal_records (prevWalUsage s') = wal_records (pgWalUsage s)
  ∧ (changed = true → prevWalUsage s' = pgWalUsage s)
  ∧ pgWalUsage s' = pgWalUsage s
  ∧ sendTime s' = sendTime s ∧ timestamps_read s' = timestamps_read s
  ∧ SLRUStats s' = SLRUStats s
  ∧ PendingCheckpointerStats s' = PendingCheckpointerStats s.
Proof.
  cbv zeta. unfold pgstat_send_wal_message.
  destruct (wal_records (pgWalUsage s) =? wal_records (prevWalUsage s)) eqn:Hr; simpl.
  - apply Z.eqb_eq in Hr. by rewrite Hr.
  - done.
Qed.

(** X12.  With WAL activity to report (WAL records generated since the
    last report, or WAL writes or syncs counted), a forced pgstat_send_wal
    sends exactly one message without reading the clock.  The message
    carries the counted writes, syncs and full buffers, and, if records
    were generated, the record, full-page-image and byte counts that
    WalUsageAccumDiff computes from the current and the saved usage.
    Afterwards the WAL buffer is zeroed and the saved usage has the
    current record count, so that a further call, forced or not, finds
    nothing to send. *)
Theorem pgstat_send_wal_forced
    (mtype : Z) (GetCurrentTimestamp : nat → Z)
    (TimestampDifferenceExceeds : Z → Z → Z → bool) (PGSTAT_STAT_INTERVAL : Z)
    (WalUsageAccumDiff : WalUsage → WalUsage → WalUsage → WalUsage) (s : StatsState) :
  wal_records (pgWalUsage s) ≠ wal_records (prevWalUsage s)
  ∨ m_wal_write (WalStats s) ≠ 0 ∨ m_wal_sync (WalStats s) ≠ 0 →
  let send_wal :=
    pgstat_send_wal mtype GetCurrentTimestamp TimestampDifferenceExceeds
      PGSTAT_STAT_INTERVAL WalUsageAccumDiff in
  let diff := WalUsageAccumDiff zero_WalUsage (pgWalUsage s) (prevWalUsage s) in
  ∃ s' msg,
    send_wal true s = (Ret tt, s')
    ∧ stats_sent s' = stats_sent s ++ [MsgWal msg]
    ∧ m_type (wal_hdr msg) = mtype
    ∧ m_wal_write msg = m_wal_write (WalStats s)
    ∧ m_wal_sync msg = m_wal_sync (WalStats s)
    ∧ m_wal_buffers_full msg = m_wal_buffers_full (WalStats s)
    ∧ (wal_records (pgWalUsage s) ≠ wal_records (prevWalUsage s) →
         m_wal_records msg = wal_records diff ∧ m_wal_fpi msg = wal_fpi diff
         ∧ m_wal_bytes msg = wal_bytes diff ∧ prevWalUsage s' = pgWalUsage s)
    ∧ WalStats s' = wal_all_zeroes (length (m_wal_other (WalStats s)))
    ∧ timestamps_read s' = timestamps_read s ∧ sendTime s' = sendTime s
    ∧ ∀ force, send_wal force s' = (Ret tt, s').
Proof.
  intros Hact send_wal diff. subst send_wal.
  apply pgstat_send_wal_idle_test in Hact.
  destruct (pgstat_send_wal_message_facts mtype WalUsageAccumDiff s)
    as (F1 & F2 & F3 & F4 & F5 & F6 & F7 & _).
  eexists _, _. split.
  { unfold pgstat_send_wal. rewrite Hact. reflexivity. }
  split; [exact F1|]. split; [done|]. split; [done|]. split; [done|]. split; [done|].
  split.
  { intros Hr. apply Z.eqb_neq in Hr. simpl. rewrite Hr. simpl.
    split; [done|]. split; [done|]. split; [done|]. done. }
  split; [done|]. split; [done|]. split; [done|].
  intros force. unfold pgstat_send_wal. rewrite F2, F3, F5. simpl.
  by rewrite Z.eqb_refl.
Qed.

(** The theorem for a process with five new WAL records and one WAL
    write. *)
Lemma pgstat_send_wal_forced_witness :
  let s :=
    {| pgStatSock_valid := true; stats_up := true; slru_counting_allowed := true;
       PendingCheckpointerStats := checkpointer_all_zeroes 6;
       SLRUStats := [];
       WalStats :=
         {| wal_hdr := zero_hdr; m_wal_records := 0; m_wal_fpi := 0; m_wal_bytes := 0;
            m_wal_buffers_full := 0; m_wal_write := 1; m_wal_sync := 0;
            m_wal_other := [0; 0] |};
       prevWalUsage := zero_WalUsage;
       pgWalUsage := {| wal_records := 5; wal_fpi := 1; wal_bytes := 400 |};
       sendTime := 0; timestamps_read := 0; stats_sent := [] |} in
  ∃ s' msg,
    pgstat_send_wal 9 (λ n, Z.of_nat n) (λ a b ms, ms * 1000 <=? b - a) 500
      (λ dst add sub,
         {| wal_records := wal_records dst + wal_records add - wal_records sub;
            wal_fpi := wal_fpi dst + wal_fpi add - wal_fpi sub;
            wal_bytes := wal_bytes dst + wal_bytes add - wal_bytes sub |}) true s
    = (Ret tt, s')
    ∧ stats_sent s' = [] ++ [MsgWal msg]
    ∧ m_type (wal_hdr msg) = 9
    ∧ m_wal_write msg = 1.
Proof.
  intros s.
  destruct (pgstat_send_wal_forced 9 (λ n, Z.of_nat n) (λ a b ms, ms * 1000 <=? b - a) 500
              (λ dst add sub,
                 {| wal_records := wal_records dst + wal_records add - wal_records sub;
                    wal_fpi := wal_fpi dst + wal_fpi add - wal_fpi sub;
                    wal_bytes := wal_bytes dst + wal_bytes add - wal_bytes sub |}) s
              ltac:(left; simpl; lia))
    as (s' & msg & H1 & H2 & H3 & H4 & _).
  exists s', msg. split; [exact H1|]. split; [exact H2|]. split; [exact H3|exact H4].
Defined.

(** X13.  With WAL activity to report, a pgstat_send_wal that is not
    forced reads the clock once.  If PGSTAT_STAT_INTERVAL has not passed
    since sendTime it sends nothing and keeps everything else as it is:
    the WAL buffer, the saved usage and sendTime, so that the counts are
    not lost and go out with a later call.  If the interval has passed it
    sets sendTime to the time read and then sends, zeroes and saves
    exactly as the forced call does. *)
Theorem pgstat_send_wal_throttle
    (mtype : Z) (GetCurrentTimestamp : nat → Z)
    (TimestampDifferenceExceeds : Z → Z → Z → bool) (PGSTAT_STAT_INTERVAL : Z)
    (WalUsageAccumDiff : WalUsage → WalUsage → WalUsage → WalUsage) (s : StatsState) :
  wal_records (pgWalUsage s) ≠ wal_records (prevWalUsage s)
  ∨ m_wal_write (WalStats s) ≠ 0 ∨ m_wal_sync (WalStats s) ≠ 0 →
  let send_wal :=
    pgstat_send_wal mtype GetCurrentTimestamp TimestampDifferenceExceeds
      PGSTAT_STAT_INTERVAL WalUsageAccumDiff in
  let now := GetCurrentTimestamp (timestamps_read s) in
  (TimestampDifferenceExceeds (sendTime s) now PGSTAT_STAT_INTERVAL = false →
     send_wal false s = (Ret tt, bump_timestamps_read s))
  ∧ (TimestampDifferenceExceeds (sendTime s) now PGSTAT_STAT_INTERVAL = true →
     ∃ s',
       send_wal false s = (Ret tt, s')
       ∧ sendTime s' = now
       ∧ timestamps_read s' = S (timestamps_read s)
       ∧ stats_sent s' = stats_sent (send_wal true s).2
       ∧ WalStats s' = WalStats (send_wal true s).2
       ∧ prevWalUsage s' = prevWalUsage (send_wal true s).2).
Proof.
  intros Hact send_wal now. subst send_wal now.
  apply pgstat_send_wal_idle_test in Hact.
  unfold pgstat_send_wal. rewrite Hact. simpl. split.
  - by intros ->.
  - intros ->. simpl. eexists. split; [done|].
    unfold pgstat_send_wal_message. simpl.
    by destruct (wal_records (pgWalUsage s) =? wal_records (prevWalUsage s)).
Qed.

(** The theorem for a call 0.2 s after the last message, with an interval
    of 500 ms: nothing is sent. *)
Lemma pgstat_send_wal_throttle_witness :
  let s :=
    {| pgStatSock_valid := true; stats_up := true; slru_counting_allowed := true;
       PendingCheckpointerStats := checkpointer_all_zeroes 6;
       SLRUStats := [];
       WalStats := wal_all_zeroes 2;
       prevWalUsage := zero_WalUsage;
       pgWalUsage := {| wal_records := 5; wal_fpi := 1; wal_bytes := 400 |};
       sendTime := 1000000; timestamps_read := 0; stats_sent := [] |} in
  pgstat_send_wal 9 (λ n, 1200000) (λ a b ms, ms * 1000 <=? b - a) 500
    (λ dst add sub, dst) false s
  = (Ret tt, bump_timestamps_read s).
Proof.
  intros s.
  exact (proj1 (pgstat_send_wal_throttle 9 (λ n, 1200000) (λ a b ms, ms * 1000 <=? b - a) 500
                  (λ dst add sub, dst) s ltac:(left; simpl; lia)) eq_refl).
Defined.

(* ===================================================================== *)
(** ** More of sync.c *)
(* ===================================================================== *)

(** *** RegisterSyncRequest *)

Lemma RegisterSyncRequest_loop_no_retry fwd fuel ftag type b :
  RegisterSyncRequest_loop fwd fuel ftag type false b
  = (Ret (fwd (length (forwarded b)) ftag type), add_forwarded (ftag, type) b).
Proof.
  destruct fuel; simpl; by destruct (fwd (length (forwarded b)) ftag type).
Qed.

Lemma RegisterSyncRequest_loop_retry fwd ftag type :
  ∀ fuel b,
    RegisterSyncRequest_loop fwd fuel ftag type true b
    = match first_success (λ n, fwd n ftag type) (length (forwarded b)) fuel with
      | Some k =>
          (Ret true,
           {| local := local b;
              forwarded := forwarded b ++ replicate (S k) (ftag, type);
              slept := slept b ++ replicate k 10000 |})
      | None =>
          (Throw OutOfFuel,
           {| local := local b;
              forwarded := forwarded b ++ replicate (S fuel) (ftag, type);
              slept := slept b ++ replicate fuel 10000 |})
      end.
Proof.
  induction fuel as [|fuel IH]; intros b; simpl.
  - destruct (fwd (length (forwarded b)) ftag type); simpl.
    + unfold add_forwarded. by rewrite app_nil_r.
    + unfold add_forwarded. by rewrite app_nil_r.
  - destruct (fwd (length (forwarded b)) ftag type) eqn:Hf; simpl.
    + unfold add_forwarded. by rewrite app_nil_r.
    + rewrite IH. simpl. rewrite length_app. simpl. rewrite Nat.add_1_r.
      destruct (first_success _ _ fuel) as [k|]; simpl;
        by rewrite <-!(assoc_L (++)).
Qed.

(** X14.  In a process that has a pending-ops table, RegisterSyncRequest
    is RememberSyncRequest on the process's own state: nothing is handed
    to ForwardSyncRequest, the process does not sleep, and the result is
    true whenever RememberSyncRequest returns, never false; for a request
    other than a pattern cancel it always returns true. *)
Theorem RegisterSyncRequest_local (env : Env)
    (ForwardSyncRequest : nat → FileTag → SyncRequestType → bool)
    (fuel : nat) (ftag : FileTag) (type : SyncRequestType) (retryOnError : bool)
    (b : Backend) :
  is_Some (pendingOps (local b)) →
  let r := RegisterSyncRequest env ForwardSyncRequest fuel ftag type retryOnError b in
  let m := RememberSyncRequest env ftag type (local b) in
  forwarded r.2 = forwarded b ∧ slept r.2 = slept b
  ∧ local r.2 = m.2
  ∧ (m.1 = Ret tt → r.1 = Ret true)
  ∧ (∀ e, m.1 = Throw e → r.1 = Throw e)
  ∧ r.1 ≠ Ret false
  ∧ (type ≠ SYNC_FILTER_REQUEST → r.1 = Ret true).
Proof.
  intros Hsome r m. subst r m. unfold RegisterSyncRequest.
  destruct Hsome as [tbl Htbl]. rewrite Htbl.
  pose proof (RememberSyncRequest_no_filter env ftag type (local b)) as Hnf.
  destruct (RememberSyncRequest env ftag type (local b)) as [[[]|e] st'] eqn:Hrun; simpl.
  - by repeat split.
  - repeat split; try done.
    + by intros e' [= ->].
    + intros Hty. destruct (Hnf Hty) as (st2 & news & Hret & _); [by rewrite Htbl|].
      congruence.
Qed.

(** The theorem for a standalone backend registering an fsync request. *)
Lemma RegisterSyncRequest_local_witness :
  (RegisterSyncRequest quiet_env (λ _ _ _, false) 0 T1 SYNC_REQUEST true standalone_start).1
  = Ret true.
Proof.
  refine (proj2 (proj2 (proj2 (proj2 (proj2 (proj2
            (RegisterSyncRequest_local quiet_env (λ _ _ _, false) 0 T1 SYNC_REQUEST true
               standalone_start _)))))) _).
  - eexists. reflexivity.
  - discriminate.
Defined.

(** X15.  In a process without a pending-ops table and with retryOnError
    false, RegisterSyncRequest calls ForwardSyncRequest exactly once and
    returns what that call returned, without sleeping; the process's own
    sync state is not touched. *)
Theorem RegisterSyncRequest_forward_once (env : Env)
    (ForwardSyncRequest : nat → FileTag → SyncRequestType → bool)
    (fuel : nat) (ftag : FileTag) (type : SyncRequestType) (b : Backend) :
  pendingOps (local b) = None →
  RegisterSyncRequest env ForwardSyncRequest fuel ftag type false b
  = (Ret (ForwardSyncRequest (length (forwarded b)) ftag type),
     {| local := local b; forwarded := forwarded b ++ [(ftag, type)]; slept := slept b |}).
Proof.
  intros Hnone. unfold RegisterSyncRequest. rewrite Hnone.
  by rewrite RegisterSyncRequest_loop_no_retry.
Qed.

(** The theorem for a backend whose request finds the queue full. *)
Lemma RegisterSyncRequest_forward_once_witness :
  RegisterSyncRequest quiet_env (λ _ _ _, false) 0 T1 SYNC_FORGET_REQUEST false backend_start
  = (Ret false,
     {| local := initial_state; forwarded := [(T1, SYNC_FORGET_REQUEST)]; slept := [] |}).
Proof.
  exact (RegisterSyncRequest_forward_once quiet_env (λ _ _ _, false) 0 T1
           SYNC_FORGET_REQUEST backend_start eq_refl).
Defined.

(** X16.  In a process without a pending-ops table and with retryOnError
    true, RegisterSyncRequest keeps calling ForwardSyncRequest until a
    call succeeds, sleeping 10000 microseconds after each failed call: if
    the first success comes after [k] failures it returns true having made
    [k+1] calls and [k] sleeps.  It never returns false, and the process's
    own sync state is not touched. *)
Theorem RegisterSyncRequest_retries_until_queued (env : Env)
    (ForwardSyncRequest : nat → FileTag → SyncRequestType → bool)
    (fuel : nat) (ftag : FileTag) (type : SyncRequestType) (b : Backend) :
  pendingOps (local b) = None →
  let r := RegisterSyncRequest env ForwardSyncRequest fuel ftag type true b in
  (∀ k, first_success (λ n, ForwardSyncRequest n ftag type) (length (forwarded b)) fuel
        = Some k →
        r = (Ret true,
             {| local := local b;
                forwarded := forwarded b ++ replicate (S k) (ftag, type);
                slept := slept b ++ replicate k 10000 |})
        ∧ ForwardSyncRequest (length (forwarded b) + k)%nat ftag type = true
        ∧ ∀ j, (j < k)%nat → ForwardSyncRequest (length (forwarded b) + j)%nat ftag type = false)
  ∧ r.1 ≠ Ret false
  ∧ local r.2 = local b.
Proof.
  intros Hnone r. subst r. unfold RegisterSyncRequest. rewrite Hnone.
  rewrite RegisterSyncRequest_loop_retry. split; [|split].
  - intros k Hk. rewrite Hk. split; [done|].
    clear Hnone. revert Hk. generalize (length (forwarded b)). clear b.
    revert k. induction fuel as [|fuel IH]; intros k n; simpl.
    + destruct (ForwardSyncRequest n ftag type) eqn:Hf; [|done].
      intros [= <-]. rewrite Nat.add_0_r. split; [done|]. intros j Hj. lia.
    + destruct (ForwardSyncRequest n ftag type) eqn:Hf.
      * intros [= <-]. rewrite Nat.add_0_r. split; [done|]. intros j Hj. lia.
      * destruct (first_success _ (S n) fuel) as [k'|] eqn:Hk'; [|done].
        simpl. intros [= <-]. destruct (IH k' (S n) Hk') as [H1 H2].
        split; [by replace (n + S k')%nat with (S n + k')%nat by lia|].
        intros [|j] Hj; [by rewrite Nat.add_0_r|].
        replace (n + S j)%nat with (S n + j)%nat by lia. apply H2. lia.
  - by destruct (first_success _ _ fuel).
  - by destruct (first_success _ _ fuel).
Qed.

(** The theorem for a backend that finds the queue full twice. *)
Lemma RegisterSyncRequest_retries_until_queued_witness :
  RegisterSyncRequest quiet_env (λ n _ _, bool_decide (2 ≤ n)%nat) 5 T1 SYNC_REQUEST true
    backend_start
  = (Ret true,
     {| local := initial_state;
        forwarded := [(T1, SYNC_REQUEST); (T1, SYNC_REQUEST); (T1, SYNC_REQUEST)];
        slept := [10000; 10000] |}).
Proof.
  exact (proj1 (proj1 (RegisterSyncRequest_retries_until_queued quiet_env
                         (λ n _ _, bool_decide (2 ≤ n)%nat) 5 T1 SYNC_REQUEST backend_start
                         eq_refl) 2%nat eq_refl)).
Defined.

(** *** RememberSyncRequest *)

(** X17.  Whatever the request and whether it returns or fails,
    RememberSyncRequest leaves the in-flight and retry queues, both cycle
    counters, the pass statistics and the exported checkpoint statistics
    as they are; it calls no handler's sync or unlink function, logs
    nothing and does not read the clock (trace and tick counts are
    unchanged).  No key leaves the pending-ops table, and every entry
    afterwards is stamped with the current sync_cycle_ctr or has the
    cycle_ctr the entry of its key had before.  The pending-unlinks list
    afterwards is a sublist of the old one followed by entries stamped
    with the current checkpoint_cycle_ctr. *)
Theorem RememberSyncRequest_frame
    (env : Env) (ftag : FileTag) (type : SyncRequestType) (st : State) :
  let st' := (RememberSyncRequest env ftag type st).2 in
  inflightSyncs st' = inflightSyncs st ∧ retrySyncs st' = retrySyncs st
  ∧ sync_cycle_ctr st' = sync_cycle_ctr st
  ∧ checkpoint_cycle_ctr st' = checkpoint_cycle_ctr st
  ∧ sync_in_progress (sync_state_global st') = sync_in_progress (sync_state_global st)
  ∧ processed (sync_state_global st') = processed (sync_state_global st)
  ∧ longest (sync_state_global st') = longest (sync_state_global st)
  ∧ total_elapsed (sync_state_global st') = total_elapsed (sync_state_global st)
  ∧ CheckpointStats st' = CheckpointStats st
  ∧ trace st' = trace st ∧ ticks st' = ticks st
  ∧ (∀ k, is_Some (table_of st !! k) → is_Some (table_of st' !! k))
  ∧ (∀ k e', table_of st' !! k = Some e' →
       cycle_ctr e' = sync_cycle_ctr st
       ∨ ∃ e, table_of st !! k = Some e ∧ cycle_ctr e' = cycle_ctr e)
  ∧ ∃ kept news,
      pendingUnlinks st' = kept ++ news ∧ sublist kept (pendingUnlinks st)
      ∧ Forall (λ e, u_cycle_ctr e = checkpoint_cycle_ctr st) news.
Proof.
  intros st'. subst st'.
  pose proof (RememberSyncRequest_absorbed env ftag type st) as [].
  pose proof (RememberSyncRequest_silent env ftag type st) as [? ?].
  repeat split; done.
Qed.

Lemma filter_filter_same {A} (P : A → Prop) `{!∀ x, Decision (P x)} (l : list A) :
  filter P (filter P l) = filter P l.
Proof.
  apply filter_all. induction l as [|x l IH]; [constructor|].
  rewrite filter_cons. destruct (decide (P x)); [by constructor|done].
Qed.

(** X18.  Registering an fsync request, a cancel for one tag, or a
    pattern cancel (for a handler that has a match function) twice in a
    row has the effect of registering it once: the second call changes
    nothing.  (An unlink request is different: each call appends an
    entry.) *)
Theorem RememberSyncRequest_idempotent
    (env : Env) (ftag : FileTag) (type : SyncRequestType) (st : State) :
  type ≠ SYNC_UNLINK_REQUEST →
  (type = SYNC_FILTER_REQUEST → is_Some (sync_filetagmatches (syncsw (handler ftag)))) →
  (RememberSyncRequest env ftag type;; RememberSyncRequest env ftag type) st
  = RememberSyncRequest env ftag type st
  ∧ (is_Some (pendingOps st) →
     length (pendingUnlinks
               ((RememberSyncRequest env ftag SYNC_UNLINK_REQUEST;;
                 RememberSyncRequest env ftag SYNC_UNLINK_REQUEST) st).2)
     = S (S (length (pendingUnlinks st)))).
Proof.
  intros Hty Hfn. split.
  2: { intros Hsome. unfold bind. rewrite RememberSyncRequest_unlink_run by done.
       rewrite RememberSyncRequest_unlink_run by done. simpl.
       rewrite !length_app. simpl. lia. }
  destruct (pendingOps st) as [tbl|] eqn:Htbl.
  2: { unfold bind. by rewrite RememberSyncRequest_no_table. }
  unfold bind. destruct type; [| done | |].
  - rewrite (RememberSyncRequest_fsync_run _ _ _ _ Htbl).
    destruct (tbl !! ftag) as [e|] eqn:He; [destruct (canceled e) eqn:Hc|].
    + rewrite (RememberSyncRequest_fsync_run _ _ (<[ftag := fresh_entry st]> tbl)) by done.
      rewrite lookup_insert_eq. done.
    + rewrite (RememberSyncRequest_fsync_run _ _ _ _ Htbl), He, Hc. done.
    + rewrite (RememberSyncRequest_fsync_run _ _ (<[ftag := fresh_entry st]> tbl)) by done.
      rewrite lookup_insert_eq. done.
  - rewrite (RememberSyncRequest_forget_run _ _ _ _ Htbl).
    rewrite (RememberSyncRequest_forget_run _ _ (alter (set_canceled true) ftag tbl)) by done.
    rewrite set_pendingOps_twice. do 3 f_equal. apply map_eq. intros k.
    rewrite !lookup_alter. repeat case_decide; try done. by destruct (tbl !! ftag).
  - destruct (Hfn eq_refl) as [f Hf].
    rewrite (RememberSyncRequest_filter_run env ftag f Hf st tbl Htbl).
    erewrite (RememberSyncRequest_filter_run env ftag f Hf) by done.
    simpl. f_equal. unfold set_pendingUnlinks, set_pendingOps. simpl. f_equal.
    + f_equal. apply map_eq. intros k. rewrite !map_lookup_imap.
      destruct (tbl !! k) as [e|]; simpl; [|done]. by rewrite cancel_if_hit_idemp.
    + apply filter_filter_same.
Qed.

(** The theorem for an fsync request for [T3] registered twice on
    [one_request_state]. *)
Lemma RememberSyncRequest_idempotent_witness :
  (RememberSyncRequest quiet_env T3 SYNC_REQUEST;;
   RememberSyncRequest quiet_env T3 SYNC_REQUEST) one_request_state
  = RememberSyncRequest quiet_env T3 SYNC_REQUEST one_request_state.
Proof.
  refine (proj1 (RememberSyncRequest_idempotent quiet_env T3 SYNC_REQUEST one_request_state
                   _ _)).
  - discriminate.
  - discriminate.
Defined.

(** X19.  A pattern cancel undoes an unlink request registered just
    before it when the pattern hits the request's tag: the state is the
    one the pattern cancel alone would give.  When the pattern does not
    hit the tag the two requests commute. *)
Theorem RememberSyncRequest_unlink_then_filter
    (env : Env) (f : MatchFn) (pattern t : FileTag) (st : State) :
  is_Some (pendingOps st) →
  sync_filetagmatches (syncsw (handler pattern)) = Some f →
  (RememberSyncRequest env t SYNC_UNLINK_REQUEST;;
   RememberSyncRequest env pattern SYNC_FILTER_REQUEST) st
  = if pattern_hits env f pattern t
    then RememberSyncRequest env pattern SYNC_FILTER_REQUEST st
    else (RememberSyncRequest env pattern SYNC_FILTER_REQUEST;;
          RememberSyncRequest env t SYNC_UNLINK_REQUEST) st.
Proof.
  intros [tbl Htbl] Hf. unfold bind.
  rewrite RememberSyncRequest_unlink_run by by rewrite Htbl.
  erewrite (RememberSyncRequest_filter_run env pattern f Hf) by done.
  rewrite (RememberSyncRequest_filter_run env pattern f Hf st tbl Htbl).
  simpl. rewrite filter_app, filter_cons, filter_nil. simpl.
  destruct (pattern_hits env f pattern t) eqn:Hhit.
  - rewrite decide_False by done. by rewrite app_nil_r.
  - rewrite decide_True by done.
    rewrite RememberSyncRequest_unlink_run by done. done.
Qed.

(** The theorem at [busy_state]: the unlink request for [T1] is undone by
    the pattern cancel for the relation of [T1]. *)
Lemma RememberSyncRequest_unlink_then_filter_witness :
  (RememberSyncRequest quiet_env T1 SYNC_UNLINK_REQUEST;;
   RememberSyncRequest quiet_env T1 SYNC_FILTER_REQUEST) busy_state
  = RememberSyncRequest quiet_env T1 SYNC_FILTER_REQUEST busy_state.
Proof.
  exact (RememberSyncRequest_unlink_then_filter quiet_env mdfiletagmatches T1 T1 busy_state
           (mk_is_Some _ _ eq_refl) eq_refl).
Defined.

(** *** SyncPostCheckpoint *)

(** X20.  In any environment, whatever requests are absorbed meanwhile
    (pattern cancels included), every unlink call SyncPostCheckpoint makes
    is for an entry that was on the pending-unlinks list when it started
    and carried a cycle counter other than the current
    checkpoint_cycle_ctr, and the calls are made in list order; so it
    makes at most as many calls as there are such entries, and a file
    whose only unlink requests were queued in the current cycle is never
    unlinked.  The loop always ends.  When the list is empty or its first
    entry is of the current cycle, nothing at all is done, even if older
    entries follow. *)
Theorem SyncPostCheckpoint_unlinks_only_old (env : Env) (st : State) :
  (∃ tags,
     unlink_events (trace (SyncPostCheckpoint env st).2) = unlink_events (trace st) ++ tags
     ∧ sublist tags (u_tag <$> old_unlinks st)
     ∧ (length tags ≤ length (old_unlinks st))%nat)
  ∧ (SyncPostCheckpoint env st).1 ≠ Throw OutOfFuel
  ∧ (match pendingUnlinks st with
     | [] => True
     | e :: _ => u_cycle_ctr e = checkpoint_cycle_ctr st
     end → SyncPostCheckpoint env st = (Ret tt, st)).
Proof.
  split; [|split].
  - unfold SyncPostCheckpoint, bind, gets. simpl.
    destruct (SyncPostCheckpoint_loop_unlinks_old env (length (old_unlinks st))
                UNLINKS_PER_ABSORB st) as (tags & Ht & Hs).
    exists tags. split; [done|]. split; [done|].
    apply sublist_length in Hs. by rewrite length_fmap in Hs.
  - apply SyncPostCheckpoint_fueled.
  - intros Hhead. unfold SyncPostCheckpoint, bind, gets. simpl.
    destruct (pendingUnlinks st) as [|e rest] eqn:Hl.
    + by apply SyncPostCheckpoint_loop_nil.
    + by eapply SyncPostCheckpoint_loop_stop.
Qed.

(** *** Processes without a pending-ops table *)

(** X21.  InitSync creates an empty pending-ops table and empties the
    pending-unlinks list in a standalone process or the checkpointer, and
    does nothing in any other process.  Without a table,
    ProcessSyncRequests raises ERROR "cannot sync without a pendingOps
    table" before it absorbs or changes anything, and RememberSyncRequest
    fails its assertion for every request. *)
Theorem sync_without_table
    (env : Env) (ftag : FileTag) (type : SyncRequestType) (st : State) :
  InitSync false st = (Ret tt, st)
  ∧ (∃ st', InitSync true st = (Ret tt, st')
            ∧ pendingOps st' = Some ∅ ∧ pendingUnlinks st' = []
            ∧ st' = set_pendingUnlinks [] (set_pendingOps (Some ∅) st))
  ∧ (pendingOps st = None →
       ProcessSyncRequests env st
       = (Throw (Ereport ERROR "cannot sync without a pendingOps table"), st)
       ∧ RememberSyncRequest env ftag type st = (Throw (AssertFailure "pendingOps"), st)
       ∧ ProcessSyncRequests env (InitSync false st).2
         = (Throw (Ereport ERROR "cannot sync without a pendingOps table"), st)).
Proof.
  split; [done|]. split; [by eexists|]. intros Hnone.
  assert (ProcessSyncRequests env st
          = (Throw (Ereport ERROR "cannot sync without a pendingOps table"), st)) as Hp.
  { unfold ProcessSyncRequests, bind at 1. by rewrite ProcessSyncRequests_start_run, Hnone. }
  split; [done|]. split; [by apply RememberSyncRequest_no_table|done].
Qed.

(** *** ProcessSyncRequests: what a returned pass has done *)

Lemma CycleCtr_cast_succ_ne_self x : CycleCtr_cast (x + 1) ≠ x.
Proof.
  unfold CycleCtr_cast. pose proof (Z.mod_pos_bound (x + 1) 65536 eq_refl) as Hb.
  intros Heq. rewrite Heq in Hb.
  destruct (decide (x = 65535)) as [->|Hne]; [done|].
  rewrite Z.mod_small in Heq by lia. lia.
Qed.

Lemma ProcessSyncRequests_until_checks_returns env st st2 :
  ProcessSyncRequests_until_checks env st = (Ret tt, st2) →
  sync_in_progress (sync_state_global st) = false
  ∧ sync_in_progress (sync_state_global st2) = true
  ∧ sync_cycle_ctr st2 = CycleCtr_cast (sync_cycle_ctr st + 1)
  ∧ checkpoint_cycle_ctr st2 = checkpoint_cycle_ctr st
  ∧ unlink_events (trace st2) = unlink_events (trace st).
Proof.
  assert (ProcessSyncRequests_until_checks env st
          = match ProcessSyncRequests_start env st with
            | (Ret _, st1) =>
                bind (ProcessSyncRequests_scan env)
                  (λ _, bind (pg_streaming_write_wait_all env)
                          (λ _, ProcessSyncRequests_retries env)) st1
            | (Throw e, st1) => (Throw e, st1)
            end) as -> by reflexivity.
  rewrite ProcessSyncRequests_start_run.
  destruct (pendingOps st) as [tbl|]; [|done].
  pose proof (AbsorbSyncRequests_absorbed' env st) as Ha.
  destruct (AbsorbSyncRequests env st) as [[[]|e] st1]; simpl in Ha; [|done].
  destruct (sync_in_progress (sync_state_global st1)) eqn:Hp; [done|].
  assert (progressed (begin_pass st1)
            (bind (ProcessSyncRequests_scan env)
               (λ _, bind (pg_streaming_write_wait_all env)
                       (λ _, ProcessSyncRequests_retries env)) (begin_pass st1)).2) as Hpr.
  { apply steps_bind; [apply _|apply ProcessSyncRequests_scan_progressed|].
    intros _ st3 _. apply steps_bind; [apply _| |].
    - apply completed_progressed, pg_streaming_write_wait_all_completed.
    - intros _ st4 _. apply ProcessSyncRequests_retries_progressed. }
  intros Hrun. rewrite Hrun in Hpr. simpl in Hpr.
  split; [by rewrite <-(absorbed_in_progress _ _ Ha)|].
  split; [by rewrite (progressed_in_progress _ _ Hpr)|].
  split; [rewrite (progressed_sync_cycle _ _ Hpr); simpl;
          by rewrite (absorbed_sync_cycle _ _ Ha)|].
  split; [rewrite (progressed_checkpoint_cycle _ _ Hpr); simpl;
          by rewrite (absorbed_checkpoint_cycle _ _ Ha)|].
  rewrite (progressed_unlink_events _ _ Hpr). simpl.
  by rewrite (absorbed_unlink_events _ _ Ha).
Qed.

(** *** SyncRequestCompleted: a successful flush *)

(** X23.  For a successful flush of the in-flight entry [ie],
    SyncRequestCompleted takes the entry off the in-flight queue and
    counts the flush: processed goes up by one in int arithmetic (by one
    below INT_MAX, and from INT_MAX round to INT_MIN), total_elapsed by
    the elapsed time (in uint64 arithmetic) and longest becomes the larger
    of its old value and the elapsed time; the errno argument is ignored.
    It then removes the owning entry from the pending-ops table and
    returns; if the table has no such entry it raises ERROR "pendingOps
    corrupted" instead, with the flush already counted and the entry
    already off the queue.  The retry queue is not touched. *)
Theorem SyncRequestCompleted_success_counts
    (env : Env) (i : nat) (err : Z) (st : State) (ie : InflightSyncEntry)
    (tbl : gmap FileTag PendingFsyncEntry) :
  inflightSyncs st !! i = Some ie →
  pendingOps st = Some tbl →
  let r := SyncRequestCompleted env i true err st in
  let elapsed := uint64_cast (clock env (t_clock (ticks st)) - start_time ie) in
  inflightSyncs r.2 = delete i (inflightSyncs st)
  ∧ retrySyncs r.2 = retrySyncs st
  ∧ processed (sync_state_global r.2) = int_cast (processed (sync_state_global st) + 1)
  ∧ (-2147483648 ≤ processed (sync_state_global st) < 2147483647 →
       processed (sync_state_global r.2) = processed (sync_state_global st) + 1)
  ∧ (processed (sync_state_global st) = 2147483647 →
       processed (sync_state_global r.2) = -2147483648)
  ∧ longest (sync_state_global r.2) = Z.max (longest (sync_state_global st)) elapsed
  ∧ total_elapsed (sync_state_global r.2)
    = uint64_cast (total_elapsed (sync_state_global st) + elapsed)
  ∧ sync_events (trace r.2) = sync_events (trace st)
  ∧ (is_Some (tbl !! hash_entry ie) →
       r.1 = Ret tt ∧ pendingOps r.2 = Some (delete (hash_entry ie) tbl))
  ∧ (tbl !! hash_entry ie = None →
       r.1 = Throw (Ereport ERROR "pendingOps corrupted") ∧ pendingOps r.2 = Some tbl).
Proof.
  intros Hi Htbl r elapsed. subst r elapsed.
  rewrite (SyncRequestCompleted_success env i err st ie Hi), Htbl. cbv zeta.
  assert (∀ s e, longest (if longest s <? e then set_longest e s else s)
                 = Z.max (longest s) e) as Hmax.
  { intros s e. destruct (longest s <? e) eqn:Hlt; simpl.
    - apply Z.ltb_lt in Hlt. lia.
    - apply Z.ltb_ge in Hlt. lia. }
  assert (∀ p, -2147483648 ≤ p < 2147483647 → int_cast (p + 1) = p + 1) as Hin
    by (intros p Hp; unfold int_cast; rewrite Z.mod_small; lia).
  assert (∀ p, p = 2147483647 → int_cast (p + 1) = -2147483648) as Hmaxint
    by by intros p ->.
  destruct (tbl !! hash_entry ie) as [pe|] eqn:Hpe;
    destruct (log_checkpoints env); simpl;
    rewrite ?Hmax, ?sync_events_app, ?app_nil_r;
    (split_and!; try done; try apply Hin; try apply Hmaxint; try (by intros [? [=]])).
Qed.

(** The theorem at [inflight_state]. *)
Lemma SyncRequestCompleted_success_counts_witness :
  processed (sync_state_global (SyncRequestCompleted quiet_env 0 true 0 inflight_state).2)
  = int_cast (0 + 1)
  ∧ pendingOps (SyncRequestCompleted quiet_env 0 true 0 inflight_state).2
    = Some (delete T1 {[ T1 := {| cycle_ctr := 0; canceled := false |} ]}).
Proof.
  pose proof (SyncRequestCompleted_success_counts quiet_env 0 0 inflight_state
                (new_inflight_entry T1) {[ T1 := {| cycle_ctr := 0; canceled := false |} ]}
                eq_refl eq_refl) as H.
  split.
  - exact (proj1 (proj2 (proj2 H))).
  - refine (proj2 (proj1 (proj2 (proj2 (proj2 (proj2 (proj2 (proj2 (proj2 (proj2 H)))))))) _)).
    eexists. apply lookup_singleton_eq.
Defined.

(** *** ProcessSyncRequests with fsync disabled *)

#[global] Instance sync_idle_preorder : PreOrder sync_idle.
Proof.
  split.
  - by intros st.
  - intros a b c (?&?&?&?&?&?) (?&?&?&?&?&?). repeat split; congruence.
Qed.

Lemma absorbed_sync_idle st st' : absorbed st st' → sync_idle st st'.
Proof. intros []. by repeat split. Qed.

Lemma ProcessSyncRequests_entry_no_fsync env key entry st :
  enableFsync env = false →
  sync_idle st (ProcessSyncRequests_entry env key entry st).2.
Proof.
  intros Hoff.
  destruct (decide (cycle_ctr entry = sync_cycle_ctr st)) as [H1|H1];
    [by rewrite ProcessSyncRequests_entry_skip|].
  destruct (decide (CycleCtr_cast (cycle_ctr entry + 1) = sync_cycle_ctr st)) as [H2|H2];
    [|by rewrite ProcessSyncRequests_entry_missed].
  rewrite ProcessSyncRequests_entry_eligible by done.
  pose proof (absorbed_sync_idle _ _ (interleave_absorb_absorbed env st)) as Ha.
  destruct (interleave_absorb env st) as [[[]|e] st1]; simpl in Ha; [|done].
  destruct (pendingOps st1) as [tbl|] eqn:Htbl; [|done].
  destruct (tbl !! key) as [entry'|]; [|done].
  rewrite Hoff. simpl. done.
Qed.

Lemma ProcessSyncRequests_scan_no_fsync env st :
  enableFsync env = false →
  sync_idle st (ProcessSyncRequests_scan env st).2.
Proof.
  intros Hoff. unfold ProcessSyncRequests_scan.
  apply steps_bind; [apply _|done|].
  intros _ st1 _. apply steps_hash_seq_scan; [apply _|].
  intros key entry st2 _ _. by apply ProcessSyncRequests_entry_no_fsync.
Qed.

Lemma ProcessSyncRequests_after_idle_scan env st2 :
  inflightSyncs st2 = [] → retrySyncs st2 = [] →
  (pg_streaming_write_wait_all env;;
   ProcessSyncRequests_retries env;;
   ProcessSyncRequests_finish) st2 = (Ret tt, end_pass st2).
Proof.
  intros Hi Hr.
  assert (pg_streaming_write_wait_all env st2 = (Ret tt, st2)) as Hw.
  { unfold pg_streaming_write_wait_all, bind, gets. by rewrite Hi. }
  assert (RetrySyncRequests env st2 = (Ret tt, st2)) as Hretry
    by by rewrite RetrySyncRequests_run, Hr.
  assert (ProcessSyncRequests_retries env st2 = (Ret tt, st2)) as Hrs.
  { unfold ProcessSyncRequests_retries. simpl. unfold bind. by rewrite !Hretry. }
  rewrite (bind_Ret _ _ _ _ _ Hw), (bind_Ret _ _ _ _ _ Hrs).
  by rewrite ProcessSyncRequests_finish_run, Hi, Hr.
Qed.

(** X24.  With fsync disabled, a pass of ProcessSyncRequests, in a state
    the process can reach, calls no handler's sync function at all; and
    if it returns, the exported checkpoint statistics count no flush:
    ckpt_sync_rels, ckpt_longest_sync and ckpt_agg_sync_time are 0. *)
Theorem ProcessSyncRequests_fsync_disabled (env : Env) (st : State) :
  enableFsync env = false →
  reachable st →
  sync_events (trace (ProcessSyncRequests env st).2) = sync_events (trace st)
  ∧ ((ProcessSyncRequests env st).1 = Ret tt →
       CheckpointStats (ProcessSyncRequests env st).2
       = {| ckpt_sync_rels := 0; ckpt_longest_sync := 0; ckpt_agg_sync_time := 0 |}).
Proof.
  intros Hoff Hreach.
  destruct (reachable_sync_inv st Hreach) as (_ & _ & Hq).
  assert (ProcessSyncRequests env st
          = match ProcessSyncRequests_start env st with
            | (Ret _, st1) =>
                (ProcessSyncRequests_scan env;;
                 pg_streaming_write_wait_all env;;
                 ProcessSyncRequests_retries env;;
                 ProcessSyncRequests_finish) st1
            | (Throw e, st1) => (Throw e, st1)
            end) as -> by reflexivity.
  rewrite ProcessSyncRequests_start_run.
  destruct (pendingOps st) as [tbl|]; [|done].
  pose proof (AbsorbSyncRequests_absorbed' env st) as Ha.
  destruct (AbsorbSyncRequests env st) as [[[]|e] st1]; simpl in Ha.
  2: { split; [apply Ha|done]. }
  destruct (sync_in_progress (sync_state_global st1)) eqn:Hp.
  { split; [apply Ha|done]. }
  rewrite (absorbed_in_progress _ _ Ha) in Hp. destruct (Hq Hp) as (_ & Hi & Hr).
  pose proof (ProcessSyncRequests_scan_no_fsync env (begin_pass st1) Hoff)
    as (I1 & I2 & I3 & I4 & I5 & I6).
  unfold bind at 1 4 7.
  destruct (ProcessSyncRequests_scan env (begin_pass st1)) as [[[]|e] st2]; simpl in *.
  2: { split; [|done]. rewrite I3. apply Ha. }
  rewrite ProcessSyncRequests_after_idle_scan.
  - simpl. split; [rewrite I3; apply Ha|]. intros _. by rewrite I4, I5, I6.
  - by rewrite I1, (absorbed_inflight _ _ Ha).
  - by rewrite I2, (absorbed_retry _ _ Ha).
Qed.

(** The theorem for the checkpointer after InitSync and one fsync
    request for [T1], with fsync off. *)
Lemma ProcessSyncRequests_fsync_disabled_witness :
  let env :=
    {| absorb_feed := λ _, []; drain_at := λ _, []; io_result := λ _, (true, 0);
       clock := λ n, Z.of_nat n; run_unlinkfiletag := λ _ _ _, (0, 0);
       run_filetagmatches := λ _ p c, bool_decide (rnode p = rnode c);
       FILE_POSSIBLY_DELETED := λ e, e =? 2; ENOENT := 2;
       enableFsync := false; log_checkpoints := false; data_sync_retry := false |} in
  let st := (run_call env (CallRememberSyncRequest T1 SYNC_REQUEST)
               (InitSync true initial_state).2).2 in
  sync_events (trace (ProcessSyncRequests env st).2) = sync_events (trace st).
Proof.
  intros env st.
  exact (proj1 (ProcessSyncRequests_fsync_disabled env st eq_refl
                  (reachable_step env (CallRememberSyncRequest T1 SYNC_REQUEST)
                     _ (reachable_init true)))).
Defined.

(** *** ProcessSyncRequests when every flush succeeds *)

Lemma flush_inv_same tbl c0 p0 S0 todo st st' :
  flush_same st st' → flush_inv tbl c0 p0 S0 todo st → flush_inv tbl c0 p0 S0 todo st'.
Proof.
  intros (E1 & E2 & E3 & E4 & E5 & E6) (t & dn & subs & H).
  exists t, dn, subs. rewrite E1, E2, E3, E4, E5, E6. exact H.
Qed.

Lemma int_cast_add_l x y : int_cast (int_cast x + y) = int_cast (x + y).
Proof.
  unfold int_cast.
  replace (x + y + 2147483648) with ((x + 2147483648) + y) by lia.
  rewrite (Z.add_mod (x + 2147483648) y) by done.
  replace ((x + 2147483648) mod 4294967296 - 2147483648 + y + 2147483648)
    with ((x + 2147483648) mod 4294967296 + y) by lia.
  by rewrite (Z.add_mod ((x + 2147483648) mod 4294967296) y), Z.mod_mod by done.
Qed.

Lemma iter_int_cast_succ n :
  Nat.iter n (λ p, int_cast (p + 1)) 0 = int_cast (Z.of_nat n).
Proof.
  induction n as [|n IH]; [done|].
  simpl Nat.iter. rewrite IH, int_cast_add_l. f_equal. lia.
Qed.

Lemma int_cast_small x : -2147483648 ≤ x < 2147483648 → int_cast x = x.
Proof. intros Hx. unfold int_cast. rewrite Z.mod_small; lia. Qed.

Lemma AbsorbSyncRequests_quiet env st :
  (∀ n, absorb_feed env n = []) →
  AbsorbSyncRequests env st
  = (Ret tt, set_trace (trace st ++ [EvAbsorb]) (set_ticks (bump_absorb (ticks st)) st)).
Proof. intros Hfeed. unfold AbsorbSyncRequests. mrun. by rewrite Hfeed. Qed.

Lemma interleave_absorb_quiet env st :
  (∀ n, absorb_feed env n = []) →
  ∃ st1, interleave_absorb env st = (Ret tt, st1) ∧ flush_same st st1.
Proof.
  intros Hfeed. unfold interleave_absorb. mrun.
  destruct (int_cast (absorb_counter (sync_state_global st) - 1) <=? 0); simpl.
  - rewrite AbsorbSyncRequests_quiet by done. simpl. eexists. split; [done|].
    repeat split; simpl; try done. by rewrite sync_events_app, app_nil_r.
  - eexists. split; [done|]. by repeat split.
Qed.

(** A successful completion, in terms of what a flush depends on. *)
Lemma deliver_completion_success env i st ie t :
  (∀ n, (io_result env n).1 = true) →
  inflightSyncs st !! i = Some ie →
  pendingOps st = Some t →
  is_Some (t !! hash_entry ie) →
  ∃ st',
    deliver_completion env i st = (Ret tt, st')
    ∧ pendingOps st' = Some (delete (hash_entry ie) t)
    ∧ inflightSyncs st' = delete i (inflightSyncs st)
    ∧ retrySyncs st' = retrySyncs st
    ∧ sync_cycle_ctr st' = sync_cycle_ctr st
    ∧ sync_events (trace st') = sync_events (trace st)
    ∧ processed (sync_state_global st') = int_cast (processed (sync_state_global st) + 1).
Proof.
  intros Hio Hi Ht [pe Hpe]. unfold deliver_completion, bind at 1, gets at 1.
  rewrite decide_True by by eapply lookup_lt_Some.
  unfold bind at 1, tick. rewrite Hio.
  rewrite (SyncRequestCompleted_success env i _ _ ie) by done.
  cbv zeta. simpl. rewrite Ht, Hpe.
  eexists. split; [done|].
  destruct (log_checkpoints env); simpl;
    rewrite ?sync_events_app, ?app_nil_r; by repeat split.
Qed.

Lemma deliver_completion_idle env i st :
  (length (inflightSyncs st) ≤ i)%nat → deliver_completion env i st = (Ret tt, st).
Proof.
  intros Hi. unfold deliver_completion, bind, gets. by rewrite decide_False by lia.
Qed.

Lemma elem_of_fmap_delete_ne {A B} (f : A → B) (l : list A) i x y :
  NoDup (f <$> l) → l !! i = Some x → y ∈ f <$> delete i l → y ∈ f <$> l ∧ y ≠ f x.
Proof.
  intros Hnd Hi Hy. rewrite (delete_Permutation l i x Hi) in Hnd |- *.
  rewrite fmap_cons in Hnd |- *. apply NoDup_cons in Hnd as [Hx _].
  split; [by right|]. by intros ->.
Qed.

Lemma flush_inv_completion env tbl c0 p0 S0 todo i :
  (∀ n, (io_result env n).1 = true) →
  triple (flush_inv tbl c0 p0 S0 todo) (deliver_completion env i)
    (λ _, flush_inv tbl c0 p0 S0 todo) (λ _ _, False).
Proof.
  intros Hio st Hinv.
  destruct (inflightSyncs st !! i) as [ie|] eqn:Hi.
  2: { rewrite deliver_completion_idle by by apply lookup_ge_None. done. }
  destruct Hinv as (t & dn & subs & Ht & Hr & Hnd & Hown & Hdom & Htodo & Hcyc & Hk & Hs
                    & Hf & Hle & Hcount & Hliv).
  assert (hash_entry ie ∈ hash_entry <$> inflightSyncs st) as Hin
    by (apply list_elem_of_fmap; exists ie; split; [done|by eapply list_elem_of_lookup_2]).
  destruct (deliver_completion_success env i st ie t Hio Hi Ht (Hown _ Hin))
    as (st' & -> & E1 & E2 & E3 & E4 & E5 & E6).
  exists (delete (hash_entry ie) t), dn, subs.
  rewrite E2, E3, E4, E5, E6.
  split; [done|]. split; [done|]. split.
  { rewrite (delete_Permutation _ i ie Hi), fmap_cons in Hnd.
    by apply NoDup_cons in Hnd as [_ ?]. }
  split.
  { intros k Hkin. destruct (elem_of_fmap_delete_ne _ _ _ _ _ Hnd Hi Hkin) as [H1 H2].
    rewrite lookup_delete_ne by done. by apply Hown. }
  split.
  { intros k [e He]. apply lookup_delete_Some in He as [Hne He].
    destruct (Hdom k) as [?|Hq]; [by eexists|by left|]. right.
    destruct (elem_of_fmap_delete _ _ _ _ _ Hi Hq) as [->|?]; done. }
  split.
  { intros k Hkin. destruct (Htodo k Hkin) as [H1 H2]. split.
    - rewrite lookup_delete_ne; [done|]. intros <-. by apply H2.
    - intros Hq. apply H2. by eapply elem_of_fmap_delete_ne. }
  split; [done|]. split; [done|]. split; [done|]. split; [done|].
  rewrite length_delete by by eexists.
  apply lookup_lt_Some in Hi. split; [lia|]. split.
  { replace (length subs - (length (inflightSyncs st) - 1))%nat
      with (S (length subs - length (inflightSyncs st))) by lia.
    simpl. by rewrite Hcount. }
  intros k Hkin. apply Hliv. eapply elem_of_sublist; [exact Hkin|].
  apply fmap_sublist, sublist_delete.
Qed.

Lemma call_syncfiletag_run env ie st :
  call_syncfiletag env ie st
  = forM_ (drain_at env (t_sync (ticks st))) (deliver_completion env) (submitted env ie st).
Proof. unfold call_syncfiletag, call_sync. by mrun. Qed.

Lemma flush_inv_keys tbl c0 p0 S0 todo st k :
  flush_inv tbl c0 p0 S0 todo st → k ∈ todo → is_Some (tbl !! k).
Proof.
  intros (t & dn & subs & _ & _ & _ & _ & _ & _ & _ & Hk & _) Hin.
  assert (k ∈ (map_to_list tbl).*1) as Hkeys
    by (rewrite Hk; apply elem_of_app; by right).
  apply list_elem_of_fmap in Hkeys as [[k' e] [-> Hke]].
  apply elem_of_map_to_list in Hke. by eexists.
Qed.

Lemma flush_inv_head_fresh tbl c0 p0 S0 k rest st :
  flush_inv tbl c0 p0 S0 (k :: rest) st → k ∉ rest.
Proof.
  intros (t & dn & subs & _ & _ & _ & _ & _ & _ & _ & Hk & _).
  pose proof (NoDup_fst_map_to_list tbl) as Hnd. rewrite Hk in Hnd.
  apply NoDup_app in Hnd as (_ & _ & Hnd). by apply NoDup_cons in Hnd as [? _].
Qed.

Lemma flush_inv_submitted env tbl c0 p0 S0 k rest st :
  flush_inv tbl c0 p0 S0 (k :: rest) st → is_live tbl k = true →
  flush_inv tbl c0 p0 S0 rest (submitted env (new_inflight_entry k) st).
Proof.
  intros Hinv Hlive. pose proof (flush_inv_head_fresh _ _ _ _ _ _ _ Hinv) as Hfresh.
  destruct Hinv as (t & dn & subs & Ht & Hr & Hnd & Hown & Hdom & Htodo & Hcyc & Hk & Hs
                    & Hf & Hle & Hcount & Hliv).
  destruct (Htodo k) as [Htk Hnk]; [by left|].
  exists t, (dn ++ [k]),
    (subs ++ [(sync_syncfiletag (syncsw (handler k)), stamped env (new_inflight_entry k) st)]).
  simpl. rewrite fmap_app. simpl.
  split; [done|]. split; [done|]. split.
  { apply NoDup_app. split; [done|]. split; [|by apply NoDup_singleton].
    intros x Hx ->%list_elem_of_singleton. done. }
  split.
  { intros x [Hx| ->%list_elem_of_singleton]%elem_of_app; [by apply Hown|].
    rewrite Htk. unfold is_live in Hlive. by destruct (tbl !! k). }
  split.
  { intros x Hx. destruct (Hdom x Hx) as [[->|?]%elem_of_cons|?].
    - right. apply elem_of_app. right. by left.
    - by left.
    - right. apply elem_of_app. by left. }
  split.
  { intros x Hx. destruct (Htodo x) as [H1 H2]; [by right|]. split; [done|].
    intros [?| ->%list_elem_of_singleton]%elem_of_app; done. }
  split; [done|]. split; [by rewrite Hk, <-(assoc_L (++))|]. split.
  { by rewrite sync_events_app, Hs, <-(assoc_L (++)). }
  split.
  { rewrite filter_app, filter_cons_True, filter_nil by done.
    apply Forall2_app; [done|]. repeat constructor. by eexists. }
  rewrite Hcount, !length_app. simpl. split; [lia|]. split; [f_equal; lia|].
  intros x [Hx| ->%list_elem_of_singleton]%elem_of_app; [by apply Hliv|done].
Qed.

Lemma flush_inv_removed tbl c0 p0 S0 k rest st t :
  flush_inv tbl c0 p0 S0 (k :: rest) st → pendingOps st = Some t → is_live tbl k = false →
  flush_inv tbl c0 p0 S0 rest (set_pendingOps (Some (delete k t)) st).
Proof.
  intros Hinv Ht' Hdead. pose proof (flush_inv_head_fresh _ _ _ _ _ _ _ Hinv) as Hfresh.
  destruct Hinv as (t0 & dn & subs & Ht & Hr & Hnd & Hown & Hdom & Htodo & Hcyc & Hk & Hs
                    & Hf & Hle & Hcount & Hliv).
  rewrite Ht' in Ht. injection Ht as <-.
  destruct (Htodo k) as [Htk Hnk]; [by left|].
  exists (delete k t), (dn ++ [k]), subs. simpl.
  split; [done|]. split; [done|]. split; [done|]. split.
  { intros x Hx. rewrite lookup_delete_ne; [by apply Hown|]. by intros <-. }
  split.
  { intros x [e He]. apply lookup_delete_Some in He as [Hne He].
    destruct (Hdom x) as [[->|?]%elem_of_cons|?]; [by eexists|done|by left|by right]. }
  split.
  { intros x Hx. destruct (Htodo x) as [H1 H2]; [by right|]. split; [|done].
    rewrite lookup_delete_ne; [done|]. by intros <-. }
  split; [done|]. split; [by rewrite Hk, <-(assoc_L (++))|]. split; [done|].
  split; [|done].
  rewrite filter_app, filter_cons_False, filter_nil, app_nil_r; [done|].
  by rewrite Hdead.
Qed.

Lemma flush_inv_entry env tbl c0 p0 S0 key rest entry :
  (∀ n, absorb_feed env n = []) →
  (∀ n, (io_result env n).1 = true) →
  enableFsync env = true →
  (∀ k e, tbl !! k = Some e → cycle_ctr e = c0) →
  triple (λ st, flush_inv tbl c0 p0 S0 (key :: rest) st ∧ table_of st !! key = Some entry)
    (ProcessSyncRequests_entry env key entry)
    (λ _, flush_inv tbl c0 p0 S0 rest) (λ _ _, False).
Proof.
  intros Hfeed Hio Hfs Hcur st [Hinv He].
  assert (tbl !! key = Some entry ∧ sync_cycle_ctr st = CycleCtr_cast (c0 + 1)) as [Hte Hcyc].
  { destruct Hinv as (t & dn & subs & Ht & _ & _ & _ & _ & Htodo & Hcyc & _).
    unfold table_of in He. rewrite Ht in He. simpl in He.
    destruct (Htodo key) as [H1 _]; [by left|]. by rewrite <-H1. }
  pose proof (Hcur key entry Hte) as Hc.
  rewrite ProcessSyncRequests_entry_eligible.
  2: { rewrite Hc, Hcyc. intros Heq. by apply (CycleCtr_cast_succ_ne_self c0). }
  2: { by rewrite Hc, Hcyc. }
  destruct (interleave_absorb_quiet env st Hfeed) as (st1 & -> & Hsame).
  pose proof (flush_inv_same _ _ _ _ _ _ _ Hsame Hinv) as Hinv1.
  assert (∃ t, pendingOps st1 = Some t ∧ t !! key = Some entry) as (t & Ht & Htk).
  { destruct Hinv1 as (t & dn & subs & Ht & _ & _ & _ & _ & Htodo & _).
    exists t. split; [done|].
    destruct (Htodo key) as [H1 _]; [by left|]. by rewrite H1. }
  rewrite Ht, Htk, Hfs. simpl.
  destruct (canceled entry) eqn:Hcan.
  - apply (flush_inv_removed _ _ _ _ _ _ _ _ Hinv1 Ht).
    unfold is_live. by rewrite Hte, Hcan.
  - rewrite call_syncfiletag_run.
    apply (triple_forM_const _ (flush_inv tbl c0 p0 S0 rest) (λ _ _, False)).
    + intros i _. by apply flush_inv_completion.
    + apply flush_inv_submitted; [done|]. unfold is_live. by rewrite Hte, Hcan.
Qed.

Lemma flush_inv_scan env tbl c0 p0 S0 st :
  (∀ n, absorb_feed env n = []) →
  (∀ n, (io_result env n).1 = true) →
  enableFsync env = true →
  (∀ k e, tbl !! k = Some e → cycle_ctr e = c0) →
  flush_inv tbl c0 p0 S0 (map_to_list tbl).*1 st →
  pendingOps st = Some tbl →
  ∃ st', ProcessSyncRequests_scan env st = (Ret tt, st') ∧ flush_inv tbl c0 p0 S0 [] st'.
Proof.
  intros Hfeed Hio Hfs Hcur Hinv Htbl.
  unfold ProcessSyncRequests_scan, bind at 1, modify_sync_state, modify.
  set (st1 := set_sync_state_global _ st).
  assert (flush_inv tbl c0 p0 S0 (map_to_list (table_of st1)).*1 st1) as Hinv1.
  { unfold table_of, st1. simpl. rewrite Htbl. simpl.
    apply (flush_inv_same _ _ _ _ _ st); [by repeat split|done]. }
  clearbody st1.
  pose proof (triple_hash_seq_scan (ProcessSyncRequests_entry env)
                (flush_inv tbl c0 p0 S0) (λ _ _, False)) as Hscan.
  specialize (Hscan (λ key rest entry,
                       flush_inv_entry env tbl c0 p0 S0 key rest entry Hfeed Hio Hfs Hcur)).
  assert (∀ key rest st2, flush_inv tbl c0 p0 S0 (key :: rest) st2 →
            table_of st2 !! key = None → flush_inv tbl c0 p0 S0 rest st2) as Hgone.
  { intros key rest st2 H Hnone. exfalso.
    destruct (flush_inv_keys _ _ _ _ _ _ key H) as [e He]; [by left|].
    destruct H as (t & dn & subs & Ht & _ & _ & _ & _ & Htodo & _).
    destruct (Htodo key) as [H1 _]; [by left|].
    unfold table_of in Hnone. rewrite Ht in Hnone. simpl in Hnone. congruence. }
  assert (∀ l st2, flush_inv tbl c0 p0 S0 l st2 → is_Some (pendingOps st2)) as Hsome.
  { intros l st2 (t & dn & subs & Ht & _). by rewrite Ht. }
  specialize (Hscan Hgone Hsome st1 Hinv1).
  destruct (hash_seq_scan (ProcessSyncRequests_entry env) st1) as [[[]|e] st'];
    [by exists st'|done].
Qed.

Lemma flush_inv_drain_all env tbl c0 p0 S0 :
  (∀ n, (io_result env n).1 = true) →
  ∀ (l : list InflightSyncEntry) st,
    flush_inv tbl c0 p0 S0 [] st → length (inflightSyncs st) = length l →
    ∃ st', forM_ l (λ _, deliver_completion env 0) st = (Ret tt, st')
           ∧ flush_inv tbl c0 p0 S0 [] st' ∧ inflightSyncs st' = [].
Proof.
  intros Hio l. induction l as [|x l IH]; intros st Hinv Hlen; simpl.
  { exists st. split; [done|]. split; [done|]. by apply nil_length_inv. }
  destruct (inflightSyncs st) as [|ie q] eqn:Hq; [done|].
  pose proof (flush_inv_completion env tbl c0 p0 S0 [] 0 Hio st Hinv) as Hstep.
  assert (∃ st1, deliver_completion env 0 st = (Ret tt, st1) ∧ inflightSyncs st1 = q)
    as (st1 & Hrun & Hq1).
  { destruct Hinv as (t & dn & subs & Ht & _ & _ & Hown & _).
    destruct (deliver_completion_success env 0 st ie t Hio) as (st1 & H1 & _ & H3 & _);
      [by rewrite Hq|done|apply Hown; rewrite Hq; by left|].
    exists st1. split; [done|]. by rewrite H3, Hq. }
  rewrite Hrun in Hstep. rewrite (bind_Ret _ _ _ _ _ Hrun).
  apply IH; [done|]. rewrite Hq1. simpl in Hlen. lia.
Qed.

Lemma ProcessSyncRequests_retries_finish_idle env st :
  inflightSyncs st = [] → retrySyncs st = [] →
  (ProcessSyncRequests_retries env;; ProcessSyncRequests_finish) st = (Ret tt, end_pass st).
Proof.
  intros Hi Hr.
  assert (RetrySyncRequests env st = (Ret tt, st)) as Hretry
    by by rewrite RetrySyncRequests_run, Hr.
  assert (ProcessSyncRequests_retries env st = (Ret tt, st)) as Hrs.
  { unfold ProcessSyncRequests_retries. simpl. unfold bind. by rewrite !Hretry. }
  rewrite (bind_Ret _ _ _ _ _ Hrs).
  by rewrite ProcessSyncRequests_finish_run, Hi, Hr.
Qed.

(** The pass, from a state between passes whose table is [tbl]. *)
Lemma ProcessSyncRequests_flushes_all env st tbl :
  (∀ n, absorb_feed env n = []) →
  (∀ n, (io_result env n).1 = true) →
  enableFsync env = true →
  pendingOps st = Some tbl →
  inflightSyncs st = [] → retrySyncs st = [] →
  sync_in_progress (sync_state_global st) = false →
  (∀ k e, tbl !! k = Some e → cycle_ctr e = sync_cycle_ctr st) →
  ∃ st' subs,
    ProcessSyncRequests env st = (Ret tt, st')
    ∧ pendingOps st' = Some ∅
    ∧ sync_events (trace st') = sync_events (trace st) ++ subs
    ∧ Forall2 submission_of (live_keys tbl) subs
    ∧ ckpt_sync_rels (CheckpointStats st') = int_cast (Z.of_nat (length subs)).
Proof.
  intros Hfeed Hio Hfs Htbl Hi Hr Hp Hcur.
  assert (ProcessSyncRequests env st
          = match ProcessSyncRequests_start env st with
            | (Ret _, st1) =>
                match ProcessSyncRequests_scan env st1 with
                | (Ret _, st2) =>
                    match pg_streaming_write_wait_all env st2 with
                    | (Ret _, st3) =>
                        (ProcessSyncRequests_retries env;; ProcessSyncRequests_finish) st3
                    | (Throw e, st3) => (Throw e, st3)
                    end
                | (Throw e, st2) => (Throw e, st2)
                end
            | (Throw e, st1) => (Throw e, st1)
            end) as -> by reflexivity.
  rewrite ProcessSyncRequests_start_run, Htbl, AbsorbSyncRequests_quiet by done.
  simpl. rewrite Hp.
  set (st1 := begin_pass _).
  assert (flush_inv tbl (sync_cycle_ctr st) 0 (sync_events (trace st))
            (map_to_list tbl).*1 st1) as Hinv.
  { exists tbl, [], []. unfold st1. simpl. rewrite Hi, Hr, sync_events_app. simpl.
    rewrite !app_nil_r.
    split; [done|]. split; [done|]. split; [apply NoDup_nil_2|].
    split; [by intros k ?%elem_of_nil|]. split.
    { intros k [e He]. left. apply list_elem_of_fmap. exists (k, e). split; [done|].
      by apply elem_of_map_to_list. }
    split; [intros k _; split; [done|by intros ?%elem_of_nil]|].
    split; [done|]. split; [done|]. split; [done|]. split; [constructor|].
    split; [done|]. split; [done|]. by intros k ?%elem_of_nil. }
  destruct (flush_inv_scan env tbl _ _ _ st1 Hfeed Hio Hfs Hcur Hinv)
    as (st2 & -> & Hinv2); [done|].
  unfold pg_streaming_write_wait_all, bind at 1, gets at 1.
  destruct (flush_inv_drain_all env tbl _ _ _ Hio (inflightSyncs st2) st2 Hinv2 eq_refl)
    as (st3 & -> & Hinv3 & Hi3).
  destruct Hinv3 as (t & dn & subs & Ht & Hr3 & _ & _ & Hdom & _ & _ & Hk & Hs & Hf & Hle & Hcount & Hliv).
  rewrite ProcessSyncRequests_retries_finish_idle by done.
  exists (end_pass st3), subs. split; [done|]. simpl. split.
  { rewrite Ht. f_equal. apply map_empty. intros k.
    destruct (t !! k) as [e|] eqn:He; [|done].
    destruct (Hdom k) as [Hx|Hx]; [by eexists|by apply elem_of_nil in Hx|].
    rewrite Hi3 in Hx. by apply elem_of_nil in Hx. }
  split; [done|]. split.
  { unfold live_keys. rewrite Hk, app_nil_r. done. }
  rewrite Hi3 in Hcount. simpl in Hcount. rewrite Hcount, Nat.sub_0_r.
  apply iter_int_cast_succ.
Qed.

(** X25.  When nothing arrives through the request queue and every flush
    succeeds, with fsync enabled, a pass of ProcessSyncRequests started
    between passes in a state the process can reach returns, having
    called the handler's sync function exactly once for each entry of the
    table that was not canceled, in the order of the table scan, and none
    for a canceled entry; the table is empty afterwards, and the exported
    ckpt_sync_rels is the number of those calls as an int: the number
    itself when it is below 2^31, and wrapped round otherwise. *)
Theorem ProcessSyncRequests_all_succeed
    (env : Env) (st : State) (tbl : gmap FileTag PendingFsyncEntry) :
  (∀ n, absorb_feed env n = []) →
  (∀ n, (io_result env n).1 = true) →
  enableFsync env = true →
  reachable st →
  sync_in_progress (sync_state_global st) = false →
  pendingOps st = Some tbl →
  ∃ st' subs,
    ProcessSyncRequests env st = (Ret tt, st')
    ∧ pendingOps st' = Some ∅
    ∧ sync_events (trace st') = sync_events (trace st) ++ subs
    ∧ Forall2 submission_of (live_keys tbl) subs
    ∧ ckpt_sync_rels (CheckpointStats st') = int_cast (Z.of_nat (length (live_keys tbl)))
    ∧ (Z.of_nat (length (live_keys tbl)) < 2147483648 →
         ckpt_sync_rels (CheckpointStats st') = Z.of_nat (length (live_keys tbl))).
Proof.
  intros Hfeed Hio Hfs Hreach Hp Htbl.
  destruct (reachable_sync_inv st Hreach) as (_ & _ & Hq).
  destruct (Hq Hp) as (Hcur & Hi & Hr).
  destruct (ProcessSyncRequests_flushes_all env st tbl Hfeed Hio Hfs Htbl Hi Hr Hp)
    as (st' & subs & H1 & H2 & H3 & H4 & H5).
  { intros k e He. apply (Hcur k e). unfold table_of. by rewrite Htbl. }
  exists st', subs. split; [done|]. split; [done|]. split; [done|]. split; [done|].
  rewrite H5, (Forall2_length _ _ _ H4). split; [done|].
  intros Hlt. apply int_cast_small. lia.
Qed.

(** The theorem for the checkpointer after InitSync and one fsync
    request for [T1], in the quiet environment. *)
Lemma ProcessSyncRequests_all_succeed_witness :
  let st := (run_call quiet_env (CallRememberSyncRequest T1 SYNC_REQUEST)
               (InitSync true initial_state).2).2 in
  ∃ st' subs,
    ProcessSyncRequests quiet_env st = (Ret tt, st')
    ∧ pendingOps st' = Some ∅
    ∧ sync_events (trace st') = sync_events (trace st) ++ subs
    ∧ Forall2 submission_of (live_keys (table_of st)) subs.
Proof.
  intros st.
  destruct (ProcessSyncRequests_all_succeed quiet_env st (table_of st)
              (λ _, eq_refl) (λ _, eq_refl) eq_refl
              (reachable_step quiet_env (CallRememberSyncRequest T1 SYNC_REQUEST)
                 _ (reachable_init true))
              eq_refl eq_refl)
    as (st' & subs & H1 & H2 & H3 & H4 & _).
  exists st', subs. split; [exact H1|]. split; [exact H2|]. split; [exact H3|exact H4].
Defined.

(** *** RetrySyncRequests does not wait *)

Lemma retry_fuel_length st : (length (retrySyncs st) ≤ retry_fuel st)%nat.
Proof.
  unfold retry_fuel. generalize (sum_list_with (λ e, 2 * retries_left e)%nat (inflightSyncs st)).
  induction (retrySyncs st) as [|x l IH]; intros n; cbn [sum_list_with length]; [lia|].
  specialize (IH n). lia.
Qed.

Lemma call_syncfiletag_no_drain env ie st :
  (∀ n, drain_at env n = []) →
  call_syncfiletag env ie st = (Ret tt, submitted env ie st).
Proof. intros Hd. by rewrite call_syncfiletag_run, Hd. Qed.

Lemma RetrySyncRequests_loop_resubmits env tbl :
  (∀ n, drain_at env n = []) →
  ∀ l fuel st,
    retrySyncs st = l → pendingOps st = Some tbl →
    Forall (λ ie, retry_count ie ≤ 5
                  ∧ ∃ e, tbl !! hash_entry ie = Some e ∧ canceled e = false) l →
    (length l ≤ fuel)%nat →
    ∃ st',
      RetrySyncRequests_loop env fuel st = (Ret tt, st')
      ∧ retrySyncs st' = []
      ∧ set_start_time 0 <$> inflightSyncs st'
        = set_start_time 0 <$> (inflightSyncs st ++ l)
      ∧ pendingOps st' = Some tbl
      ∧ length (sync_events (trace st'))
        = (length (sync_events (trace st)) + length l)%nat.
Proof.
  intros Hd l. induction l as [|ie rest IH]; intros fuel st Hq Ht Hall Hfuel.
  { rewrite RetrySyncRequests_loop_nil by done. exists st.
    rewrite app_nil_r, Nat.add_0_r. done. }
  destruct fuel as [|fuel]; [simpl in Hfuel; lia|].
  apply Forall_cons in Hall as [(Hrc & e & He & Hc) Hall].
  rewrite (RetrySyncRequests_loop_step _ _ _ _ _ Hq), Ht, He, Hc. cbv zeta.
  rewrite (proj2 (Z.leb_le _ _) Hrc).
  rewrite (bind_Ret _ _ _ _ _ (call_syncfiletag_no_drain env ie _ Hd)).
  destruct (IH fuel (submitted env ie (set_retrySyncs rest st)))
    as (st' & H1 & H2 & H3 & H4 & H5); [done|done|done|simpl in Hfuel; lia|].
  exists st'. split; [done|]. split; [done|]. split.
  { rewrite H3. simpl. rewrite <-(assoc_L (++)). rewrite !fmap_app. simpl. done. }
  split; [done|]. rewrite H5, submitted_sync_events, length_app. simpl. lia.
Qed.

(** X26.  RetrySyncRequests does not wait for what it resubmits.  When
    no completion is delivered while the handlers' sync functions run and
    nothing arrives through the request queue, a call with requests on
    the retry queue whose owners are in the table and not canceled
    returns with the retry queue empty and every one of these requests in
    flight again, after one sync call for each; the table is as before.
    The later calls of the retry bank then find nothing to retry, and the
    emptiness check that follows in ProcessSyncRequests raises PANIC
    "inflight sync requests corrupted". *)
Theorem RetrySyncRequests_does_not_wait
    (env : Env) (st : State) (tbl : gmap FileTag PendingFsyncEntry) :
  (∀ n, drain_at env n = []) →
  (∀ n, absorb_feed env n = []) →
  pendingOps st = Some tbl →
  retrySyncs st ≠ [] →
  Forall (λ ie, retry_count ie ≤ 5
                ∧ ∃ e, tbl !! hash_entry ie = Some e ∧ canceled e = false)
    (retrySyncs st) →
  ∃ st',
    RetrySyncRequests env st = (Ret tt, st')
    ∧ retrySyncs st' = []
    ∧ set_start_time 0 <$> inflightSyncs st'
      = set_start_time 0 <$> (inflightSyncs st ++ retrySyncs st)
    ∧ pendingOps st' = Some tbl
    ∧ length (sync_events (trace st'))
      = (length (sync_events (trace st)) + length (retrySyncs st))%nat
    ∧ (ProcessSyncRequests_retries env;; ProcessSyncRequests_finish) st
      = (Throw (Ereport PANIC "inflight sync requests corrupted"), st').
Proof.
  intros Hd Hfeed Ht Hne Hall.
  assert (∃ st', RetrySyncRequests env st = (Ret tt, st')
                 ∧ retrySyncs st' = []
                 ∧ set_start_time 0 <$> inflightSyncs st'
                   = set_start_time 0 <$> (inflightSyncs st ++ retrySyncs st)
                 ∧ pendingOps st' = Some tbl
                 ∧ length (sync_events (trace st'))
                   = (length (sync_events (trace st)) + length (retrySyncs st))%nat)
    as (st' & Hrun & H2 & H3 & H4 & H5).
  { rewrite RetrySyncRequests_run.
    destruct (retrySyncs st) as [|ie rest] eqn:Hq; [done|].
    rewrite AbsorbSyncRequests_quiet by done. cbv zeta.
    set (st2 := set_sync_state_global _ _).
    destruct (RetrySyncRequests_loop_resubmits env tbl Hd (ie :: rest) (retry_fuel st2) st2)
      as (st' & H1 & H2 & H3 & H4 & H5); [done|done|done| |].
    { pose proof (retry_fuel_length st2) as Hl. unfold st2 in Hl at 1. simpl in Hl.
      by rewrite Hq in Hl. }
    exists st'. split; [done|]. split; [done|]. split; [done|]. split; [done|].
    rewrite H5. unfold st2. simpl. by rewrite sync_events_app, app_nil_r. }
  exists st'. split; [done|]. split; [done|]. split; [done|]. split; [done|].
  split; [done|].
  assert (RetrySyncRequests env st' = (Ret tt, st')) as Hidle
    by by rewrite RetrySyncRequests_run, H2.
  assert (ProcessSyncRequests_retries env st = (Ret tt, st')) as Hrs.
  { unfold ProcessSyncRequests_retries. simpl. unfold bind.
    rewrite Hrun. by rewrite !Hidle. }
  rewrite (bind_Ret _ _ _ _ _ Hrs), ProcessSyncRequests_finish_run.
  destruct (inflightSyncs st') as [|x q] eqn:Hi; [|done].
  exfalso. apply (f_equal length) in H3. rewrite !length_fmap, length_app in H3.
  simpl in H3. destruct (retrySyncs st); [done|]. simpl in H3. lia.
Qed.

(** The theorem at [retry_state]: the request for [T1] goes back in
    flight and the pass ends in the PANIC. *)
Lemma RetrySyncRequests_does_not_wait_witness :
  ∃ st',
    RetrySyncRequests quiet_env retry_state = (Ret tt, st')
    ∧ retrySyncs st' = []
    ∧ (ProcessSyncRequests_retries quiet_env;; ProcessSyncRequests_finish) retry_state
      = (Throw (Ereport PANIC "inflight sync requests corrupted"), st').
Proof.
  destruct (RetrySyncRequests_does_not_wait quiet_env retry_state
              {[ T1 := {| cycle_ctr := 0; canceled := false |} ]}
              (λ _, eq_refl) (λ _, eq_refl) eq_refl ltac:(discriminate))
    as (st' & H1 & H2 & _ & _ & _ & H6).
  - apply Forall_cons_2; [|apply Forall_nil_2]. split; [simpl; lia|].
    eexists. split; [apply lookup_singleton_eq|reflexivity].
  - exists st'. split; [exact H1|]. split; [exact H2|exact H6].
Defined.

(* ===================================================================== *)
(** ** The main loop of ProcessSyncRequests as a whole *)
(* ===================================================================== *)

#[global] Instance keeps_current_preorder k : PreOrder (keeps_current k).
Proof.
  split.
  - by intros st H.
  - intros a b c H1 H2 H. by apply H2, H1.
Qed.









(** *** The main loop of ProcessSyncRequests *)




(* ===================================================================== *)
(** ** ProcessSyncRequests: how a pass ends *)
(* ===================================================================== *)

(** X22.  A pass of ProcessSyncRequests from a state the process can
    reach always comes to an end: the loop bounds of the model are never
    hit and no assertion fails, so that the pass returns or raises an
    error of the code.  It returns when nothing arrives through the
    request queue and every flush succeeds, with fsync enabled, a table
    and no pass in progress.  And whenever it returns: it was entered
    with sync_in_progress clear; sync_cycle_ctr has advanced by exactly
    one, modulo 2^16, and so differs from what it was; every entry left
    in the pending-ops table carries the new counter, so that every
    request that was pending when the pass began has been flushed or
    canceled and only requests registered during the pass remain;
    checkpoint_cycle_ctr is unchanged and no unlink was called. *)
Theorem ProcessSyncRequests_returns_clean (env : Env) (st : State) :
  reachable st →
  (ProcessSyncRequests env st).1 ≠ Throw OutOfFuel
  ∧ (∀ cond, (ProcessSyncRequests env st).1 ≠ Throw (AssertFailure cond))
  ∧ ((∀ n, absorb_feed env n = []) →
     (∀ n, (io_result env n).1 = true) →
     enableFsync env = true →
     is_Some (pendingOps st) →
     sync_in_progress (sync_state_global st) = false →
     (ProcessSyncRequests env st).1 = Ret tt)
  ∧ (∀ st', ProcessSyncRequests env st = (Ret tt, st') →
       sync_in_progress (sync_state_global st) = false
       ∧ sync_cycle_ctr st' = CycleCtr_cast (sync_cycle_ctr st + 1)
       ∧ sync_cycle_ctr st' ≠ sync_cycle_ctr st
       ∧ (∀ k e, table_of st' !! k = Some e → cycle_ctr e = sync_cycle_ctr st')
       ∧ checkpoint_cycle_ctr st' = checkpoint_cycle_ctr st
       ∧ unlink_events (trace st') = unlink_events (trace st)).
Proof.
  intros Hreach.
  pose proof (ProcessSyncRequests_spec env st (reachable_sync_inv st Hreach)) as Hspec.
  split; [|split; [|split]].
  - intros Hthrow. destruct (ProcessSyncRequests env st) as [[[]|e] st1]; [done|].
    simpl in Hthrow. injection Hthrow as ->. by destruct Hspec as [Hb _].
  - intros cond Hthrow. destruct (ProcessSyncRequests env st) as [[[]|e] st1]; [done|].
    simpl in Hthrow. injection Hthrow as ->. by destruct Hspec as [Hb _].
  - intros Hfeed Hio Hfs [tbl Htbl] Hp.
    destruct (reachable_sync_inv st Hreach) as (_ & _ & Hq).
    destruct (Hq Hp) as (Hcur & Hi & Hr).
    destruct (ProcessSyncRequests_flushes_all env st tbl Hfeed Hio Hfs Htbl Hi Hr Hp)
      as (st' & subs & -> & _); [|done].
    intros k e He. apply (Hcur k e). unfold table_of. by rewrite Htbl.
  - intros st' Hrun.
    rewrite Hrun in Hspec. destruct Hspec as ((_ & _ & Hq) & _ & _ & Hflag).
    destruct (Hq Hflag) as (Hcur & _ & _).
    rewrite ProcessSyncRequests_split in Hrun. unfold bind in Hrun.
    destruct (ProcessSyncRequests_until_checks env st) as [[[]|e] st2] eqn:Hu; [|done].
    destruct (ProcessSyncRequests_until_checks_returns env st st2 Hu)
      as (H1 & _ & H3 & H4 & H5).
    rewrite ProcessSyncRequests_finish_run in Hrun.
    destruct (inflightSyncs st2), (retrySyncs st2); try done.
    injection Hrun as <-. simpl.
    split; [done|]. split; [done|]. split; [rewrite H3; apply CycleCtr_cast_succ_ne_self|].
    split; [exact Hcur|]. done.
Qed.

(** The theorem for the checkpointer after InitSync and one fsync
    request for [T1], in the quiet environment: the pass returns, with
    sync_cycle_ctr advanced. *)
Lemma ProcessSyncRequests_returns_clean_witness :
  let st := (run_call quiet_env (CallRememberSyncRequest T1 SYNC_REQUEST)
               (InitSync true initial_state).2).2 in
  (ProcessSyncRequests quiet_env st).1 = Ret tt
  ∧ sync_cycle_ctr (ProcessSyncRequests quiet_env st).2 = CycleCtr_cast (sync_cycle_ctr st + 1).
Proof.
  intros st.
  destruct (ProcessSyncRequests_returns_clean quiet_env st
              (reachable_step quiet_env (CallRememberSyncRequest T1 SYNC_REQUEST)
                 _ (reachable_init true)))
    as (_ & _ & Hret & Hclean).
  assert ((ProcessSyncRequests quiet_env st).1 = Ret tt) as Hrun.
  { apply Hret; [intros n; reflexivity|intros n; reflexivity|reflexivity| |reflexivity].
    eexists. reflexivity. }
  split; [exact Hrun|].
  refine (proj1 (proj2 (Hclean (ProcessSyncRequests quiet_env st).2 _))).
  destruct (ProcessSyncRequests quiet_env st) as [o st']. simpl in Hrun. by rewrite Hrun.
Defined.
